(** * Capital Compass: the data pipeline (parser, scoring engine,
      aggregators, exporter)

    A shallow embedding of [parseCSV], [processData] and
    [exportCompaniesToCSV] and of the helpers they call, followed by the
    properties of the specification that were checked against them.
    Further properties of the same functions follow, and with them the
    code that computes on the result of the pipeline: the loading of
    several files, the median of the dashboard, the pager of the company
    list and the theme selection of the trend chart.

    Conventions of the embedding.
    - A JavaScript string is a [string]: a sequence of code units, read as
      the code points U+0000..U+00FF.
    - A JavaScript number is a [num]: an exact rational, the two
      infinities, or NaN.  The arithmetic of [Num] is exact: it does not
      round to IEEE binary64 and does not overflow, and the sign of zero
      is not tracked.  Where a property depends on the rounding (the
      percentages of the trends, which are rendered with one decimal) the
      operations of [Double] are used, which round the exact result to
      the nearest binary64 number; where it depends on the absence of
      overflow (the ranges of the scores) it is stated for numbers of a
      bounded magnitude.  [parseInt] and [parseFloat] read a numeral as
      the exact number it writes: it is not rounded, and a numeral beyond
      the range of binary64 does not read as an infinity.
    - A raw record (a JavaScript object used as a dictionary from column
      name to text) is a [gmap string string]; a missing key is
      [undefined].
    - A [Map] is an insertion-ordered association list without duplicate
      keys ([mapSet], [mapGet]); [Array.prototype.sort] is a stable
      insertion sort driven by the sign of the comparator. *)

From Stdlib Require Import QArith Qround Qabs Qpower Lqa ZArith Lia List Ascii.
From Stdlib Require Import String.
From Stdlib Require Import DecimalString DecimalNat Permutation Sorted.
From stdpp Require Import gmap strings list.

Open Scope string_scope.
Open Scope Z_scope.

(* ================================================================== *)
(** ** Strings *)
(* ================================================================== *)

Module Str.

(** The quote, comma and line feed characters. *)
Definition dquote : ascii := "034"%char.
Definition comma : ascii := ","%char.
Definition newline : ascii := "010"%char.

Definition str1 (c : ascii) : string := String c EmptyString.

(** WhiteSpace and LineTerminator code points below U+0100: TAB, LF, VT,
    FF, CR, SP and NBSP. *)
Definition isWhite (c : ascii) : bool :=
  let n := N_of_ascii c in
  ((9 <=? n) && (n <=? 13) || (n =? 32) || (n =? 160))%N.

Definition isDigit (c : ascii) : bool :=
  let n := N_of_ascii c in ((48 <=? n) && (n <=? 57))%N.

(** Word characters of a regular expression without the [u] flag. *)
Definition isWordChar (c : ascii) : bool :=
  let n := N_of_ascii c in
  (isDigit c || (65 <=? n) && (n <=? 90) || (97 <=? n) && (n <=? 122)
   || (n =? 95))%N.

Definition lowerChar (c : ascii) : ascii :=
  let n := N_of_ascii c in
  if ((65 <=? n) && (n <=? 90)
      || (192 <=? n) && (n <=? 222) && negb (n =? 215))%N
  then ascii_of_N (n + 32) else c.

Fixpoint toLowerCase (s : string) : string :=
  match s with
  | EmptyString => EmptyString
  | String c r => String (lowerChar c) (toLowerCase r)
  end.

Fixpoint trimStart (s : string) : string :=
  match s with
  | String c r => if isWhite c then trimStart r else s
  | EmptyString => EmptyString
  end.

Fixpoint trimEnd (s : string) : string :=
  match s with
  | EmptyString => EmptyString
  | String c r =>
      match trimEnd r with
      | EmptyString => if isWhite c then EmptyString else str1 c
      | r' => String c r'
      end
  end.

Definition trim (s : string) : string := trimEnd (trimStart s).

Definition isEmpty (s : string) : bool :=
  match s with EmptyString => true | _ => false end.

Fixpoint startsWith (p s : string) : bool :=
  match p, s with
  | EmptyString, _ => true
  | String a p', String b s' => Ascii.eqb a b && startsWith p' s'
  | String _ _, EmptyString => false
  end.

Fixpoint includes (needle s : string) : bool :=
  startsWith needle s
  || match s with
     | EmptyString => false
     | String _ r => includes needle r
     end.

(** [s.split(sep)] for a separator of one character. *)
Fixpoint split (sep : ascii) (s : string) : list string :=
  match s with
  | EmptyString => [EmptyString]
  | String c r =>
      if Ascii.eqb c sep then EmptyString :: split sep r
      else match split sep r with
           | h :: t => String c h :: t
           | [] => [str1 c]
           end
  end.

(** [xs.join(sep)]. *)
Fixpoint join (sep : string) (xs : list string) : string :=
  match xs with
  | [] => EmptyString
  | [x] => x
  | x :: rest => x ++ sep ++ join sep rest
  end.

(** [s.replace(/c/g, by)] for a pattern of one literal character. *)
Fixpoint replaceAll (c : ascii) (by_ : string) (s : string) : string :=
  match s with
  | EmptyString => EmptyString
  | String a r =>
      if Ascii.eqb a c then by_ ++ replaceAll c by_ r
      else String a (replaceAll c by_ r)
  end.

Definition dropLeadingQuote (s : string) : string :=
  match s with
  | String c r => if Ascii.eqb c dquote then r else s
  | EmptyString => EmptyString
  end.

Fixpoint dropTrailingQuote (s : string) : string :=
  match s with
  | EmptyString => EmptyString
  | String c EmptyString => if Ascii.eqb c dquote then EmptyString else s
  | String c r => String c (dropTrailingQuote r)
  end.

(** The global replacement, by nothing, of a quote at the start and of
    a quote at the end: each is removed when present. *)
Definition stripQuotes (s : string) : string :=
  dropTrailingQuote (dropLeadingQuote s).

Definition count (c : ascii) (s : string) : nat :=
  List.length (List.filter (Ascii.eqb c) (list_ascii_of_string s)).

Definition hasChar (c : ascii) (s : string) : bool :=
  existsb (Ascii.eqb c) (list_ascii_of_string s).

(** Every character of [s] satisfies [p]. *)
Fixpoint all (p : ascii -> bool) (s : string) : bool :=
  match s with
  | EmptyString => true
  | String c r => p c && all p r
  end.

End Str.

(* ================================================================== *)
(** ** Numbers *)
(* ================================================================== *)

Inductive num : Type :=
| NaN
| PInf
| NInf
| Fin (q : Q).

Module Num.

Definition ofZ (z : Z) : num := Fin (inject_Z z).
Definition ofNat (n : nat) : num := Fin (inject_Z (Z.of_nat n)).

(** Sign of a number: -1, 0 or 1; NaN has none. *)
Definition sgn (x : num) : option Z :=
  match x with
  | NaN => None
  | PInf => Some 1
  | NInf => Some (-1)
  | Fin q => Some (Z.sgn (Qnum q))
  end.

Definition neg (x : num) : num :=
  match x with
  | NaN => NaN
  | PInf => NInf
  | NInf => PInf
  | Fin q => Fin (- q)
  end.

Definition add (x y : num) : num :=
  match x, y with
  | NaN, _ | _, NaN => NaN
  | PInf, NInf | NInf, PInf => NaN
  | PInf, _ | _, PInf => PInf
  | NInf, _ | _, NInf => NInf
  | Fin a, Fin b => Fin (a + b)
  end.

Definition sub (x y : num) : num := add x (neg y).

Definition signed_inf (s : Z) : num :=
  if s =? 0 then NaN else if 0 <? s then PInf else NInf.

Definition mul (x y : num) : num :=
  match x, y with
  | Fin a, Fin b => Fin (a * b)
  | _, _ =>
      match sgn x, sgn y with
      | Some s, Some t => signed_inf (s * t)
      | _, _ => NaN
      end
  end.

(** Division; a zero divisor is taken as +0. *)
Definition div (x y : num) : num :=
  match x, y with
  | NaN, _ | _, NaN => NaN
  | Fin a, Fin b =>
      if Qeq_bool b 0 then signed_inf (Z.sgn (Qnum a)) else Fin (a / b)
  | Fin _, _ => Fin 0
  | _, Fin b =>
      match sgn x with
      | Some s => signed_inf (s * (if Qeq_bool b 0 then 1 else Z.sgn (Qnum b)))
      | None => NaN
      end
  | _, _ => NaN
  end.

(** [x === y]. *)
Definition eqb (x y : num) : bool :=
  match x, y with
  | PInf, PInf | NInf, NInf => true
  | Fin a, Fin b => Qeq_bool a b
  | _, _ => false
  end.

(** [x < y]. *)
Definition ltb (x y : num) : bool :=
  match x, y with
  | NaN, _ | _, NaN => false
  | _, NInf | PInf, _ => false
  | NInf, _ | _, PInf => true
  | Fin a, Fin b => negb (Qle_bool b a)
  end.

(** [Math.min(x, y)] and [Math.max(x, y)]: NaN is contagious. *)
Definition min2 (x y : num) : num :=
  match x, y with
  | NaN, _ | _, NaN => NaN
  | _, _ => if ltb y x then y else x
  end.

Definition max2 (x y : num) : num :=
  match x, y with
  | NaN, _ | _, NaN => NaN
  | _, _ => if ltb x y then y else x
  end.

(** [Math.min(...xs)] and [Math.max(...xs)], folded from the left
    starting at the identity of the operation. *)
Definition minOf (xs : list num) : num := fold_left min2 xs PInf.
Definition maxOf (xs : list num) : num := fold_left max2 xs NInf.

(** ToBoolean: 0 and NaN are falsy. *)
Definition truthy (x : num) : bool :=
  match x with
  | NaN => false
  | Fin q => negb (Qeq_bool q 0)
  | _ => true
  end.

(** [x || y] on numbers. *)
Definition orElse (x y : num) : num := if truthy x then x else y.

(** Equality of numbers up to the representation of the rational. *)
Definition eq (x y : num) : Prop :=
  match x, y with
  | NaN, NaN | PInf, PInf | NInf, NInf => True
  | Fin a, Fin b => (a == b)%Q
  | _, _ => False
  end.

(** [lo <= x <= hi] for a finite [x]. *)
Definition between (lo hi : Q) (x : num) : Prop :=
  match x with
  | Fin q => (lo <= q)%Q /\ (q <= hi)%Q
  | _ => False
  end.

Definition isFinite (x : num) : bool :=
  match x with Fin _ => true | _ => false end.

End Num.

Declare Scope num_scope.
Delimit Scope num_scope with num.
Bind Scope num_scope with num.
Infix "+" := Num.add : num_scope.
Infix "-" := Num.sub : num_scope.
Infix "*" := Num.mul : num_scope.
Infix "/" := Num.div : num_scope.
Infix "==" := Num.eq (at level 70, no associativity) : num_scope.

(* ================================================================== *)
(** ** Binary64 rounding *)
(* ================================================================== *)

Module Double.

(** The nearest integer, a tie going to the even one. *)
Definition roundHalfEven (q : Q) : Z :=
  let f := Qfloor q in
  match (q - inject_Z f ?= 1 # 2)%Q with
  | Lt => f
  | Gt => f + 1
  | Eq => if Z.even f then f else f + 1
  end.

(** The binary exponent of a positive number: the largest [e] with
    [2^e <= q]. *)
Definition exponent (q : Q) : Z :=
  let e := Z.log2 (Qnum q) - Z.log2 (Zpos (Qden q)) in
  if Qle_bool (2 ^ e) q then e else e - 1.

(** The binary64 number nearest to a rational: 53 significant bits from
    the exponent -1022 up, steps of [2^-1074] below, an infinity from
    [2^1024] on, a tie going to the even significand. *)
Definition round (q : Q) : num :=
  if Qeq_bool q 0 then Fin 0
  else
    let a := Qabs q in
    let s := Z.max (exponent a) (-1022) - 52 in
    let r := (inject_Z (roundHalfEven (a / 2 ^ s)) * 2 ^ s)%Q in
    if Qle_bool (2 ^ 1024) r
    then (if Qle_bool 0 q then PInf else NInf)
    else Fin (if Qle_bool 0 q then r else - r).

Definition lift (x : num) : num :=
  match x with
  | Fin q => round q
  | _ => x
  end.

(** [x / y] and [x * y] on binary64 numbers. *)
Definition div (x y : num) : num := lift (Num.div x y).
Definition mul (x y : num) : num := lift (Num.mul x y).

End Double.

(* ================================================================== *)
(** ** Reading and writing numbers *)
(* ================================================================== *)

Module Parse.

(** Value of a character as a digit, up to radix 36. *)
Definition digitVal (c : ascii) : option Z :=
  let n := Z.of_N (N_of_ascii c) in
  if (48 <=? n) && (n <=? 57) then Some (n - 48)
  else if (97 <=? n) && (n <=? 122) then Some (n - 87)
  else if (65 <=? n) && (n <=? 90) then Some (n - 55)
  else None.

(** The longest prefix of [s] made of digits of the radix: its value
    (continuing from [acc]), how many digits it has, and what follows. *)
Fixpoint readDigits (radix : Z) (s : string) (acc : Z) (n : nat)
  : Z * nat * string :=
  match s with
  | EmptyString => (acc, n, s)
  | String c r =>
      match digitVal c with
      | Some d =>
          if d <? radix then readDigits radix r (acc * radix + d) (S n)
          else (acc, n, s)
      | None => (acc, n, s)
      end
  end.

(** An optional sign: the factor and what follows. *)
Definition readSign (s : string) : Z * string :=
  match s with
  | String "-"%char r => (-1, r)
  | String "+"%char r => (1, r)
  | _ => (1, s)
  end.

(** [parseInt(s)] with no radix argument. *)
Definition parseInt (s : string) : num :=
  let '(sign, s1) := readSign (Str.trimStart s) in
  let '(radix, s2) :=
    match s1 with
    | String "0"%char (String x r) =>
        if Ascii.eqb x "x"%char || Ascii.eqb x "X"%char then (16, r)
        else (10, s1)
    | _ => (10, s1)
    end in
  match readDigits radix s2 0 0 with
  | (_, O, _) => NaN
  | (v, _, _) => Num.ofZ (sign * v)
  end.

(** The exponent part of a decimal literal, when it is complete. *)
Definition readExponent (s : string) : Z :=
  match s with
  | String e r =>
      if Ascii.eqb e "e"%char || Ascii.eqb e "E"%char then
        let '(sign, r1) := readSign r in
        match readDigits 10 r1 0 0 with
        | (_, O, _) => 0
        | (v, _, _) => sign * v
        end
      else 0
  | EmptyString => 0
  end.

(** [parseFloat(s)]: the longest prefix that is a decimal literal. *)
Definition parseFloat (s : string) : num :=
  let '(sign, s1) := readSign (Str.trimStart s) in
  if Str.startsWith "Infinity" s1 then (if sign <? 0 then NInf else PInf)
  else
    let '(ip, ni, r1) := readDigits 10 s1 0 0 in
    let '(fp, nf, r2) :=
      match r1 with
      | String "."%char r => readDigits 10 r 0 0
      | _ => (0, O, r1)
      end in
    match ni, nf with
    | O, O => NaN
    | _, _ =>
        let mant := (inject_Z ip + inject_Z fp / inject_Z (10 ^ Z.of_nat nf))%Q in
        Fin (inject_Z sign * mant * Qpower 10 (readExponent r2))
    end.

Definition natToString (n : nat) : string :=
  NilZero.string_of_uint (Nat.to_uint n).

Definition zToString (z : Z) : string :=
  NilZero.string_of_uint (N.to_uint (Z.to_N z)).

Fixpoint zeros (n : nat) : string :=
  match n with
  | O => EmptyString
  | S k => String "0"%char (zeros k)
  end.

(** The decimal rendering of [n / 10^f] with exactly [f] fraction
    digits, for [n >= 0]. *)
Definition fixedDigits (f : nat) (n : Z) : string :=
  let m := zToString n in
  match f with
  | O => m
  | _ =>
      let k := String.length m in
      let m' := if (k <=? f)%nat then zeros (f + 1 - k) ++ m else m in
      let k' := String.length m' in
      substring 0 (k' - f) m' ++ "." ++ substring (k' - f) f m'
  end.

(** The integer [n] for which [n / 10^f - q] is closest to zero; the
    larger one when there are two. *)
Definition nearest (f : nat) (q : Q) : Z :=
  Qfloor (q * inject_Z (10 ^ Z.of_nat f) + (1 # 2))%Q.

End Parse.

(* ================================================================== *)
(** ** Arrays, Maps and objects *)
(* ================================================================== *)

Module Js.

Section Sort.
Context {A : Type}.
(** The comparator returns a number; only a result above zero moves
    the left argument behind the right one (a NaN result counts as
    zero). *)
Variable cmp : A -> A -> num.

Definition after (x y : A) : bool := Num.ltb (Fin 0) (cmp x y).

Fixpoint insert (x : A) (l : list A) : list A :=
  match l with
  | [] => [x]
  | y :: r => if after x y then y :: insert x r else x :: y :: r
  end.

(** [xs.sort(cmp)]: stable. *)
Fixpoint sort (l : list A) : list A :=
  match l with
  | [] => []
  | x :: r => insert x (sort r)
  end.
End Sort.

Section OrderedMap.
Context {K V : Type} `{EqDecision K}.

Fixpoint mapGet (k : K) (m : list (K * V)) : option V :=
  match m with
  | [] => None
  | (k', v) :: r => if decide (k = k') then Some v else mapGet k r
  end.

(** [m.set(k, v)]: an existing key keeps its place, a new one goes
    last. *)
Fixpoint mapSet (k : K) (v : V) (m : list (K * V)) : list (K * V) :=
  match m with
  | [] => [(k, v)]
  | (k', v') :: r =>
      if decide (k = k') then (k, v) :: r else (k', v') :: mapSet k v r
  end.
End OrderedMap.

(** [[...new Set(xs)]]: the first occurrence of each value, in order. *)
Fixpoint unique (seen xs : list string) : list string :=
  match xs with
  | [] => []
  | x :: r =>
      if bool_decide (x ∈ seen) then unique seen r
      else x :: unique (x :: seen) r
  end.

(** ToBoolean of [string | undefined]: absent and empty are falsy. *)
Definition truthy (v : option string) : bool :=
  match v with
  | Some s => negb (Str.isEmpty s)
  | None => false
  end.

(** [v || d] for [v : string | undefined]. *)
Definition orElse (v : option string) (d : string) : string :=
  match v with
  | Some s => if Str.isEmpty s then d else s
  | None => d
  end.

(** [xs.map(f)] where the callback also receives the index. *)
Fixpoint mapi_from {A B : Type} (i : nat) (f : A -> nat -> B) (xs : list A)
  : list B :=
  match xs with
  | [] => []
  | x :: r => f x i :: mapi_from (S i) f r
  end.

Definition mapi {A B : Type} (f : A -> nat -> B) (xs : list A) : list B :=
  mapi_from 0 f xs.

End Js.

(** A raw record: column name to text. *)
Abbreviation RawCompanyData := (gmap string string).

(* ================================================================== *)
(** ** The tabular parser *)
(* ================================================================== *)

Module Csv.

(** The cell pushed from the text collected so far. *)
Definition cell (currentCell : string) : string :=
  Str.stripQuotes (Str.trim currentCell).

(** State of the scan of one line: the cells pushed, whether a quote is
    open, and the cell being collected. *)
Definition scanState : Type := list string * bool * string.

Definition scanChar (st : scanState) (char : ascii) : scanState :=
  let '(row, inQuote, currentCell) := st in
  if Ascii.eqb char Str.dquote then (row, negb inQuote, currentCell)
  else if Ascii.eqb char Str.comma && negb inQuote
       then ((row ++ [cell currentCell])%list, inQuote, EmptyString)
       else (row, inQuote, currentCell ++ Str.str1 char).

Fixpoint scan (line : string) (st : scanState) : scanState :=
  match line with
  | EmptyString => st
  | String char r => scan r (scanChar st char)
  end.

(** The body of the loop over the lines up to the final push. *)
Definition parseRow (line : string) : list string :=
  let '(row, _, currentCell) := scan line ([], false, EmptyString) in
  (row ++ [cell currentCell])%list.

(** The one name under which an assignment to a plain object stores no
    key: it reaches the setter inherited from [Object.prototype], which
    ignores a value that is a string. *)
Definition protoKey : string := "__proto__".

(** [obj[h] = v] for a text [v]. *)
Definition setField (obj : RawCompanyData) (hv : string * string)
  : RawCompanyData :=
  if String.eqb (fst hv) protoKey then obj else <[fst hv := snd hv]> obj.

(** [headers.forEach((h, idx) => obj[h] = row[idx])] on the empty
    object; a later header of the same name overwrites an earlier
    one. *)
Definition mkObject (headers row : list string) : RawCompanyData :=
  fold_left setField (zip headers row) ∅.

Definition nonBlankLines (text : string) : list string :=
  List.filter (fun l => negb (Str.isEmpty (Str.trim l)))
              (Str.split Str.newline text).

Definition parseHeaders (line : string) : list string :=
  List.map (fun h => Str.stripQuotes (Str.trim h)) (Str.split Str.comma line).

(** One turn of the loop over the data lines. *)
Definition parseLine (headers : list string) (data : list RawCompanyData)
                     (line : string) : list RawCompanyData :=
  let row := parseRow line in
  if (List.length row =? List.length headers)%nat
  then (data ++ [mkObject headers row])%list
  else data.

Definition parseCSV (text : string) : list RawCompanyData :=
  match nonBlankLines text with
  | [] | [_] => []
  | first :: rest => fold_left (parseLine (parseHeaders first)) rest []
  end.

End Csv.

(* ================================================================== *)
(** ** Data model of the scoring pipeline *)
(* ================================================================== *)

(** A raw record with the four numeric fields derived from it
    ([{ ...c, _fundAmt, _articles, _rank, _rounds }]). *)
Record Normalized : Type := {
  raw : RawCompanyData;
  _fundAmt : num;
  _articles : num;
  _rank : num;
  _rounds : num
}.

Record Scores : Type := {
  funding : num;
  operations : num;
  brandTrend : num;
  potential : num;
  comprehensive : num
}.

Record Themes : Type := {
  ai : bool;
  climate : bool;
  fintech : bool;
  healthcare : bool;
  saas : bool;
  consumer : bool
}.

(** A scored company.  The [acquisitionStatus] field, which no property
    below reads, is left out. *)
Record ScoredCompany : Type := {
  source : Normalized;
  id : string;
  scores : Scores;
  themes : Themes
}.

Record ThemeTrend : Type := {
  year : Z;
  AI : num;
  Climate : num;
  Fintech : num;
  Healthcare : num;
  SaaS : num;
  Consumer : num
}.

(** Running tallies: per founding year in the trend pass, per investor
    in the investor pass ([themeCounts]). *)
Record ThemeCounts : Type := {
  nAI : nat;
  nClimate : nat;
  nFintech : nat;
  nHealthcare : nat;
  nSaaS : nat;
  nConsumer : nat
}.

Record PortfolioItem : Type := {
  item_name : option string;
  item_themes : list string
}.

Record InvestorStat : Type := {
  name : string;
  count : nat;
  topThemes : list string;
  portfolio : list PortfolioItem
}.

(** An entry of [trendsMap]. *)
Record TrendEntry : Type := {
  trend_themes : ThemeCounts;
  trend_count : nat
}.

(** An entry of [investorMap]. *)
Record InvestorEntry : Type := {
  entry_count : nat;
  themeCounts : ThemeCounts;
  entry_portfolio : list (option string * list string)
}.

Record Bounds : Type := {
  maxFund : num;
  minFund : num;
  maxArticles : num;
  maxRounds : num;
  minRank : num;
  maxRank : num
}.

Record Processed : Type := {
  companies : list ScoredCompany;
  trends : list ThemeTrend;
  investors : list InvestorStat
}.

(* ================================================================== *)
(** ** Normalizer, classifier and scoring engine *)
(* ================================================================== *)

Definition normalize (val min max : num) : num :=
  if Num.eqb max min then Fin 0 else ((val - min) / (max - min))%num.

Definition parseEmployeeCount (range : option string) : num :=
  match range with
  | None => Fin 0
  | Some r =>
      if Str.isEmpty r then Fin 0
      else if Str.includes "+" r then (Parse.parseInt r + Fin 10)%num
      else if Str.includes "-" r then
        match List.map (fun s => Parse.parseInt
                                   (Str.replaceAll Str.comma EmptyString s))
                       (Str.split "-"%char r) with
        | min :: max :: _ => ((min + max) / Fin 2)%num
        | _ => NaN
        end
      else Num.orElse (Parse.parseInt r) (Fin 0)
  end.

(** The first pass of [processData] over one record. *)
Definition normalizeRecord (c : RawCompanyData) : Normalized :=
  {| raw := c;
     _fundAmt :=
       Parse.parseFloat (Js.orElse (c !! "Total Funding Amount (in USD)") "0");
     _articles := Parse.parseInt (Js.orElse (c !! "Number of Articles") "0");
     _rank :=
       Parse.parseInt
         (Str.replaceAll Str.comma EmptyString
            (Js.orElse (c !! "CB Rank (Company)") "100000"));
     _rounds :=
       Parse.parseInt (Js.orElse (c !! "Number of Funding Rounds") "1") |}.

Definition batchBounds (processedTemp : list Normalized) : Bounds :=
  let fundingAmounts := List.map _fundAmt processedTemp in
  let articleCounts := List.map _articles processedTemp in
  let ranks := List.map _rank processedTemp in
  let rounds := List.map _rounds processedTemp in
  {| maxFund := Num.maxOf (fundingAmounts ++ [Fin 1])%list;
     minFund := Num.minOf (fundingAmounts ++ [Fin 0])%list;
     maxArticles := Num.maxOf (articleCounts ++ [Fin 1])%list;
     maxRounds := Num.maxOf (rounds ++ [Fin 1])%list;
     minRank := Num.minOf (ranks ++ [Fin 1])%list;
     maxRank := Num.maxOf (ranks ++ [Fin 100000])%list |}.

(** [/p\b/.test(s)]: [p], which ends in a word character, occurs in [s]
    and is followed by the end of [s] or by a character that is not a word
    character. *)
Fixpoint afterPrefix (p s : string) : option string :=
  match p, s with
  | EmptyString, _ => Some s
  | String a p', String b s' =>
      if Ascii.eqb a b then afterPrefix p' s' else None
  | String _ _, EmptyString => None
  end.

Definition endsWordAt (p s : string) : bool :=
  match afterPrefix p s with
  | Some EmptyString => true
  | Some (String c _) => negb (Str.isWordChar c)
  | None => false
  end.

Fixpoint includesWord (p s : string) : bool :=
  endsWordAt p s
  || match s with
     | EmptyString => false
     | String _ r => includesWord p r
     end.

(** [/k1|k2|.../.test(text)] for literal alternatives. *)
Definition anyOf (keywords : list string) (text : string) : bool :=
  existsb (fun k => Str.includes k text) keywords.

Definition classify (text : string) : Themes :=
  {| ai :=
       includesWord "ai" text
       || anyOf ["artificial intelligence"; "machine learning";
                 "deep learning"; "llm"; "nlp"; "genai"; "neural network";
                 "gpt"; "computer vision"] text;
     climate :=
       anyOf ["climate"; "carbon"; "emission"; "renewable"; "solar";
              "battery"; "sustainable"; "energy"; "clean tech"; "green";
              "environment"; "wind"; "hydro"] text;
     fintech :=
       anyOf ["fintech"; "payment"; "lending"; "banking"; "crypto";
              "wallet"; "neobank"; "insurance"; "wealth"; "trading";
              "blockchain"; "defi"] text;
     healthcare :=
       anyOf ["biotech"; "health"; "pharma"; "medical"; "therapeutics";
              "biology"; "patient"; "doctor"; "care"; "clinic"; "drug";
              "genomic"; "life science"] text;
     saas :=
       anyOf ["enterprise"; "saas"; "b2b"; "software"; "cloud";
              "automation"; "workflow"; "productivity"; "crm"; "erp";
              "platform"; "infrastructure"; "api"] text;
     consumer :=
       anyOf ["b2c"; "consumer"; "retail"; "e-commerce"; "social"; "app";
              "marketplace"; "brand"; "fashion"; "food"; "d2c";
              "subscription"; "media"] text |}.

Definition anyTheme (t : Themes) : bool :=
  ai t || climate t || fintech t || healthcare t || saas t || consumer t.

(** The three assignments to [stageScore], in the order of the source. *)
Definition stageScore (stage : string) : num :=
  let stageScore := Fin 0.3 in
  let stageScore :=
    if Str.includes "series a" stage then Fin 0.7 else stageScore in
  let stageScore :=
    if Str.includes "series b" stage || Str.includes "series c" stage
    then Fin 0.9 else stageScore in
  let stageScore :=
    if Str.includes "ipo" stage || Str.includes "acquired" stage
    then Fin 0.5 else stageScore in
  stageScore.

Definition descriptionText (c : RawCompanyData) : string :=
  Str.toLowerCase
    (Js.orElse (c !! "Description") EmptyString ++ " "
     ++ Js.orElse (c !! "Full Description") EmptyString).

Definition keywordBonus (t : Themes) : num :=
  if anyTheme t then Fin 0.2 else Fin 0.

Definition fundingScore (b : Bounds) (c : Normalized) : num :=
  let normAmt := normalize (_fundAmt c) (minFund b) (maxFund b) in
  let normRounds := normalize (_rounds c) (Fin 0) (maxRounds b) in
  ((normAmt * Fin 0.7 + normRounds * Fin 0.3) * Fin 100)%num.

Definition opsScore (c : Normalized) : num :=
  let employeeMedian := parseEmployeeCount (raw c !! "Number of Employees") in
  let normEmp := (Num.min2 employeeMedian (Fin 500) / Fin 500)%num in
  let isActive :=
    if String.eqb (Js.orElse (raw c !! "Operating Status") "Active") "Active"
    then Fin 1 else Fin 0 in
  ((normEmp * Fin 0.6 + isActive * Fin 0.4) * Fin 100)%num.

Definition brandTrendScore (b : Bounds) (c : Normalized) (t : Themes) : num :=
  let normRank := (Fin 1 - normalize (_rank c) (minRank b) (maxRank b))%num in
  let normArticles := normalize (_articles c) (Fin 0) (maxArticles b) in
  (Num.min2 (normRank * Fin 0.5 + normArticles * Fin 0.3 + keywordBonus t)
            (Fin 1) * Fin 100)%num.

Definition potentialScore (b : Bounds) (c : Normalized) (t : Themes) : num :=
  let stage :=
    Str.toLowerCase (Js.orElse (raw c !! "Last Funding Type") EmptyString) in
  ((stageScore stage * Fin 0.4
    + fundingScore b c / Fin 100 * Fin 0.3
    + brandTrendScore b c t / Fin 100 * Fin 0.3) * Fin 100)%num.

(** The second pass of [processData] over one record. *)
Definition scoreCompany (b : Bounds) (c : Normalized) (idx : nat)
  : ScoredCompany :=
  let t := classify (descriptionText (raw c)) in
  let fundingScore := fundingScore b c in
  let opsScore := opsScore c in
  let brandTrendScore := brandTrendScore b c t in
  let potentialScore := potentialScore b c t in
  {| source := c;
     id := "comp-" ++ Parse.natToString idx;
     scores :=
       {| funding := fundingScore;
          operations := opsScore;
          brandTrend := brandTrendScore;
          potential := potentialScore;
          comprehensive :=
            ((fundingScore + opsScore + brandTrendScore + potentialScore)
             / Fin 4)%num |};
     themes := t |}.

(** [scored], before the final sort. *)
Definition scoreAll (rawData : list RawCompanyData) : list ScoredCompany :=
  let processedTemp := List.map normalizeRecord rawData in
  Js.mapi (scoreCompany (batchBounds processedTemp)) processedTemp.

(* ================================================================== *)
(** ** Aggregators and exporter *)
(* ================================================================== *)

Definition zeroCounts : ThemeCounts :=
  {| nAI := 0; nClimate := 0; nFintech := 0; nHealthcare := 0; nSaaS := 0;
     nConsumer := 0 |}.

Definition bumpIf (b : bool) (n : nat) : nat := if b then S n else n.

(** The six conditional increments of a tally. *)
Definition bumpCounts (t : Themes) (n : ThemeCounts) : ThemeCounts :=
  {| nAI := bumpIf (ai t) (nAI n);
     nClimate := bumpIf (climate t) (nClimate n);
     nFintech := bumpIf (fintech t) (nFintech n);
     nHealthcare := bumpIf (healthcare t) (nHealthcare n);
     nSaaS := bumpIf (saas t) (nSaaS n);
     nConsumer := bumpIf (consumer t) (nConsumer n) |}.

Definition field (c : ScoredCompany) (key : string) : option string :=
  raw (source c) !! key.

Definition extractInvestors (row : RawCompanyData) : list string :=
  let rawList :=
    Str.join ","
      (omap (fun v => if Js.truthy v then v else None)
         [row !! "Top 5 Investors"; row !! "Lead Investors";
          row !! "Investors"]) in
  Js.unique []
    (List.filter
       (fun s => (2 <? String.length s)%nat
                 && negb (Str.includes "undisclosed" (Str.toLowerCase s)))
       (List.map (fun s => Str.stripQuotes (Str.trim s))
                 (Str.split Str.comma rawList))).

Definition activeThemes (t : Themes) : list string :=
  ((if ai t then ["AI"] else [])
   ++ (if climate t then ["Climate"] else [])
   ++ (if fintech t then ["Fintech"] else [])
   ++ (if healthcare t then ["Healthcare"] else [])
   ++ (if saas t then ["SaaS"] else [])
   ++ (if consumer t then ["Consumer"] else []))%list.

(** The body of [invs.forEach] for company [c]. *)
Definition investorStep (c : ScoredCompany)
    (investorMap : list (string * InvestorEntry)) (invName : string)
  : list (string * InvestorEntry) :=
  let investorMap :=
    match Js.mapGet invName investorMap with
    | Some _ => investorMap
    | None =>
        Js.mapSet invName
          {| entry_count := 0; themeCounts := zeroCounts;
             entry_portfolio := [] |} investorMap
    end in
  match Js.mapGet invName investorMap with
  | Some entry =>
      Js.mapSet invName
        {| entry_count := S (entry_count entry);
           themeCounts := bumpCounts (themes c) (themeCounts entry);
           entry_portfolio :=
             Js.mapSet (field c "Organization Name")
                       (activeThemes (themes c)) (entry_portfolio entry) |}
        investorMap
  | None => investorMap
  end.

Definition investorPass (scored : list ScoredCompany)
  : list (string * InvestorEntry) :=
  fold_left
    (fun investorMap c =>
       fold_left (investorStep c) (extractInvestors (raw (source c)))
                 investorMap)
    scored [].

(** [Object.entries(data.themeCounts)], in the order the keys were
    written. *)
Definition themeEntries (n : ThemeCounts) : list (string * nat) :=
  [("AI", nAI n); ("Climate", nClimate n); ("Fintech", nFintech n);
   ("Healthcare", nHealthcare n); ("SaaS", nSaaS n);
   ("Consumer", nConsumer n)].

Definition sortedThemes (n : ThemeCounts) : list string :=
  List.map fst
    (take 3
       (List.filter (fun t => (0 <? snd t)%nat)
          (Js.sort (fun a b => (Num.ofNat (snd b) - Num.ofNat (snd a))%num)
                   (themeEntries n)))).

Definition investorStat (e : string * InvestorEntry) : InvestorStat :=
  {| name := fst e;
     count := entry_count (snd e);
     topThemes := sortedThemes (themeCounts (snd e));
     portfolio :=
       List.map (fun p => {| item_name := fst p; item_themes := snd p |})
                (entry_portfolio (snd e)) |}.

Definition investorsOf (scored : list ScoredCompany) : list InvestorStat :=
  take 50
    (Js.sort (fun a b => (Num.ofNat (count b) - Num.ofNat (count a))%num)
             (List.map investorStat (investorPass scored))).

Section Platform.

(** [new Date(s).getFullYear()] in the local time zone; [None] when
    the date is invalid (the method returns NaN). *)
Variable fullYearOf : string -> option Z.

(** [new Date().getFullYear()], taken as constant during one run. *)
Variable currentYear : Z.

(** The exponent notation written for a magnitude of at least 10^21,
    which depends on the binary64 value. *)
Variable exponentForm : Q -> string.

(** [x.toFixed(f)]. *)
Definition toFixed (f : nat) (x : num) : string :=
  match x with
  | NaN => "NaN"
  | PInf => "Infinity"
  | NInf => "-Infinity"
  | Fin q =>
      let negative := negb (Qle_bool 0 q) in
      let x := if negative then (- q)%Q else q in
      (if negative then "-" else EmptyString)
      ++ (if Qle_bool (inject_Z (10 ^ 21)) x then exponentForm x
          else Parse.fixedDigits f (Parse.nearest f x))
  end.

Definition foundedYear (c : ScoredCompany) : Z :=
  match field c "Founded Date" with
  | Some s =>
      if Str.isEmpty s then 0
      else match fullYearOf s with
           | Some y => y
           | None => 0
           end
  | None => 0
  end.

(** The body of the first [scored.forEach]. *)
Definition trendStep (trendsMap : list (Z * TrendEntry)) (c : ScoredCompany)
  : list (Z * TrendEntry) :=
  let year := foundedYear c in
  if (1990 <? year) && (year <=? currentYear) then
    let trendsMap :=
      match Js.mapGet year trendsMap with
      | Some _ => trendsMap
      | None =>
          Js.mapSet year {| trend_themes := zeroCounts; trend_count := 0 |}
                    trendsMap
      end in
    match Js.mapGet year trendsMap with
    | Some entry =>
        Js.mapSet year
          {| trend_themes := bumpCounts (themes c) (trend_themes entry);
             trend_count := S (trend_count entry) |} trendsMap
    | None => trendsMap
    end
  else trendsMap.

(** [parseFloat(((n / count) * 100).toFixed(1))]: the quotient and the
    product are binary64 numbers, and [toFixed] renders the value of the
    product. *)
Definition percentage (n count : nat) : num :=
  Parse.parseFloat
    (toFixed 1
       (Double.mul (Double.div (Num.ofNat n) (Num.ofNat count)) (Fin 100))).

Definition themeTrend (e : Z * TrendEntry) : ThemeTrend :=
  let data := snd e in
  let n := trend_themes data in
  {| year := fst e;
     AI := percentage (nAI n) (trend_count data);
     Climate := percentage (nClimate n) (trend_count data);
     Fintech := percentage (nFintech n) (trend_count data);
     Healthcare := percentage (nHealthcare n) (trend_count data);
     SaaS := percentage (nSaaS n) (trend_count data);
     Consumer := percentage (nConsumer n) (trend_count data) |}.

Definition trendsOf (scored : list ScoredCompany) : list ThemeTrend :=
  Js.sort (fun a b => (Num.ofZ (year a) - Num.ofZ (year b))%num)
          (List.map themeTrend (fold_left trendStep scored [])).

Definition processData (rawData : list RawCompanyData) : Processed :=
  let scored := scoreAll rawData in
  {| companies :=
       Js.sort (fun a b => (comprehensive (scores b)
                            - comprehensive (scores a))%num) scored;
     trends := trendsOf scored;
     investors := investorsOf scored |}.

Definition headers : list string :=
  ["Rank"; "Organization Name"; "Comprehensive Score"; "Potential Score";
   "Funding Score"; "Operations Score"; "Brand Score";
   "Headquarters Location"; "Industries"; "Description"; "Website"].

(** The global replacement of each quote character by two. *)
Definition doubleQuotes (s : string) : string :=
  Str.replaceAll Str.dquote (String Str.dquote (Str.str1 Str.dquote)) s.

(** The template literal that puts a quote on each side. *)
Definition wrap (s : string) : string :=
  String Str.dquote (s ++ Str.str1 Str.dquote).

(** One row of the export; [None] when the organization name is
    [undefined], where calling [replace] on it throws. *)
Definition exportRow (c : ScoredCompany) (idx : nat) : option (list string) :=
  match field c "Organization Name" with
  | None => None
  | Some organizationName =>
      Some
        [Parse.natToString (idx + 1);
         wrap (doubleQuotes organizationName);
         toFixed 2 (comprehensive (scores c));
         toFixed 2 (potential (scores c));
         toFixed 2 (funding (scores c));
         toFixed 2 (operations (scores c));
         toFixed 2 (brandTrend (scores c));
         wrap (doubleQuotes
                 (Js.orElse (field c "Headquarters Location") EmptyString));
         wrap (doubleQuotes (Js.orElse (field c "Industries") EmptyString));
         wrap (substring 0 1000
                 (doubleQuotes
                    (Js.orElse (field c "Full Description")
                       (Js.orElse (field c "Description") EmptyString))));
         Js.orElse (field c "Organization Name URL") EmptyString]
  end.

(** The text handed to the download ([csvContent]). *)
Definition exportCompaniesToCSV (companies : list ScoredCompany)
  : option string :=
  match mapM (fun row => row) (Js.mapi exportRow companies) with
  | None => None
  | Some rows =>
      Some (Str.join (Str.str1 Str.newline)
              (Str.join "," headers :: List.map (Str.join ",") rows))
  end.

End Platform.

(* ================================================================== *)
(** ** Definitions used to state the properties *)
(* ================================================================== *)

(** The stage lookup as the specification words it: the rules are tried in
    the stated order and the first one that matches wins. *)
Definition stageScore_firstMatch (stage : string) : num :=
  if Str.includes "series a" stage then Fin 0.7
  else if Str.includes "series b" stage || Str.includes "series c" stage
       then Fin 0.9
  else if Str.includes "ipo" stage || Str.includes "acquired" stage
       then Fin 0.5
  else Fin 0.3.

(** The same rules with the last one that matches winning. *)
Definition stageScore_lastMatch (stage : string) : num :=
  if Str.includes "ipo" stage || Str.includes "acquired" stage then Fin 0.5
  else if Str.includes "series b" stage || Str.includes "series c" stage
       then Fin 0.9
  else if Str.includes "series a" stage then Fin 0.7
  else Fin 0.3.

(** The funding-stage label of a record, case-folded. *)
Definition stageLabel (c : RawCompanyData) : string :=
  Str.toLowerCase (Js.orElse (c !! "Last Funding Type") EmptyString).

(** The cells of the header line and of a data line, and the records
    a text should give: one per data line with as many cells as the
    header, in the order of the lines. *)
Definition headerCells (text : string) : list string :=
  Csv.parseHeaders (hd EmptyString (Csv.nonBlankLines text)).

Definition dataLines (text : string) : list string :=
  tl (Csv.nonBlankLines text).

Definition keptRows (text : string) : list (list string) :=
  List.filter
    (fun row => (List.length row =? List.length (headerCells text))%nat)
    (List.map Csv.parseRow (dataLines text)).

(** The fixed priority order of the categories, and the place of a theme
    name in it. *)
Definition priorityOrder : list string :=
  ["AI"; "Climate"; "Fintech"; "Healthcare"; "SaaS"; "Consumer"].

Fixpoint indexOf (x : string) (xs : list string) : nat :=
  match xs with
  | [] => O
  | y :: r => if String.eqb x y then O else S (indexOf x r)
  end.

Definition priority (theme : string) : nat := indexOf theme priorityOrder.

(** The tally of a theme name in a record of tallies. *)
Definition tally (n : ThemeCounts) (theme : string) : nat :=
  nth (priority theme)
      [nAI n; nClimate n; nFintech n; nHealthcare n; nSaaS n; nConsumer n] O.

(** [a] is listed before [b]: a larger tally, or the same tally and an
    earlier place in the priority order. *)
Definition ranksBefore (n : ThemeCounts) (a b : string) : Prop :=
  (tally n b < tally n a)%nat
  \/ (tally n a = tally n b /\ (priority a < priority b)%nat).

(** A platform to run the examples on: dates that start with a year of
    four digits, the year 2026, and one fixed exponent notation. *)
Definition sample_fullYearOf (s : string) : option Z :=
  match Parse.parseInt (substring 0 4 s) with
  | Fin q => Some (Qfloor q)
  | _ => None
  end.

Definition sample_currentYear : Z := 2026.

Definition sample_exponentForm (q : Q) : string := "1e+21".

Definition sample_processData (rawData : list RawCompanyData) : Processed :=
  processData sample_fullYearOf sample_currentYear sample_exponentForm rawData.

(** A batch of two records, the first company and the first investor
    of its result, and the first trend entry. *)
Definition sample_first : RawCompanyData :=
  {[ "Organization Name" := "Acme Robotics";
     "Description" := "AI platform for enterprise automation";
     "Founded Date" := "2015-03-01";
     "Number of Employees" := "11-50";
     "Total Funding Amount (in USD)" := "1000000";
     "Number of Funding Rounds" := "2";
     "CB Rank (Company)" := "1,234";
     "Number of Articles" := "12";
     "Last Funding Type" := "Series A";
     "Investors" := "Foo Capital, Bar Ventures";
     "Headquarters Location" := "Berlin, Germany";
     "Industries" := "Robotics, Software";
     "Organization Name URL" := "https://acme.example" ]}.

Definition sample_second : RawCompanyData :=
  {[ "Organization Name" := "Solar Nine";
     "Description" := "Rooftop solar for retail";
     "Founded Date" := "2015-11-20";
     "Number of Employees" := "1000+";
     "Total Funding Amount (in USD)" := "0";
     "Number of Funding Rounds" := "2";
     "Operating Status" := "Closed";
     "Last Funding Type" := "IPO";
     "Investors" := "Foo Capital" ]}.

Definition sample_batch : list RawCompanyData :=
  [sample_first; sample_second].

Definition sample_company : ScoredCompany :=
  scoreCompany (batchBounds (List.map normalizeRecord sample_batch))
               (normalizeRecord sample_first) 0.

Definition sample_investor : InvestorStat :=
  investorStat
    ("Foo Capital",
     {| entry_count := 2;
        themeCounts :=
          {| nAI := 1; nClimate := 1; nFintech := 0; nHealthcare := 0;
             nSaaS := 1; nConsumer := 1 |};
        entry_portfolio :=
          [(Some "Acme Robotics", ["AI"; "SaaS"]);
           (Some "Solar Nine", ["Climate"; "Consumer"])] |}).

Definition sample_trend : ThemeTrend :=
  themeTrend sample_exponentForm
    (2015,
     {| trend_themes :=
          {| nAI := 1; nClimate := 1; nFintech := 0; nHealthcare := 0;
             nSaaS := 1; nConsumer := 1 |};
        trend_count := 2 |}).

(** The mean of four numbers. *)
Definition mean4 (a b c d : num) : num := ((a + b + c + d) / Fin 4)%num.

(** A finite number, and a finite number that is not negative. *)
Definition nonNegative (x : num) : bool :=
  match x with
  | Fin q => Qle_bool 0 q
  | _ => false
  end.

Definition allFinite (xs : list num) : Prop :=
  forall x, In x xs -> Num.isFinite x = true.

(** The magnitude up to which the exact arithmetic stands for binary64
    where sums and differences are concerned: [2^1022], a quarter of the
    overflow threshold [2^1024], so that the sum and the difference of
    two such numbers are finite in binary64 as they are here. *)
Definition maxMagnitude : Q := inject_Z (2 ^ 1022).

(** A finite number of at most that magnitude. *)
Definition withinMagnitude (x : num) : bool :=
  match x with
  | Fin q => Qle_bool (Qabs q) maxMagnitude
  | _ => false
  end.

(** A normalized record whose numbers allow the scores to stay within
    bounds: the amount, the rank, the article count and the number of
    rounds are finite numbers of bounded magnitude; the article count,
    the number of rounds and the employee median are not negative. *)
Definition wellFormed (c : Normalized) : bool :=
  withinMagnitude (_fundAmt c) && withinMagnitude (_rank c)
  && withinMagnitude (_articles c) && withinMagnitude (_rounds c)
  && nonNegative (_articles c) && nonNegative (_rounds c)
  && nonNegative (parseEmployeeCount (raw c !! "Number of Employees")).

(** The brand score as the specification words it: the rank is normalized
    from the smallest rank of the batch, and the keyword bonus has the
    weight 0.2. *)
Definition brandTrendScore_asStated (batch : list Normalized) (c : Normalized)
    (t : Themes) : num :=
  let batchMinRank := Num.minOf (List.map _rank batch) in
  let batchMaxRank := maxRank (batchBounds batch) in
  let batchMaxArticles := maxArticles (batchBounds batch) in
  (Fin 100
   * Num.min2 (Fin 1)
       (Fin 0.5 * (Fin 1 - normalize (_rank c) batchMinRank batchMaxRank)
        + Fin 0.3 * normalize (_articles c) (Fin 0) batchMaxArticles
        + Fin 0.2 * keywordBonus t))%num.

(** The same formula with the bonus added as it is and the rank
    normalized from the smaller of 1 and the smallest rank of the batch. *)
Definition brandTrendScore_amended (batch : list Normalized) (c : Normalized)
    (t : Themes) : num :=
  let batchMinRank := Num.min2 (Num.minOf (List.map _rank batch)) (Fin 1) in
  let batchMaxRank :=
    Num.max2 (Num.maxOf (List.map _rank batch)) (Fin 100000) in
  let batchMaxArticles :=
    Num.max2 (Num.maxOf (List.map _articles batch)) (Fin 1) in
  (Fin 100
   * Num.min2 (Fin 1)
       (Fin 0.5 * (Fin 1 - normalize (_rank c) batchMinRank batchMaxRank)
        + Fin 0.3 * normalize (_articles c) (Fin 0) batchMaxArticles
        + (if anyTheme t then Fin 0.2 else Fin 0)))%num.

(** A text between quotes with every quote inside it written twice, as
    the specification words the quoting of a field. *)
Fixpoint doubled (s : string) : string :=
  match s with
  | EmptyString => EmptyString
  | String c r =>
      if Ascii.eqb c Str.dquote
      then String Str.dquote (String Str.dquote (doubled r))
      else String c (doubled r)
  end.

Definition quoted (s : string) : string :=
  String Str.dquote (doubled s ++ Str.str1 Str.dquote).

(** Reading a quoted field back: after the opening quote, a pair of
    quotes stands for one quote and a single quote must close the field
    at its very end. *)
Fixpoint unquoteBody (s : string) : option string :=
  match s with
  | EmptyString => None
  | String c r =>
      if Ascii.eqb c Str.dquote then
        match r with
        | EmptyString => Some EmptyString
        | String c' r' =>
            if Ascii.eqb c' Str.dquote
            then option_map (String Str.dquote) (unquoteBody r')
            else None
        end
      else option_map (String c) (unquoteBody r)
  end.

Definition unquote (s : string) : option string :=
  match s with
  | String c r => if Ascii.eqb c Str.dquote then unquoteBody r else None
  | EmptyString => None
  end.

(** The description the exporter writes. *)
Definition exportedDescription (c : ScoredCompany) : string :=
  Js.orElse (field c "Full Description")
            (Js.orElse (field c "Description") EmptyString).

Definition isSeparator (c : ascii) : bool :=
  Ascii.eqb c Str.comma || Ascii.eqb c Str.dquote || Ascii.eqb c Str.newline.

(** No comma, no quote and no line feed. *)
Definition plain (s : string) : bool :=
  Str.all (fun c => negb (isSeparator c)) s.

(** No line feed. *)
Definition oneLine (s : string) : bool :=
  Str.all (fun c => negb (Ascii.eqb c Str.newline)) s.

(** A company whose export row reads back as one record: it has a name,
    its text fields hold no line feed, its description with the quotes
    doubled is not cut, and its website holds no comma, quote or line
    feed. *)
Definition exportable (c : ScoredCompany) : bool :=
  match field c "Organization Name" with
  | Some organizationName => oneLine organizationName
  | None => false
  end
  && oneLine (Js.orElse (field c "Headquarters Location") EmptyString)
  && oneLine (Js.orElse (field c "Industries") EmptyString)
  && oneLine (exportedDescription c)
  && (String.length (doubled (exportedDescription c)) <=? 1000)%nat
  && plain (Js.orElse (field c "Organization Name URL") EmptyString).

(** A cell that the scan of a line crosses without pushing a cell and
    without leaving a quote open. *)
Definition sealed (s : string) : Prop :=
  forall row cur, exists cur',
    Csv.scan s (row, false, cur) = (row, false, cur').

(** A row of eleven such cells, none with a line feed, the first one
    starting with a character that is not white space. *)
Definition goodRow (row : list string) : Prop :=
  List.length row = 11%nat
  /\ List.Forall sealed row
  /\ List.Forall (fun s => oneLine s = true) row
  /\ exists c r, hd EmptyString row = String c r /\ Str.isWhite c = false.

(** The years the trend pass keeps. *)
Definition inRange (currentYear y : Z) : bool :=
  (1990 <? y) && (y <=? currentYear).

(** The company has a founding date that reads as a date of the year
    [y]. *)
Definition foundedInYear (fullYearOf : string -> option Z) (y : Z)
    (c : ScoredCompany) : bool :=
  match field c "Founded Date" with
  | Some s =>
      negb (Str.isEmpty s)
      && match fullYearOf s with
         | Some y' => y' =? y
         | None => false
         end
  | None => false
  end.

(** The companies of one founding year, and how many of them carry a
    theme. *)
Definition bucket (fullYearOf : string -> option Z) (y : Z)
    (scored : list ScoredCompany) : list ScoredCompany :=
  List.filter (foundedInYear fullYearOf y) scored.

Definition countTheme (flag : Themes -> bool) (cs : list ScoredCompany) : nat :=
  List.length (List.filter (fun c => flag (themes c)) cs).

(** 100 x (companies of the bucket with the theme / companies of the
    bucket). *)
Definition share (flag : Themes -> bool) (cs : list ScoredCompany) : Q :=
  (100 * (inject_Z (Z.of_nat (countTheme flag cs))
          / inject_Z (Z.of_nat (List.length cs))))%Q.

(** Rounding to one decimal, a tie going up. *)
Definition roundTo1 (x : Q) : Q :=
  (inject_Z (Qfloor (x * 10 + (1 # 2))) / 10)%Q.

(** The six percentages of a trend entry as the specification words
    them: the shares of the bucket, rounded to one decimal. *)
Definition trendMatches_asStated (t : ThemeTrend) (cs : list ScoredCompany)
  : Prop :=
  (AI t == Fin (roundTo1 (share ai cs)))%num
  /\ (Climate t == Fin (roundTo1 (share climate cs)))%num
  /\ (Fintech t == Fin (roundTo1 (share fintech cs)))%num
  /\ (Healthcare t == Fin (roundTo1 (share healthcare cs)))%num
  /\ (SaaS t == Fin (roundTo1 (share saas cs)))%num
  /\ (Consumer t == Fin (roundTo1 (share consumer cs)))%num.

(** The share as the program computes it: the binary64 quotient of the
    two counts, times 100 in binary64. *)
Definition share64 (flag : Themes -> bool) (cs : list ScoredCompany) : Q :=
  match Double.mul
          (Double.div (Num.ofNat (countTheme flag cs))
                      (Num.ofNat (List.length cs)))
          (Fin 100) with
  | Fin q => q
  | _ => 0
  end.

(** A percentage of a trend entry is the binary64 share rounded to one
    decimal, and the binary64 share is within [2^-45] of the share. *)
Definition rendersShare (value : num) (flag : Themes -> bool)
    (cs : list ScoredCompany) : Prop :=
  (value == Fin (roundTo1 (share64 flag cs)))%num
  /\ (Qabs (share64 flag cs - share flag cs) <= 1 # 2 ^ 45)%Q.

Definition trendMatches_amended (t : ThemeTrend) (cs : list ScoredCompany)
  : Prop :=
  rendersShare (AI t) ai cs
  /\ rendersShare (Climate t) climate cs
  /\ rendersShare (Fintech t) fintech cs
  /\ rendersShare (Healthcare t) healthcare cs
  /\ rendersShare (SaaS t) saas cs
  /\ rendersShare (Consumer t) consumer cs.

(** A batch of 80 companies founded in 2015, of which 23 are classed as
    AI, and the trend entry of that year. *)
Definition sample_tie_ai : RawCompanyData :=
  {[ "Organization Name" := "Tie"; "Description" := "AI tools";
     "Founded Date" := "2015-06-01" ]}.

Definition sample_tie_other : RawCompanyData :=
  {[ "Organization Name" := "Brick"; "Description" := "Bricks";
     "Founded Date" := "2015-06-01" ]}.

Definition sample_tie_batch : list RawCompanyData :=
  (repeat sample_tie_ai 23 ++ repeat sample_tie_other 57)%list.

Definition sample_tie_trend : ThemeTrend :=
  themeTrend sample_exponentForm
    (2015,
     {| trend_themes :=
          {| nAI := 23; nClimate := 0; nFintech := 0; nHealthcare := 0;
             nSaaS := 0; nConsumer := 0 |};
        trend_count := 80 |}).

(** The company adds to the entry of the year [y] in the trend pass. *)
Definition countedIn (fullYearOf : string -> option Z) (currentYear y : Z)
    (c : ScoredCompany) : bool :=
  inRange currentYear (foundedYear fullYearOf c)
  && (foundedYear fullYearOf c =? y).

(** The entry of a year after the companies [cs], from what it was. *)
Definition bumpEntry (e : TrendEntry) (c : ScoredCompany) : TrendEntry :=
  {| trend_themes := bumpCounts (themes c) (trend_themes e);
     trend_count := S (trend_count e) |}.

Definition zeroEntry : TrendEntry :=
  {| trend_themes := zeroCounts; trend_count := 0 |}.

Definition entryAfter (fullYearOf : string -> option Z) (currentYear y : Z)
    (cs : list ScoredCompany) (o : option TrendEntry) : option TrendEntry :=
  fold_left
    (fun o c =>
       if countedIn fullYearOf currentYear y c
       then Some (bumpEntry (default zeroEntry o) c)
       else o)
    cs o.

(** The renderings of the tenths from 0.0 to 100.0 read back as the
    numbers they write. *)
Definition tenthsReadBack (upTo : nat) : bool :=
  forallb
    (fun n =>
       Num.eqb (Parse.parseFloat (Parse.fixedDigits 1 (Z.of_nat n)))
               (Fin (Z.of_nat n # 10)))
    (seq 0 upTo).

(** The comparator of the sort of the tallied themes, the order the
    entries are written in, the order the sort leaves them in, and the
    sorted entries without the zeros. *)
Definition tallyOrder (a b : string * nat) : num :=
  (Num.ofNat (snd b) - Num.ofNat (snd a))%num.

Definition earlier (a b : string * nat) : Prop :=
  (priority (fst a) < priority (fst b))%nat.

Definition above (a b : string * nat) : Prop :=
  (snd b < snd a)%nat
  \/ (snd a = snd b /\ (priority (fst a) < priority (fst b))%nat).

Definition ranked (n : ThemeCounts) : list (string * nat) :=
  List.filter (fun t => (0 <? snd t)%nat)
              (Js.sort tallyOrder (themeEntries n)).

(** Every entry of the investor map has counted at least as many records
    as its portfolio has names. *)
Definition portfolioWithinCount (m : list (string * InvestorEntry)) : Prop :=
  forall k e, In (k, e) m ->
    (List.length (entry_portfolio e) <= entry_count e)%nat.

(* ================================================================== *)
(** ** Definitions used to state further properties *)
(* ================================================================== *)

(** The text after the digits of a number does not continue it: it is
    empty or starts with a character that is not a digit. *)
Definition endsDigits (rest : string) : bool :=
  match rest with
  | EmptyString => true
  | String c _ => negb (Str.isDigit c)
  end.

(** The same, and the character is not the x of a hexadecimal prefix
    either. *)
Definition endsNumber (rest : string) : bool :=
  match rest with
  | EmptyString => true
  | String c _ =>
      negb (Str.isDigit c) && negb (Ascii.eqb c "x") && negb (Ascii.eqb c "X")
  end.


(** The four numbers read from a record are finite numbers of bounded
    magnitude. *)
Definition boundedFields (c : Normalized) : bool :=
  withinMagnitude (_fundAmt c) && withinMagnitude (_articles c)
  && withinMagnitude (_rank c) && withinMagnitude (_rounds c).

(** A finite number that is at most [hi]. *)
Definition atMost (hi : Q) (x : num) : Prop :=
  match x with
  | Fin q => (q <= hi)%Q
  | _ => False
  end.

(** The three columns investors are read from. *)
Definition investorKeys : list string :=
  ["Top 5 Investors"; "Lead Investors"; "Investors"].

(** A name the extraction keeps: longer than two characters and without
    the word undisclosed in any case. *)
Definition keptName (s : string) : bool :=
  (2 <? String.length s)%nat
  && negb (Str.includes "undisclosed" (Str.toLowerCase s)).

(** The company lists the investor among its investor names; the
    companies of a batch that do. *)
Definition backs (inv : string) (c : ScoredCompany) : bool :=
  bool_decide (inv ∈ extractInvestors (raw (source c))).

Definition backed (inv : string) (scored : list ScoredCompany)
  : list ScoredCompany :=
  List.filter (backs inv) scored.

(** The entry of an investor after one more of its companies, and before
    the first one. *)
Definition bumpInvestor (e : InvestorEntry) (c : ScoredCompany)
  : InvestorEntry :=
  {| entry_count := S (entry_count e);
     themeCounts := bumpCounts (themes c) (themeCounts e);
     entry_portfolio :=
       Js.mapSet (field c "Organization Name") (activeThemes (themes c))
                 (entry_portfolio e) |}.

Definition zeroInvestor : InvestorEntry :=
  {| entry_count := 0; themeCounts := zeroCounts; entry_portfolio := [] |}.

(** The theme tallies of a list of companies. *)
Definition talliesOf (cs : list ScoredCompany) : ThemeCounts :=
  {| nAI := countTheme ai cs;
     nClimate := countTheme climate cs;
     nFintech := countTheme fintech cs;
     nHealthcare := countTheme healthcare cs;
     nSaaS := countTheme saas cs;
     nConsumer := countTheme consumer cs |}.

(** [x <= y] between two finite numbers. *)
Definition finiteLe (x y : num) : Prop :=
  match x, y with
  | Fin a, Fin b => (a <= b)%Q
  | _, _ => False
  end.

(** The identifier given to the record at position [i] of the batch. *)
Definition companyId (i : nat) : string := "comp-" ++ Parse.natToString i.

(** The character is neither a quote nor a line feed. *)
Definition cellChar (c : ascii) : bool :=
  negb (Ascii.eqb c Str.dquote) && negb (Ascii.eqb c Str.newline).

(** The text without its quotes. *)
Definition withoutQuotes (s : string) : string :=
  Str.replaceAll Str.dquote EmptyString s.

(** The scan of a line crosses the cell [s] collecting the text [v]: it
    pushes no cell, leaves no quote open and appends [v] to the cell
    being collected. *)
Definition reads (s v : string) : Prop :=
  forall row cur,
    Csv.scan s (row, false, cur) = (row, false, cur ++ v).

(** A cell as the parser returns it: trimmed, and without a quote or a
    line feed. *)
Definition cleanCell (v : string) : Prop :=
  Str.trim v = v /\ Str.all cellChar v = true.

(** The first text put in front of the first of a list of texts. *)
Definition prefixFirst (cur : string) (vals : list string) : list string :=
  match vals with
  | [] => []
  | v :: vs => (cur ++ v) :: vs
  end.

(** The cells the parser reads back from the export row of the company
    at position [idx]. *)
Definition readBack (exponentForm : Q -> string) (c : ScoredCompany)
    (idx : nat) : list string :=
  List.map Csv.cell
    [Parse.natToString (idx + 1);
     withoutQuotes (Js.orElse (field c "Organization Name") EmptyString);
     toFixed exponentForm 2 (comprehensive (scores c));
     toFixed exponentForm 2 (potential (scores c));
     toFixed exponentForm 2 (funding (scores c));
     toFixed exponentForm 2 (operations (scores c));
     toFixed exponentForm 2 (brandTrend (scores c));
     withoutQuotes (Js.orElse (field c "Headquarters Location") EmptyString);
     withoutQuotes (Js.orElse (field c "Industries") EmptyString);
     withoutQuotes (exportedDescription c);
     Js.orElse (field c "Organization Name URL") EmptyString].

(** The six theme flags. *)
Definition themeFlags : list (Themes -> bool) :=
  [ai; climate; fintech; healthcare; saas; consumer].

(** The two columns the classifier reads. *)
Definition descriptionKeys : list string := ["Description"; "Full Description"].

(** The operating status counts as active: absent, empty, or exactly the
    word Active. *)
Definition countsActive (c : Normalized) : bool :=
  String.eqb (Js.orElse (raw c !! "Operating Status") "Active") "Active".

(** The acquisition and closure check of the scoring loop.  The value it
    computes is stored under [acquisitionStatus] in the scored company;
    it is a function of the record alone. *)
Record AcquisitionStatus : Type := {
  isAcquiredOrClosed : bool;
  label : string;
  color : string
}.

(** [n.toString()] for an integer. *)
Definition intToString (z : Z) : string :=
  if z <? 0 then "-" ++ Parse.zToString (- z) else Parse.zToString z.

(** [s.padStart(n, '0')]. *)
Definition padStart (n : nat) (s : string) : string :=
  Parse.zeros (n - String.length s) ++ s.

Section Dates.

(** [new Date(dateStr)], read through [getMonth()] and [getFullYear()];
    [None] when [getTime()] is NaN.  Which texts the platform reads as a
    date is left open. *)
Variable monthYearOf : string -> option (nat * Z).

Definition formatDate (dateStr : option string) : string :=
  match dateStr with
  | None => EmptyString
  | Some s =>
      if Str.isEmpty s then EmptyString
      else
        match monthYearOf s with
        | None => EmptyString
        | Some (m, y) =>
            let month := padStart 2 (Parse.natToString (m + 1)) in
            month ++ "/" ++ intToString y
        end
  end.

Definition acquisitionStatus (c : RawCompanyData) : option AcquisitionStatus :=
  let opStatus :=
    Str.toLowerCase (Js.orElse (c !! "Operating Status") EmptyString) in
  let acquiredBy := c !! "Acquired by" in
  let exitDate := c !! "Exit Date" in
  let closedDate := c !! "Closed Date" in
  if String.eqb opStatus "closed" then
    let datePart := formatDate closedDate in
    Some {| isAcquiredOrClosed := true;
            label := Str.trim ("Closed " ++ datePart);
            color := "bg-rose-100 text-rose-700 border-rose-200" |}
  else if String.eqb opStatus "acquired"
          || match acquiredBy with
             | Some s => (1 <? String.length s)%nat
             | None => false
             end
  then
    let datePart := formatDate exitDate in
    let byPart :=
      if Js.truthy acquiredBy
      then " by " ++ Js.orElse acquiredBy EmptyString
      else EmptyString in
    Some {| isAcquiredOrClosed := true;
            label := Str.trim ("Acquired" ++ byPart ++ " " ++ datePart);
            color := "bg-purple-100 text-purple-700 border-purple-200" |}
  else None.

End Dates.

(** A record counts as closed, whatever the letter case of its status. *)
Definition isClosed (c : RawCompanyData) : bool :=
  String.eqb
    (Str.toLowerCase (Js.orElse (c !! "Operating Status") EmptyString))
    "closed".

(** The closing date of the record as the platform reads it. *)
Definition closingDate (monthYearOf : string -> option (nat * Z))
    (c : RawCompanyData) : option (nat * Z) :=
  match c !! "Closed Date" with
  | Some s => if Str.isEmpty s then None else monthYearOf s
  | None => None
  end.

(** A date reader for the samples: the text is year-month-..., as in
    2015-03-01. *)
Definition sample_monthYearOf (s : string) : option (nat * Z) :=
  match Parse.parseInt (substring 0 4 s), Parse.parseInt (substring 5 2 s) with
  | Fin y, Fin m =>
      if (1 <=? Qfloor m) && (Qfloor m <=? 12)
      then Some (Z.to_nat (Qfloor m - 1), Qfloor y)
      else None
  | _, _ => None
  end.

(** The carriage return, and a line with or without one at its end. *)
Definition carriageReturn : ascii := "013"%char.

Definition sameLine (l l' : string) : Prop :=
  l' = l \/ l' = l ++ Str.str1 carriageReturn.

(** What loading files computes ([handleDataLoaded]): every file is
    parsed, the records are put one after the other, and the whole is
    processed as one batch. *)
Definition handleDataLoaded (fullYearOf : string -> option Z)
    (currentYear : Z) (exponentForm : Q -> string)
    (filesContent : list string) : Processed :=
  let allRawData := flat_map Csv.parseCSV filesContent in
  processData fullYearOf currentYear exponentForm allRawData.

(** [x <= y] on numbers. *)
Definition numLe (x y : num) : bool :=
  match x, y with
  | NaN, _ | _, NaN => false
  | _, _ => negb (Num.ltb y x)
  end.

(* ------------------------------------------------------------------ *)
(** The median score of the dashboard *)

Module Dashboard.

(** [medianScore] of the statistics, before it is formatted; [None]
    where the statistics are [null] (no company).  An index outside the
    sorted scores, which the source never reads, gives [None] too. *)
Definition medianScore (companies : list ScoredCompany) : option num :=
  match companies with
  | [] => None
  | _ =>
      let scores :=
        Js.sort (fun a b => (a - b)%num)
                (List.map (fun c => comprehensive (scores c)) companies) in
      let mid := (List.length scores / 2)%nat in
      if negb (List.length scores mod 2 =? 0)%nat
      then scores !! mid
      else
        match scores !! (mid - 1)%nat, scores !! mid with
        | Some a, Some b => Some ((a + b) / Fin 2)%num
        | _, _ => None
        end
  end.

(** The number of companies whose comprehensive score passes a test. *)
Definition countScores (test : num -> bool) (companies : list ScoredCompany)
  : nat :=
  List.length
    (List.filter (fun c => test (comprehensive (scores c))) companies).

End Dashboard.

(* ------------------------------------------------------------------ *)
(** The theme selection of the trend chart *)

Module TrendChart.

(** [Object.keys(THEME_CONFIG)]. *)
Definition themeKeys : list string :=
  ["AI"; "Climate"; "Fintech"; "Healthcare"; "SaaS"; "Consumer"].

(** The state update of [toggleTheme]. *)
Definition toggleTheme (theme : string) (prev : list string) : list string :=
  if bool_decide (theme ∈ prev) then
    if (List.length prev =? 1)%nat then prev
    else List.filter (fun t => negb (String.eqb t theme)) prev
  else (prev ++ [theme])%list.

(** What the user does to the selection: a click on the button of a
    theme, or on the reset link. *)
Inductive click : Type :=
  | Toggle (theme : string)
  | Reset.

Definition afterClick (selectedThemes : list string) (c : click)
  : list string :=
  match c with
  | Toggle theme => toggleTheme theme selectedThemes
  | Reset => themeKeys
  end.

(** The selection after a sequence of clicks on the initial state. *)
Definition selectedThemes (clicks : list click) : list string :=
  fold_left afterClick clicks themeKeys.

End TrendChart.

(* ------------------------------------------------------------------ *)
(** The pages of the company list *)

Module CompanyList.

(** [Math.ceil]. *)
Definition ceil (x : num) : num :=
  match x with
  | Fin q => Fin (inject_Z (Qceiling q))
  | _ => x
  end.

(** [xs.slice(start, end)] for integer bounds: a negative bound counts
    from the end, and both are clamped to the array. *)
Definition slice {A : Type} (xs : list A) (start stop : Z) : list A :=
  let len := Z.of_nat (List.length xs) in
  let k := if start <? 0 then Z.max (len + start) 0 else Z.min start len in
  let final := if stop <? 0 then Z.max (len + stop) 0 else Z.min stop len in
  take (Z.to_nat (final - k)) (drop (Z.to_nat k) xs).

(** The state of the pager: [currentPage] and [itemsPerPage], where -1
    rows stands for all. *)
Record Pager : Type := {
  currentPage : Z;
  itemsPerPage : Z
}.

Definition initialPager : Pager := {| currentPage := 1; itemsPerPage := 20 |}.

Definition totalPages (length : nat) (itemsPerPage : Z) : num :=
  if itemsPerPage =? -1 then Fin 1
  else ceil (Num.ofNat length / Num.ofZ itemsPerPage)%num.

Definition paginatedCompanies {A : Type} (filteredAndSortedCompanies : list A)
    (currentPage itemsPerPage : Z) : list A :=
  if itemsPerPage =? -1 then filteredAndSortedCompanies
  else
    let startIndex := (currentPage - 1) * itemsPerPage in
    slice filteredAndSortedCompanies startIndex (startIndex + itemsPerPage).

(** What the user does to the pager: ask for a page (by a button or by
    the page box), or choose the rows per page. *)
Inductive action : Type :=
  | PageChange (newPage : Z)
  | SetItemsPerPage (value : Z).

(** [handlePageChange] and [setItemsPerPage] on a list of [length]
    companies. *)
Definition handle (length : nat) (p : Pager) (a : action) : Pager :=
  match a with
  | PageChange newPage =>
      if (1 <=? newPage)
         && numLe (Num.ofZ newPage) (totalPages length (itemsPerPage p))
      then {| currentPage := newPage; itemsPerPage := itemsPerPage p |}
      else p
  | SetItemsPerPage value =>
      {| currentPage := currentPage p; itemsPerPage := value |}
  end.

(** The page shown by a pager. *)
Definition shown {A : Type} (companies : list A) (p : Pager) : list A :=
  paginatedCompanies companies (currentPage p) (itemsPerPage p).

End CompanyList.

(** A text of a header line and one data line, and the record read from
    it. *)
Definition sample_text : string :=
  "name,stage" ++ String Str.newline "Acme,Seed".

Definition sample_record : RawCompanyData :=
  {[ "name" := "Acme"; "stage" := "Seed" ]}.

(** Two fields, the first with a comma. *)
Definition sample_fields : list string := ["Berlin, Germany"; "Robotics"].

(** A record whose description ends in the letters ai, and its company
    in a batch of its own. *)
Definition sample_dubai : RawCompanyData :=
  {[ "Organization Name" := "Palm Stays";
     "Description" := "Hotels in Dubai" ]}.

Definition sample_dubai_company : ScoredCompany :=
  scoreCompany (batchBounds (List.map normalizeRecord [sample_dubai]))
               (normalizeRecord sample_dubai) 0.

(** A closed company that names an acquirer. *)
Definition sample_closed : RawCompanyData :=
  {[ "Organization Name" := "Initech";
     "Operating Status" := "Closed";
     "Closed Date" := "2020-03-15";
     "Acquired by" := "Globex" ]}.

(** A list of 45 entries. *)
Definition sample_entries : list nat := seq 0 45.


(** Two lines, and the same with a carriage return after the first. *)
Definition sample_lines : list string := ["name,stage"; "Acme,Seed"].

Definition sample_lines_cr : list string :=
  ["name,stage" ++ Str.str1 carriageReturn; "Acme,Seed"].

(* ================================================================== *)
(** ** Properties of the stage lookup *)
(* ================================================================== *)

(** C2, as stated, fails: on the label [Series A IPO], which contains both
    [series a] and [ipo], the first-match reading gives 0.7 and the code
    gives 0.5. *)
Lemma stageScore_first_match_fails :
  let stage := stageLabel {[ "Last Funding Type" := "Series A IPO" ]} in
  Str.includes "series a" stage = true
  /\ Str.includes "ipo" stage = true
  /\ stageScore_firstMatch stage = Fin 0.7
  /\ stageScore stage = Fin 0.5
  /\ ~ (stageScore stage == stageScore_firstMatch stage)%num.
Proof.
  vm_compute. repeat split; try reflexivity. intros H; discriminate H.
Qed.

(** C2, amended: the stage score is found by substring lookup on the
    case-folded label with the LAST matching rule winning: [ipo] or
    [acquired] gives 0.5, otherwise [series b] or [series c] gives 0.9,
    otherwise [series a] gives 0.7, otherwise (also when the label is
    absent) 0.3; and this is the stage score that enters the potential
    score. *)
Theorem stageScore_last_match_wins :
  (forall stage, stageScore stage = stageScore_lastMatch stage)
  /\ (forall c, stageScore (stageLabel (delete "Last Funding Type" c))
                = Fin 0.3)
  /\ (forall b c t,
        potentialScore b c t
        = ((stageScore_lastMatch (stageLabel (raw c)) * Fin 0.4
            + fundingScore b c / Fin 100 * Fin 0.3
            + brandTrendScore b c t / Fin 100 * Fin 0.3) * Fin 100)%num).
Proof.
  assert (Hlast : forall stage, stageScore stage = stageScore_lastMatch stage).
  { intros stage. unfold stageScore, stageScore_lastMatch.
    destruct (Str.includes "ipo" stage), (Str.includes "acquired" stage),
      (Str.includes "series b" stage), (Str.includes "series c" stage),
      (Str.includes "series a" stage); reflexivity. }
  split; [exact Hlast|]. split.
  - intros c. unfold stageLabel. rewrite lookup_delete_eq. reflexivity.
  - intros b c t. unfold potentialScore, stageLabel.
    rewrite Hlast. reflexivity.
Qed.

(* ================================================================== *)
(** ** Properties of the normalizer *)
(* ================================================================== *)

(** C3: the defaults replace an absent or empty field only.  A field that
    is present but is not a number is read as NaN, and the NaN reaches the
    batch bounds and, through them, the scores of every company of the
    batch, also those of a record whose own fields are fine. *)
Lemma unparseable_field_yields_NaN :
  let bad : RawCompanyData :=
    {[ "Total Funding Amount (in USD)" := "abc";
       "Number of Articles" := "abc";
       "CB Rank (Company)" := "abc";
       "Number of Funding Rounds" := "abc" ]} in
  let good : RawCompanyData :=
    {[ "Total Funding Amount (in USD)" := "1000";
       "Number of Articles" := "3";
       "CB Rank (Company)" := "7";
       "Number of Funding Rounds" := "2" ]} in
  (_fundAmt (normalizeRecord bad) = NaN
   /\ _articles (normalizeRecord bad) = NaN
   /\ _rank (normalizeRecord bad) = NaN
   /\ _rounds (normalizeRecord bad) = NaN)
  /\ List.map (fun c => comprehensive (scores c)) (scoreAll [bad; good])
     = [NaN; NaN]
  /\ List.map (fun c => funding (scores c)) (scoreAll [bad; good])
     = [NaN; NaN]
  /\ List.map (fun c => brandTrend (scores c)) (scoreAll [bad; good])
     = [NaN; NaN].
Proof. vm_compute. repeat split; reflexivity. Qed.

(** Absent and empty fields do get the documented defaults. *)
Lemma absent_field_defaults :
  let n := normalizeRecord {[ "Number of Articles" := EmptyString ]} in
  (_fundAmt n == Fin 0)%num /\ (_articles n == Fin 0)%num
  /\ (_rank n == Fin 100000)%num /\ (_rounds n == Fin 1)%num.
Proof. vm_compute. repeat split; reflexivity. Qed.

(* ================================================================== *)
(** ** Arrays and Maps: general facts *)
(* ================================================================== *)

Lemma In_take {A : Type} (n : nat) (l : list A) (x : A) :
  In x (take n l) -> In x l.
Proof.
  revert l; induction n as [|n IH]; intros [|y l]; simpl; try tauto.
  intros [H|H]; [left; exact H | right; apply IH, H].
Qed.

Section SortFacts.
Context {A : Type} (cmp : A -> A -> num).

Lemma insert_perm (x : A) (l : list A) :
  Permutation (Js.insert cmp x l) (x :: l).
Proof.
  induction l as [|y r IH]; simpl.
  - apply Permutation_refl.
  - destruct (Js.after cmp x y).
    + eapply perm_trans; [apply perm_skip, IH | apply perm_swap].
    + apply Permutation_refl.
Qed.

Lemma sort_perm (l : list A) : Permutation (Js.sort cmp l) l.
Proof.
  induction l as [|x r IH]; simpl.
  - apply perm_nil.
  - eapply perm_trans; [apply insert_perm | apply perm_skip, IH].
Qed.

Lemma In_sort (l : list A) (x : A) : In x (Js.sort cmp l) <-> In x l.
Proof.
  split; apply Permutation_in;
    [apply sort_perm | apply Permutation_sym, sort_perm].
Qed.

(** Sorting a list whose elements are pairwise related by [P] (read:
    was placed earlier) gives a list ordered by [R], when [R] agrees
    with the comparator and falls back on [P] where the comparator does
    not move anything. *)
Variables P R : A -> A -> Prop.
Hypothesis R_trans : forall x y z, R x y -> R y z -> R x z.
Hypothesis after_R : forall x y, Js.after cmp x y = true -> R y x.
Hypothesis keep_R : forall x y, Js.after cmp x y = false -> P x y -> R x y.

Lemma insert_sorted (x : A) (l : list A) :
  StronglySorted R l -> (forall y, In y l -> P x y) ->
  StronglySorted R (Js.insert cmp x l).
Proof.
  induction l as [|y r IH]; simpl; intros Hs HP.
  - constructor; constructor.
  - apply StronglySorted_inv in Hs as [Hr Hy].
    destruct (Js.after cmp x y) eqn:E.
    + constructor.
      * apply IH; [exact Hr | intros z Hz; apply HP; right; exact Hz].
      * rewrite List.Forall_forall. intros z Hz.
        apply (Permutation_in _ (insert_perm x r)) in Hz.
        destruct Hz as [<-|Hz]; [apply after_R, E|].
        rewrite List.Forall_forall in Hy. apply Hy, Hz.
    + assert (Hxy : R x y) by (apply keep_R; [exact E | apply HP; left; reflexivity]).
      constructor; [constructor; assumption|].
      constructor; [exact Hxy|].
      rewrite List.Forall_forall in Hy |- *. intros z Hz.
      eapply R_trans; [exact Hxy | apply Hy, Hz].
Qed.

Lemma sort_sorted (l : list A) :
  StronglySorted P l -> StronglySorted R (Js.sort cmp l).
Proof.
  induction l as [|x r IH]; simpl; intros Hs.
  - constructor.
  - apply StronglySorted_inv in Hs as [Hr Hx].
    apply insert_sorted; [apply IH, Hr|].
    intros y Hy. rewrite List.Forall_forall in Hx. apply Hx.
    apply In_sort, Hy.
Qed.
End SortFacts.

Lemma StronglySorted_filter {A : Type} (R : A -> A -> Prop) (f : A -> bool)
    (l : list A) :
  StronglySorted R l -> StronglySorted R (List.filter f l).
Proof.
  induction l as [|x r IH]; simpl; intros Hs; [constructor|].
  apply StronglySorted_inv in Hs as [Hr Hx].
  destruct (f x); [|apply IH, Hr].
  constructor; [apply IH, Hr|].
  rewrite List.Forall_forall in Hx |- *. intros y Hy.
  apply Hx. apply filter_In in Hy. tauto.
Qed.

Lemma StronglySorted_lookup {A : Type} (R : A -> A -> Prop) (l : list A) :
  StronglySorted R l ->
  forall i j a b, (i < j)%nat -> l !! i = Some a -> l !! j = Some b -> R a b.
Proof.
  induction 1 as [|x r Hr IH Hx]; intros i j a b Hij Ha Hb.
  - destruct i; discriminate Ha.
  - destruct j as [|j]; [lia|]. simpl in Hb.
    destruct i as [|i]; simpl in Ha.
    + injection Ha as <-. rewrite List.Forall_forall in Hx. apply Hx.
      apply list_elem_of_In. eapply list_elem_of_lookup_2, Hb.
    + eapply IH; [|exact Ha|exact Hb]. lia.
Qed.

Section MapFacts.
Context {K V : Type} `{EqDecision K}.
Implicit Types (m : list (K * V)) (k : K) (v : V).

Lemma mapGet_mapSet_eq m k v : Js.mapGet k (Js.mapSet k v m) = Some v.
Proof.
  induction m as [|[k' v'] r IH]; simpl.
  - destruct (decide (k = k)); congruence.
  - destruct (decide (k = k')) as [->|Hne]; simpl.
    + destruct (decide (k' = k')); congruence.
    + destruct (decide (k = k')); [contradiction | exact IH].
Qed.

Lemma mapGet_mapSet_ne m k k' v :
  k <> k' -> Js.mapGet k' (Js.mapSet k v m) = Js.mapGet k' m.
Proof.
  intros Hne. induction m as [|[k0 v0] r IH]; simpl.
  - destruct (decide (k' = k)); congruence.
  - destruct (decide (k = k0)) as [->|Hk]; simpl.
    + destruct (decide (k' = k0)); congruence.
    + destruct (decide (k' = k0)); [reflexivity | exact IH].
Qed.

Lemma In_mapSet m k v k' v' :
  In (k', v') (Js.mapSet k v m) -> (k' = k /\ v' = v) \/ In (k', v') m.
Proof.
  induction m as [|[k0 v0] r IH]; simpl.
  - intros [H|[]]. left. split; congruence.
  - destruct (decide (k = k0)) as [->|Hk]; simpl.
    + intros [H|H]; [left; split; congruence | right; right; exact H].
    + intros [H|H]; [right; left; exact H|].
      destruct (IH H) as [?|?]; [left | right; right]; assumption.
Qed.

Lemma keys_mapSet m k v k' :
  In k' (List.map fst (Js.mapSet k v m)) <-> k' = k \/ In k' (List.map fst m).
Proof.
  induction m as [|[k0 v0] r IH]; simpl.
  - intuition congruence.
  - destruct (decide (k = k0)) as [->|Hk]; simpl.
    + intuition congruence.
    + rewrite IH. intuition congruence.
Qed.

Lemma NoDup_mapSet m k v :
  List.NoDup (List.map fst m) -> List.NoDup (List.map fst (Js.mapSet k v m)).
Proof.
  induction m as [|[k0 v0] r IH]; simpl; intros Hnd.
  - constructor; [simpl; tauto | constructor].
  - apply NoDup_cons_iff in Hnd as [Hnotin Hnd].
    destruct (decide (k = k0)) as [->|Hk]; simpl.
    + constructor; assumption.
    + constructor; [|apply IH, Hnd].
      rewrite keys_mapSet. intros [->|H]; [congruence | contradiction].
Qed.

Lemma length_mapSet m k v :
  (List.length (Js.mapSet k v m) <= S (List.length m))%nat.
Proof.
  induction m as [|[k0 v0] r IH]; simpl; [lia|].
  destruct (decide (k = k0)); simpl; lia.
Qed.

Lemma mapGet_In m k v : Js.mapGet k m = Some v -> In (k, v) m.
Proof.
  induction m as [|[k0 v0] r IH]; simpl; [discriminate|].
  destruct (decide (k = k0)) as [->|Hk].
  - intros [= ->]. left. reflexivity.
  - intros H. right. apply IH, H.
Qed.

Lemma In_mapGet m k v :
  List.NoDup (List.map fst m) -> In (k, v) m -> Js.mapGet k m = Some v.
Proof.
  induction m as [|[k0 v0] r IH]; simpl; intros Hnd; [tauto|].
  apply NoDup_cons_iff in Hnd as [Hnotin Hnd].
  intros [[= -> ->]|Hin].
  - destruct (decide (k = k)); congruence.
  - destruct (decide (k = k0)) as [->|Hk]; [|apply IH; assumption].
    exfalso. apply Hnotin. apply in_map_iff. exists (k0, v). tauto.
Qed.

Lemma mapGet_None m k : Js.mapGet k m = None <-> ~ In k (List.map fst m).
Proof.
  induction m as [|[k0 v0] r IH]; simpl; [tauto|].
  destruct (decide (k = k0)) as [->|Hk].
  - split; [discriminate | intros H; exfalso; apply H; left; reflexivity].
  - rewrite IH. intuition congruence.
Qed.
End MapFacts.

Lemma StronglySorted_app_parts {A : Type} (R : A -> A -> Prop)
    (l1 l2 : list A) :
  StronglySorted R (l1 ++ l2)%list ->
  StronglySorted R l1 /\ (forall a b, In a l1 -> In b l2 -> R a b).
Proof.
  induction l1 as [|x r IH]; simpl; intros Hs.
  - split; [constructor | intros a b []].
  - apply StronglySorted_inv in Hs as [Hr Hx].
    destruct (IH Hr) as [Hs1 Hcross]. split.
    + constructor; [exact Hs1|].
      rewrite List.Forall_forall in Hx |- *. intros y Hy.
      apply Hx, in_or_app. left. exact Hy.
    + intros a b [<-|Ha] Hb; [|apply Hcross; assumption].
      rewrite List.Forall_forall in Hx. apply Hx, in_or_app. right. exact Hb.
Qed.

Lemma fold_left_invariant {A B : Type} (Inv : A -> Prop) (f : A -> B -> A)
    (l : list B) (init : A) :
  (forall acc x, Inv acc -> Inv (f acc x)) -> Inv init ->
  Inv (fold_left f l init).
Proof.
  intros Hstep. revert init.
  induction l as [|x r IH]; simpl; intros init Hinit; [exact Hinit|].
  apply IH, Hstep, Hinit.
Qed.

(** The comparators of the three sorts look at a difference of integers
    only. *)
Lemma after_difference (a b : Z) :
  Num.ltb (Fin 0) (Num.ofZ a - Num.ofZ b)%num = (b <? a).
Proof.
  unfold Num.ofZ, Num.sub, Num.neg, Num.add, Num.ltb.
  destruct (Z.ltb_spec b a) as [Hlt|Hge].
  - apply negb_true_iff. apply not_true_iff_false. rewrite Qle_bool_iff.
    unfold Qle. simpl. lia.
  - apply negb_false_iff. rewrite Qle_bool_iff. unfold Qle. simpl. lia.
Qed.

(* ================================================================== *)
(** ** Properties of the tabular parser *)
(* ================================================================== *)

Lemma parseLine_fold (hs : list string) (rest : list string)
    (data : list RawCompanyData) :
  fold_left (Csv.parseLine hs) rest data
  = (data ++ List.map (Csv.mkObject hs)
               (List.filter
                  (fun row => (List.length row =? List.length hs)%nat)
                  (List.map Csv.parseRow rest)))%list.
Proof.
  revert data. induction rest as [|line rest IH]; intros data; simpl.
  - symmetry. apply app_nil_r.
  - rewrite IH. unfold Csv.parseLine.
    destruct (List.length (Csv.parseRow line) =? List.length hs)%nat; simpl.
    + rewrite <- app_assoc. reflexivity.
    + reflexivity.
Qed.

(** C9: the parser is total, and its result holds exactly one record per
    data line whose cell count equals the header's, in the order of the
    lines; a data line with another cell count leaves no record. *)
Theorem parseCSV_discards_mismatched_rows (text : string) :
  Csv.parseCSV text
  = List.map (Csv.mkObject (headerCells text)) (keptRows text)
  /\ List.length (Csv.parseCSV text)
     = List.length
         (List.filter
            (fun line => (List.length (Csv.parseRow line)
                          =? List.length (headerCells text))%nat)
            (dataLines text)).
Proof.
  assert (Heq : Csv.parseCSV text
                = List.map (Csv.mkObject (headerCells text)) (keptRows text)).
  { unfold Csv.parseCSV, keptRows, dataLines, headerCells.
    destruct (Csv.nonBlankLines text) as [|first [|second rest]];
      [reflexivity | reflexivity |].
    rewrite parseLine_fold. reflexivity. }
  split; [exact Heq|].
  rewrite Heq, length_map. unfold keptRows.
  generalize (dataLines text). intros ls.
  induction ls as [|l ls IH]; simpl; [reflexivity|].
  destruct (List.length (Csv.parseRow l) =? List.length (headerCells text))%nat;
    simpl; rewrite IH; reflexivity.
Qed.

(** A line with too few or too many cells between two good ones. *)
Example parseCSV_drops_short_and_long_rows :
  List.length
    (Csv.parseCSV
       (Str.join (Str.str1 Str.newline)
          ["a,b,c"; "1,2,3"; "4,5"; "6,7,8,9"; "   "; "x,y,z"]))
  = 2%nat.
Proof. vm_compute. reflexivity. Qed.

(* ================================================================== *)
(** ** Properties of the investor aggregator *)
(* ================================================================== *)

Lemma StronglySorted_map_In {A B : Type} (R : A -> A -> Prop)
    (R' : B -> B -> Prop) (f : A -> B) (l : list A) :
  (forall a b, In a l -> In b l -> R a b -> R' (f a) (f b)) ->
  StronglySorted R l -> StronglySorted R' (List.map f l).
Proof.
  induction l as [|x r IH]; simpl; intros HR Hs; [constructor|].
  apply StronglySorted_inv in Hs as [Hr Hx]. constructor.
  - apply IH; [|exact Hr]. intros a b Ha Hb. apply HR; right; assumption.
  - rewrite List.Forall_forall in Hx |- *. intros y Hy.
    apply in_map_iff in Hy as [z [<- Hz]].
    apply HR; [left; reflexivity | right; exact Hz | apply Hx, Hz].
Qed.

Section TopThemes.
Variable n : ThemeCounts.

Lemma after_tally (x y : string * nat) :
  Js.after tallyOrder x y = (snd x <? snd y)%nat.
Proof.
  unfold Js.after, tallyOrder. change (Num.ofNat (snd y)) with (Num.ofZ (Z.of_nat (snd y))).
  change (Num.ofNat (snd x)) with (Num.ofZ (Z.of_nat (snd x))).
  rewrite after_difference.
  destruct (Nat.ltb_spec (snd x) (snd y)); [apply Z.ltb_lt | apply Z.ltb_ge]; lia.
Qed.

Lemma themeEntries_in_priority_order : StronglySorted earlier (themeEntries n).
Proof.
  unfold themeEntries, earlier.
  repeat (constructor; [|repeat (constructor; [vm_compute; lia|]); constructor]).
  constructor.
Qed.

Lemma ranked_sorted : StronglySorted above (ranked n).
Proof.
  apply StronglySorted_filter.
  apply (sort_sorted tallyOrder earlier above).
  - unfold above. intros x y z. lia.
  - intros x y. rewrite after_tally. intros H%Nat.ltb_lt. left. exact H.
  - intros x y. rewrite after_tally. intros H%Nat.ltb_ge He.
    unfold above, earlier in *. lia.
  - apply themeEntries_in_priority_order.
Qed.

Lemma themeEntry_tally (p : string * nat) :
  In p (themeEntries n) ->
  tally n (fst p) = snd p /\ In (fst p) priorityOrder.
Proof.
  simpl.
  intros [<-|[<-|[<-|[<-|[<-|[<-|[]]]]]]]; simpl; split; try reflexivity; tauto.
Qed.

Lemma tallied_theme_entry (t : string) :
  In t priorityOrder -> In (t, tally n t) (themeEntries n).
Proof.
  simpl.
  intros [<-|[<-|[<-|[<-|[<-|[<-|[]]]]]]]; vm_compute; tauto.
Qed.

Lemma In_ranked (p : string * nat) :
  In p (ranked n) <-> In p (themeEntries n) /\ (0 < snd p)%nat.
Proof.
  unfold ranked. rewrite filter_In, In_sort, Nat.ltb_lt. reflexivity.
Qed.

Lemma sortedThemes_ranked :
  sortedThemes n = List.map fst (take 3 (ranked n)).
Proof. reflexivity. Qed.

(** What [sortedThemes] returns: at most three names, each with a
    tally above zero, listed by tally and then by priority, and ahead of
    every tallied theme that was cut off. *)
Lemma sortedThemes_spec :
  (List.length (sortedThemes n) <= 3)%nat
  /\ (forall t, In t (sortedThemes n) ->
                In t priorityOrder /\ (0 < tally n t)%nat)
  /\ (forall i j a b, (i < j)%nat ->
        sortedThemes n !! i = Some a -> sortedThemes n !! j = Some b ->
        ranksBefore n a b)
  /\ (forall t, In t priorityOrder -> (0 < tally n t)%nat ->
        ~ In t (sortedThemes n) ->
        List.length (sortedThemes n) = 3%nat
        /\ forall a, In a (sortedThemes n) -> ranksBefore n a t).
Proof.
  pose proof ranked_sorted as Hs.
  rewrite <- (take_drop 3 (ranked n)) in Hs.
  apply StronglySorted_app_parts in Hs as [Hs Hcross].
  assert (Hin : forall p, In p (take 3 (ranked n)) ->
                In p (themeEntries n) /\ (0 < snd p)%nat).
  { intros p Hp. apply In_ranked. eapply In_take, Hp. }
  rewrite sortedThemes_ranked.
  split; [|split; [|split]].
  - rewrite length_map, length_take. lia.
  - intros t Ht. apply in_map_iff in Ht as [p [<- Hp]].
    destruct (Hin p Hp) as [Hp1 Hp2].
    destruct (themeEntry_tally p Hp1) as [-> Hprio]. tauto.
  - apply StronglySorted_lookup.
    apply (StronglySorted_map_In above); [|exact Hs].
    intros a b Ha Hb Hab. unfold ranksBefore.
    destruct (themeEntry_tally a (proj1 (Hin a Ha))) as [-> _].
    destruct (themeEntry_tally b (proj1 (Hin b Hb))) as [-> _].
    exact Hab.
  - intros t Hprio Hpos Hnot.
    assert (Hr : In (t, tally n t) (ranked n)).
    { apply In_ranked. split; [apply tallied_theme_entry, Hprio | exact Hpos]. }
    rewrite <- (take_drop 3 (ranked n)) in Hr.
    apply in_app_or in Hr as [Hr|Hr].
    { exfalso. apply Hnot. apply in_map_iff. exists (t, tally n t). tauto. }
    split.
    + rewrite length_map, length_take.
      destruct (le_lt_dec (List.length (ranked n)) 3) as [Hle|Hgt]; [|lia].
      rewrite drop_ge in Hr by exact Hle. destruct Hr.
    + intros a Ha. apply in_map_iff in Ha as [p [<- Hp]].
      specialize (Hcross p (t, tally n t) Hp Hr).
      unfold ranksBefore.
      destruct (themeEntry_tally p (proj1 (Hin p Hp))) as [-> _].
      exact Hcross.
Qed.
End TopThemes.

Lemma In_investorsOf (scored : list ScoredCompany) (st : InvestorStat) :
  In st (investorsOf scored) ->
  exists e, In (name st, e) (investorPass scored)
            /\ st = investorStat (name st, e).
Proof.
  unfold investorsOf. intros H%In_take%In_sort.
  apply in_map_iff in H as [[k e] [<- He]].
  exists e. split; [exact He | reflexivity].
Qed.

(** C7: the top themes of every investor of the result are at most three,
    each has a tally above zero among the tallies kept for that investor,
    and they are listed by tally, larger first, equal tallies in the order
    AI, Climate, Fintech, Healthcare, SaaS, Consumer; a tallied theme
    that is not listed ranks behind the three that are. *)
Theorem topThemes_ranked (fullYearOf : string -> option Z) (currentYear : Z)
    (exponentForm : Q -> string) (rawData : list RawCompanyData)
    (st : InvestorStat) :
  In st (investors (processData fullYearOf currentYear exponentForm rawData)) ->
  exists e,
    In (name st, e) (investorPass (scoreAll rawData))
    /\ (List.length (topThemes st) <= 3)%nat
    /\ (forall t, In t (topThemes st) ->
                  In t priorityOrder /\ (0 < tally (themeCounts e) t)%nat)
    /\ (forall i j a b, (i < j)%nat ->
          topThemes st !! i = Some a -> topThemes st !! j = Some b ->
          ranksBefore (themeCounts e) a b)
    /\ (forall t, In t priorityOrder -> (0 < tally (themeCounts e) t)%nat ->
          ~ In t (topThemes st) ->
          List.length (topThemes st) = 3%nat
          /\ forall a, In a (topThemes st) -> ranksBefore (themeCounts e) a t).
Proof.
  simpl. intros Hst.
  destruct (In_investorsOf _ _ Hst) as [e [He Heq]].
  exists e. split; [exact He|].
  rewrite Heq. simpl. apply sortedThemes_spec.
Qed.

Lemma investorStep_keeps_portfolioWithinCount (c : ScoredCompany)
    (m : list (string * InvestorEntry)) (invName : string) :
  portfolioWithinCount m -> portfolioWithinCount (investorStep c m invName).
Proof.
  intros Hm. unfold investorStep.
  set (m1 := match Js.mapGet invName m with
             | Some _ => m
             | None => Js.mapSet invName _ m
             end).
  assert (Hm1 : portfolioWithinCount m1).
  { subst m1. destruct (Js.mapGet invName m); [exact Hm|].
    intros k e [[-> ->]|Hin]%In_mapSet; [simpl; lia | eapply Hm, Hin]. }
  destruct (Js.mapGet invName m1) as [entry|] eqn:Hget; [|exact Hm1].
  intros k e [[-> ->]|Hin]%In_mapSet; [|eapply Hm1, Hin].
  simpl. apply mapGet_In in Hget. apply Hm1 in Hget.
  pose proof (length_mapSet (entry_portfolio entry)
                (field c "Organization Name") (activeThemes (themes c))).
  lia.
Qed.

Lemma investorPass_portfolioWithinCount (scored : list ScoredCompany) :
  portfolioWithinCount (investorPass scored).
Proof.
  unfold investorPass.
  apply (fold_left_invariant portfolioWithinCount).
  - intros m c Hm. apply (fold_left_invariant portfolioWithinCount).
    + intros acc x. apply investorStep_keeps_portfolioWithinCount.
    + exact Hm.
  - intros k e [].
Qed.

(** C10: for every investor of the result, the count is at least the
    length of the portfolio. *)
Theorem count_at_least_portfolio (fullYearOf : string -> option Z)
    (currentYear : Z) (exponentForm : Q -> string)
    (rawData : list RawCompanyData) (st : InvestorStat) :
  In st (investors (processData fullYearOf currentYear exponentForm rawData)) ->
  (List.length (portfolio st) <= count st)%nat.
Proof.
  simpl. intros Hst.
  destruct (In_investorsOf _ _ Hst) as [e [He ->]].
  simpl. rewrite length_map.
  exact (investorPass_portfolioWithinCount _ _ _ He).
Qed.

(** Two records with the same organization name and the same investor:
    the investor counts two and holds one portfolio entry. *)
Example shared_name_counts_twice :
  let record : RawCompanyData :=
    {[ "Organization Name" := "Acme"; "Investors" := "Foo Capital" ]} in
  List.map (fun st => (name st, count st, List.length (portfolio st)))
           (investorsOf (scoreAll [record; record]))
  = [("Foo Capital", 2%nat, 1%nat)].
Proof. vm_compute. reflexivity. Qed.

(* ================================================================== *)
(** ** Properties of the scoring engine *)
(* ================================================================== *)

Lemma In_mapi_from {A B : Type} (f : A -> nat -> B) (l : list A) (i : nat)
    (y : B) :
  In y (Js.mapi_from i f l) -> exists x j, In x l /\ y = f x j.
Proof.
  revert i. induction l as [|x r IH]; simpl; intros i; [tauto|].
  intros [<-|H].
  - exists x, i. tauto.
  - destruct (IH _ H) as [x' [j [Hx Hy]]]. exists x', j. tauto.
Qed.

(** Every company of the result was scored from a record of the batch,
    against the bounds of the whole batch. *)
Lemma In_companies (fullYearOf : string -> option Z) (currentYear : Z)
    (exponentForm : Q -> string) (rawData : list RawCompanyData)
    (c : ScoredCompany) :
  In c (companies (processData fullYearOf currentYear exponentForm rawData)) ->
  exists r idx,
    In r rawData
    /\ c = scoreCompany (batchBounds (List.map normalizeRecord rawData))
                        (normalizeRecord r) idx.
Proof.
  simpl. intros H%In_sort. unfold scoreAll, Js.mapi in H.
  apply In_mapi_from in H as [x [j [Hx ->]]].
  apply in_map_iff in Hx as [r [<- Hr]].
  exists r, j. tauto.
Qed.

Lemma max2_fin (a b : Q) :
  exists m, Num.max2 (Fin a) (Fin b) = Fin m
            /\ (a <= m)%Q /\ (b <= m)%Q /\ (m = a \/ m = b).
Proof.
  unfold Num.max2, Num.ltb.
  destruct (Qle_bool b a) eqn:E; simpl.
  - exists a. apply Qle_bool_iff in E. repeat split; [lra | exact E | tauto].
  - exists b. assert (~ (b <= a)%Q) by (rewrite <- Qle_bool_iff; congruence).
    repeat split; [lra | lra | tauto].
Qed.

Lemma min2_fin (a b : Q) :
  exists m, Num.min2 (Fin a) (Fin b) = Fin m
            /\ (m <= a)%Q /\ (m <= b)%Q /\ (m = a \/ m = b).
Proof.
  unfold Num.min2, Num.ltb.
  destruct (Qle_bool a b) eqn:E; simpl.
  - exists a. apply Qle_bool_iff in E. repeat split; [lra | exact E | tauto].
  - exists b. assert (~ (a <= b)%Q) by (rewrite <- Qle_bool_iff; congruence).
    repeat split; [lra | lra | tauto].
Qed.

Lemma fold_max2_fin (xs : list num) (a : Q) :
  allFinite xs ->
  exists m, fold_left Num.max2 xs (Fin a) = Fin m
            /\ (a <= m)%Q /\ (forall q, In (Fin q) xs -> (q <= m)%Q).
Proof.
  revert a. induction xs as [|x r IH]; cbn [fold_left]; intros a Hfin.
  - exists a. repeat split; [lra | intros q []].
  - assert (Hx : Num.isFinite x = true) by (apply Hfin; left; reflexivity).
    destruct x as [| | |b]; try discriminate Hx.
    destruct (max2_fin a b) as [m [-> [Ha [Hb _]]]].
    destruct (IH m) as [m' [-> [Hm Hr]]].
    { intros y Hy. apply Hfin. right. exact Hy. }
    exists m'. repeat split; [lra|].
    intros q [[= ->]|Hq]; [lra | apply Hr, Hq].
Qed.

Lemma fold_min2_fin (xs : list num) (a : Q) :
  allFinite xs ->
  exists m, fold_left Num.min2 xs (Fin a) = Fin m
            /\ (m <= a)%Q /\ (forall q, In (Fin q) xs -> (m <= q)%Q).
Proof.
  revert a. induction xs as [|x r IH]; cbn [fold_left]; intros a Hfin.
  - exists a. repeat split; [lra | intros q []].
  - assert (Hx : Num.isFinite x = true) by (apply Hfin; left; reflexivity).
    destruct x as [| | |b]; try discriminate Hx.
    destruct (min2_fin a b) as [m [-> [Ha [Hb _]]]].
    destruct (IH m) as [m' [-> [Hm Hr]]].
    { intros y Hy. apply Hfin. right. exact Hy. }
    exists m'. repeat split; [lra|].
    intros q [[= ->]|Hq]; [lra | apply Hr, Hq].
Qed.

(** [Math.max(...xs, k)] over finite numbers is finite, at least [k] and
    at least every element. *)
Lemma maxOf_floor (xs : list num) (k : Q) :
  allFinite xs ->
  exists m, Num.maxOf (xs ++ [Fin k])%list = Fin m
            /\ (k <= m)%Q /\ (forall q, In (Fin q) xs -> (q <= m)%Q).
Proof.
  intros Hfin. unfold Num.maxOf.
  destruct xs as [|x r]; simpl.
  - exists k. repeat split; [lra | tauto].
  - assert (Hx : Num.isFinite x = true) by (apply Hfin; left; reflexivity).
    destruct x as [| | |b]; try discriminate Hx. simpl.
    destruct (fold_max2_fin (r ++ [Fin k])%list b) as [m [-> [Hb Hr]]].
    { intros y [Hy|[<-|[]]]%in_app_or; [apply Hfin; right; exact Hy | reflexivity]. }
    exists m. repeat split.
    + apply Hr, in_or_app. right. left. reflexivity.
    + intros q [[= ->]|Hq]; [exact Hb | apply Hr, in_or_app; left; exact Hq].
Qed.

Lemma minOf_ceiling (xs : list num) (k : Q) :
  allFinite xs ->
  exists m, Num.minOf (xs ++ [Fin k])%list = Fin m
            /\ (m <= k)%Q /\ (forall q, In (Fin q) xs -> (m <= q)%Q).
Proof.
  intros Hfin. unfold Num.minOf.
  destruct xs as [|x r]; simpl.
  - exists k. repeat split; [lra | tauto].
  - assert (Hx : Num.isFinite x = true) by (apply Hfin; left; reflexivity).
    destruct x as [| | |b]; try discriminate Hx. simpl.
    destruct (fold_min2_fin (r ++ [Fin k])%list b) as [m [-> [Hb Hr]]].
    { intros y [Hy|[<-|[]]]%in_app_or; [apply Hfin; right; exact Hy | reflexivity]. }
    exists m. repeat split.
    + apply Hr, in_or_app. right. left. reflexivity.
    + intros q [[= ->]|Hq]; [exact Hb | apply Hr, in_or_app; left; exact Hq].
Qed.

(** [normalize] of a value between distinct bounds lies in the unit
    interval. *)
Lemma normalize_unit (v lo hi : Q) :
  (lo <= v)%Q -> (v <= hi)%Q -> (lo < hi)%Q ->
  exists q, normalize (Fin v) (Fin lo) (Fin hi) = Fin q
            /\ (0 <= q)%Q /\ (q <= 1)%Q.
Proof.
  intros Hlo Hhi Hlt. unfold normalize. simpl.
  destruct (Qeq_bool hi lo) eqn:E1.
  { apply Qeq_bool_iff in E1. lra. }
  destruct (Qeq_bool (hi + - lo) 0) eqn:E2.
  { apply Qeq_bool_iff in E2. lra. }
  eexists. split; [reflexivity|]. split.
  - apply Qle_shift_div_l; lra.
  - apply Qle_shift_div_r; lra.
Qed.

Lemma nonNegative_fin (x : num) :
  nonNegative x = true -> exists q, x = Fin q /\ (0 <= q)%Q.
Proof.
  destruct x as [| | |q]; try discriminate. simpl.
  intros H%Qle_bool_iff. exists q. tauto.
Qed.

Lemma isFinite_fin (x : num) : Num.isFinite x = true -> exists q, x = Fin q.
Proof. destruct x as [| | |q]; try discriminate. exists q. reflexivity. Qed.

Lemma div_fin (a b : Q) :
  ~ (b == 0)%Q -> (Fin a / Fin b)%num = Fin (a / b).
Proof.
  intros Hb. simpl. destruct (Qeq_bool b 0) eqn:E; [|reflexivity].
  apply Qeq_bool_iff in E. contradiction.
Qed.

Lemma stageScore_range (stage : string) :
  exists s, stageScore stage = Fin s /\ (0.3 <= s)%Q /\ (s <= 0.9)%Q.
Proof.
  unfold stageScore.
  destruct (Str.includes "ipo" stage || Str.includes "acquired" stage);
    [exists 0.5%Q; repeat split; lra|].
  destruct (Str.includes "series b" stage || Str.includes "series c" stage);
    [exists 0.9%Q; repeat split; lra|].
  destruct (Str.includes "series a" stage);
    [exists 0.7%Q | exists 0.3%Q]; repeat split; lra.
Qed.

Lemma keywordBonus_range (t : Themes) :
  exists k, keywordBonus t = Fin k /\ (0 <= k)%Q /\ (k <= 0.2)%Q.
Proof.
  unfold keywordBonus. destruct (anyTheme t);
    [exists 0.2%Q | exists 0%Q]; repeat split; lra.
Qed.

Section ScoreRanges.
Variables (b : Bounds) (c : Normalized).
Variables (amt rank articles rounds : Q).
Variables (loFund hiFund hiArticles hiRounds loRank hiRank : Q).
Hypothesis amt_eq : _fundAmt c = Fin amt.
Hypothesis rank_eq : _rank c = Fin rank.
Hypothesis articles_eq : _articles c = Fin articles.
Hypothesis rounds_eq : _rounds c = Fin rounds.
Hypothesis minFund_eq : minFund b = Fin loFund.
Hypothesis maxFund_eq : maxFund b = Fin hiFund.
Hypothesis maxArticles_eq : maxArticles b = Fin hiArticles.
Hypothesis maxRounds_eq : maxRounds b = Fin hiRounds.
Hypothesis minRank_eq : minRank b = Fin loRank.
Hypothesis maxRank_eq : maxRank b = Fin hiRank.
Hypothesis amt_within : (loFund <= amt)%Q /\ (amt <= hiFund)%Q.
Hypothesis fund_floor : (loFund <= 0)%Q /\ (1 <= hiFund)%Q.
Hypothesis rank_within : (loRank <= rank)%Q /\ (rank <= hiRank)%Q.
Hypothesis rank_floor : (loRank <= 1)%Q /\ (100000 <= hiRank)%Q.
Hypothesis articles_within : (0 <= articles)%Q /\ (articles <= hiArticles)%Q.
Hypothesis articles_floor : (1 <= hiArticles)%Q.
Hypothesis rounds_within : (0 <= rounds)%Q /\ (rounds <= hiRounds)%Q.
Hypothesis rounds_floor : (1 <= hiRounds)%Q.

Lemma fundingScore_range :
  exists f, fundingScore b c = Fin f /\ (0 <= f)%Q /\ (f <= 100)%Q.
Proof.
  unfold fundingScore.
  rewrite amt_eq, rounds_eq, minFund_eq, maxFund_eq, maxRounds_eq.
  destruct (normalize_unit amt loFund hiFund) as [q1 [-> [? ?]]]; try lra.
  destruct (normalize_unit rounds 0 hiRounds) as [q2 [-> [? ?]]]; try lra.
  simpl. eexists. split; [reflexivity|]. split; lra.
Qed.

Lemma brandTrendScore_range (t : Themes) :
  exists x, brandTrendScore b c t = Fin x /\ (0 <= x)%Q /\ (x <= 100)%Q.
Proof.
  unfold brandTrendScore.
  rewrite rank_eq, articles_eq, minRank_eq, maxRank_eq, maxArticles_eq.
  destruct (normalize_unit rank loRank hiRank) as [q1 [-> [? ?]]]; try lra.
  destruct (normalize_unit articles 0 hiArticles) as [q2 [-> [? ?]]]; try lra.
  destruct (keywordBonus_range t) as [k [-> [? ?]]].
  cbn [Num.sub Num.neg Num.add Num.mul].
  destruct (min2_fin ((1 + - q1) * 0.5 + q2 * 0.3 + k) 1)
    as [m [-> [? [? [Hm|Hm]]]]]; subst m;
    simpl; eexists; (split; [reflexivity|]); split; lra.
Qed.

Lemma potentialScore_range (t : Themes) :
  exists p, potentialScore b c t = Fin p /\ (0 <= p)%Q /\ (p <= 100)%Q.
Proof.
  unfold potentialScore.
  destruct fundingScore_range as [f [-> [? ?]]].
  destruct (brandTrendScore_range t) as [x [-> [? ?]]].
  destruct (stageScore_range
              (Str.toLowerCase
                 (Js.orElse (raw c !! "Last Funding Type") EmptyString)))
    as [s [-> [? ?]]].
  rewrite !div_fin by lra.
  cbn [Num.add Num.mul].
  assert (0 <= f / 100)%Q by (apply Qle_shift_div_l; lra).
  assert (f / 100 <= 1)%Q by (apply Qle_shift_div_r; lra).
  assert (0 <= x / 100)%Q by (apply Qle_shift_div_l; lra).
  assert (x / 100 <= 1)%Q by (apply Qle_shift_div_r; lra).
  eexists. split; [reflexivity|]. split; lra.
Qed.
End ScoreRanges.

Lemma opsScore_range (c : Normalized) :
  nonNegative (parseEmployeeCount (raw c !! "Number of Employees")) = true ->
  exists o, opsScore c = Fin o /\ (0 <= o)%Q /\ (o <= 100)%Q.
Proof.
  intros [e [He Hpos]]%nonNegative_fin. unfold opsScore. rewrite He.
  destruct (min2_fin e 500) as [m [-> [? [? Hm]]]].
  rewrite div_fin by lra.
  assert (0 <= m)%Q by (destruct Hm; subst m; lra).
  assert (0 <= m / 500)%Q by (apply Qle_shift_div_l; lra).
  assert (m / 500 <= 1)%Q by (apply Qle_shift_div_r; lra).
  destruct (String.eqb _ _); cbn [Num.add Num.mul];
    eexists; (split; [reflexivity|]); split; lra.
Qed.

Lemma num_eq_refl (x : num) : (x == x)%num.
Proof. destruct x; simpl; try exact I. reflexivity. Qed.

Lemma withinMagnitude_isFinite (x : num) :
  withinMagnitude x = true -> Num.isFinite x = true.
Proof. destruct x; simpl; congruence. Qed.

Lemma wellFormed_parts (c : Normalized) :
  wellFormed c = true ->
  Num.isFinite (_fundAmt c) = true /\ Num.isFinite (_rank c) = true
  /\ nonNegative (_articles c) = true /\ nonNegative (_rounds c) = true
  /\ nonNegative (parseEmployeeCount (raw c !! "Number of Employees")) = true.
Proof.
  unfold wellFormed. rewrite !andb_true_iff.
  intros [[[[[[H1 H2] _] _] H3] H4] H5].
  repeat split; try assumption; apply withinMagnitude_isFinite; assumption.
Qed.

Lemma allFinite_map (proj : Normalized -> num) (batch : list Normalized) :
  (forall x, In x batch -> Num.isFinite (proj x) = true) ->
  allFinite (List.map proj batch).
Proof.
  intros H y Hy. apply in_map_iff in Hy as [x [<- Hx]]. apply H, Hx.
Qed.

Lemma nonNegative_isFinite (x : num) :
  nonNegative x = true -> Num.isFinite x = true.
Proof. destruct x; simpl; congruence. Qed.

(** The scores of a record of a well-formed batch, scored against the
    bounds of that batch. *)
Lemma scoreCompany_in_range (batch : list Normalized) (c : Normalized)
    (idx : nat) :
  (forall x, In x batch -> wellFormed x = true) -> In c batch ->
  let s := scores (scoreCompany (batchBounds batch) c idx) in
  Num.between 0 100 (funding s) /\ Num.between 0 100 (operations s)
  /\ Num.between 0 100 (brandTrend s) /\ Num.between 0 100 (potential s)
  /\ Num.between 0 100 (comprehensive s).
Proof.
  intros Hwf Hc.
  assert (Hparts := fun x Hx => wellFormed_parts x (Hwf x Hx)).
  destruct (Hparts c Hc) as [Hamt [Hrank [Hart [Hrnd Hemp]]]].
  apply isFinite_fin in Hamt as [amt Hamt].
  apply isFinite_fin in Hrank as [rank Hrank].
  apply nonNegative_fin in Hart as [articles [Hart Hart0]].
  apply nonNegative_fin in Hrnd as [rounds [Hrnd Hrnd0]].
  destruct (maxOf_floor (List.map _fundAmt batch) 1) as [hiFund [EhiF [? HhiF]]].
  { apply allFinite_map. intros x Hx. apply (Hparts x Hx). }
  destruct (minOf_ceiling (List.map _fundAmt batch) 0) as [loFund [EloF [? HloF]]].
  { apply allFinite_map. intros x Hx. apply (Hparts x Hx). }
  destruct (maxOf_floor (List.map _articles batch) 1) as [hiArt [EhiA [? HhiA]]].
  { apply allFinite_map. intros x Hx. apply nonNegative_isFinite, (Hparts x Hx). }
  destruct (maxOf_floor (List.map _rounds batch) 1) as [hiRnd [EhiR [? HhiR]]].
  { apply allFinite_map. intros x Hx. apply nonNegative_isFinite, (Hparts x Hx). }
  destruct (minOf_ceiling (List.map _rank batch) 1) as [loRank [EloK [? HloK]]].
  { apply allFinite_map. intros x Hx. apply (Hparts x Hx). }
  destruct (maxOf_floor (List.map _rank batch) 100000) as [hiRank [EhiK [? HhiK]]].
  { apply allFinite_map. intros x Hx. apply (Hparts x Hx). }
  assert (Hin : forall (proj : Normalized -> num) q,
             proj c = Fin q -> In (Fin q) (List.map proj batch)).
  { intros proj q <-. apply in_map, Hc. }
  set (b := batchBounds batch).
  destruct (fundingScore_range b c amt rounds loFund hiFund hiRnd)
    as [f [Ef [? ?]]]; auto.
  destruct (opsScore_range c Hemp) as [o [Eo [? ?]]].
  destruct (brandTrendScore_range b c rank articles hiArt loRank hiRank)
    with (t := classify (descriptionText (raw c))) as [x [Ex [? ?]]]; auto.
  destruct (potentialScore_range b c amt rank articles rounds
              loFund hiFund hiArt hiRnd loRank hiRank)
    with (t := classify (descriptionText (raw c))) as [p [Ep [? ?]]]; auto.
  cbn [scoreCompany scores funding operations brandTrend potential
       comprehensive].
  rewrite Ef, Eo, Ex, Ep. cbn [Num.add]. rewrite div_fin by lra.
  cbn [Num.between].
  assert (0 <= (f + o + x + p) / 4)%Q by (apply Qle_shift_div_l; lra).
  assert ((f + o + x + p) / 4 <= 100)%Q by (apply Qle_shift_div_r; lra).
  tauto.
Qed.

(** C1, as stated, fails: a record whose round count reads as -3 gets
    the funding score -90. *)
Lemma negative_rounds_score_below_zero :
  let c : RawCompanyData := {[ "Number of Funding Rounds" := "-3" ]} in
  exists s,
    List.map scores (companies (sample_processData [c])) = [s]
    /\ (funding s == Fin (-90))%num
    /\ ~ Num.between 0 100 (funding s).
Proof.
  eexists. split; [vm_compute; reflexivity|]. split.
  - reflexivity.
  - intros [H _]. revert H. unfold Qle. simpl. lia.
Qed.

(** C1, amended: when every record of the batch is well formed (the
    amount, the rank, the article count and the number of rounds read as
    finite numbers of a magnitude of at most [2^1022], so that no
    difference of two of them overflows in binary64; the article count,
    the number of rounds and the employee median are not negative), the
    five scores of every company of the result lie in [0,100], and the
    comprehensive score is the mean of the other four. *)
Theorem scores_within_bounds (fullYearOf : string -> option Z)
    (currentYear : Z) (exponentForm : Q -> string)
    (rawData : list RawCompanyData) (c : ScoredCompany) :
  (forall r, In r rawData -> wellFormed (normalizeRecord r) = true) ->
  In c (companies (processData fullYearOf currentYear exponentForm rawData)) ->
  Num.between 0 100 (funding (scores c))
  /\ Num.between 0 100 (operations (scores c))
  /\ Num.between 0 100 (brandTrend (scores c))
  /\ Num.between 0 100 (potential (scores c))
  /\ Num.between 0 100 (comprehensive (scores c))
  /\ (comprehensive (scores c)
      == mean4 (funding (scores c)) (operations (scores c))
               (brandTrend (scores c)) (potential (scores c)))%num.
Proof.
  intros Hwf Hc.
  apply In_companies in Hc as [r [idx [Hr ->]]].
  pose proof (scoreCompany_in_range (List.map normalizeRecord rawData)
                (normalizeRecord r) idx) as H.
  cbv zeta in H.
  repeat split; try apply H; try (apply in_map, Hr); try apply num_eq_refl.
  all: intros x [r' [<- Hr']]%in_map_iff; apply Hwf, Hr'.
Qed.

(** The brand score in the order of operands of the source and in the
    order of the written formula. *)
Lemma brand_formula_orders (normRank normArticles : num) (k : Q) :
  (Num.min2 (normRank * Fin 0.5 + normArticles * Fin 0.3 + Fin k) (Fin 1)
   * Fin 100
   == Fin 100
      * Num.min2 (Fin 1)
          (Fin 0.5 * normRank + Fin 0.3 * normArticles + Fin k))%num.
Proof.
  destruct normRank as [| | |r], normArticles as [| | |a];
    try exact I; try (vm_compute; reflexivity).
  cbn [Num.mul Num.add].
  unfold Num.min2, Num.ltb.
  destruct (Qle_bool (r * 0.5 + a * 0.3 + k) 1) eqn:E1;
    destruct (Qle_bool 1 (0.5 * r + 0.3 * a + k)) eqn:E2;
    cbn [negb Num.mul Num.eq];
    try apply Qle_bool_iff in E1; try apply Qle_bool_iff in E2;
    try (assert (~ (r * 0.5 + a * 0.3 + k <= 1)%Q)
           by (rewrite <- Qle_bool_iff; congruence));
    try (assert (~ (1 <= 0.5 * r + 0.3 * a + k)%Q)
           by (rewrite <- Qle_bool_iff; congruence));
    lra.
Qed.

Lemma minOf_with_floor (xs : list num) (k : num) :
  Num.minOf (xs ++ [k])%list = Num.min2 (Num.minOf xs) k.
Proof. unfold Num.minOf. rewrite fold_left_app. reflexivity. Qed.

Lemma maxOf_with_floor (xs : list num) (k : num) :
  Num.maxOf (xs ++ [k])%list = Num.max2 (Num.maxOf xs) k.
Proof. unfold Num.maxOf. rewrite fold_left_app. reflexivity. Qed.

Lemma brandTrendScore_is_amended (batch : list Normalized) (c : Normalized)
    (t : Themes) :
  (brandTrendScore (batchBounds batch) c t
   == brandTrendScore_amended batch c t)%num.
Proof.
  unfold brandTrendScore, brandTrendScore_amended, batchBounds, keywordBonus.
  cbn [minRank maxRank maxArticles].
  rewrite minOf_with_floor, !maxOf_with_floor.
  destruct (anyTheme t); apply brand_formula_orders.
Qed.

(** C4, as stated, fails twice.  With the rank 1 and a theme, the bonus
    counts 0.2 in the code (score 70) and 0.2 x 0.2 in the formula (score
    54).  With the rank 5 alone in the batch and no theme, the code
    normalizes from 1 (score below 50) and the formula from 5 (score
    50). *)
Lemma brand_formula_as_stated_fails :
  let themed : RawCompanyData :=
    {[ "CB Rank (Company)" := "1"; "Description" := "payment app" ]} in
  let plain : RawCompanyData := {[ "CB Rank (Company)" := "5" ]} in
  (exists c,
     companies (sample_processData [themed]) = [c]
     /\ (brandTrend (scores c) == Fin 70)%num
     /\ (brandTrendScore_asStated [normalizeRecord themed] (source c) (themes c)
         == Fin 54)%num)
  /\ (exists c,
        companies (sample_processData [plain]) = [c]
        /\ (brandTrend (scores c) == Fin (4999750 # 99999))%num
        /\ (brandTrendScore_asStated [normalizeRecord plain] (source c)
              (themes c) == Fin 50)%num).
Proof.
  split; eexists; (split; [vm_compute; reflexivity|]); split;
    vm_compute; reflexivity.
Qed.

(** C4, amended: for every company of the result, the brand score is
    100 x min(1, 0.5 x (1 - normalize(rank, lo, hi))
                 + 0.3 x normalize(articles, 0, top) + bonus)
    where [lo] is the smaller of 1 and the smallest rank of the batch, [hi]
    the larger of 100000 and the largest rank, [top] the larger of 1 and
    the largest article count, and the bonus is 0.2 when one of the six
    theme flags is set and 0 otherwise. *)
Theorem brandTrend_formula (fullYearOf : string -> option Z)
    (currentYear : Z) (exponentForm : Q -> string)
    (rawData : list RawCompanyData) (c : ScoredCompany) :
  In c (companies (processData fullYearOf currentYear exponentForm rawData)) ->
  (brandTrend (scores c)
   == brandTrendScore_amended (List.map normalizeRecord rawData) (source c)
        (themes c))%num.
Proof.
  intros Hc. apply In_companies in Hc as [r [idx [Hr ->]]].
  cbn [scoreCompany scores brandTrend source themes].
  apply brandTrendScore_is_amended.
Qed.

(* ================================================================== *)
(** ** Properties of the exporter *)
(* ================================================================== *)

Lemma doubleQuotes_doubled (s : string) : doubleQuotes s = doubled s.
Proof.
  unfold doubleQuotes. induction s as [|c r IH]; simpl; [reflexivity|].
  rewrite IH. destruct (Ascii.eqb c Str.dquote); reflexivity.
Qed.

Lemma wrap_doubleQuotes (s : string) : wrap (doubleQuotes s) = quoted s.
Proof. unfold wrap, quoted. rewrite doubleQuotes_doubled. reflexivity. Qed.

(** A quoted field reads back as the text that was quoted. *)
Lemma unquote_quoted (s : string) : unquote (quoted s) = Some s.
Proof.
  unfold unquote, quoted. simpl.
  induction s as [|c r IH]; simpl; [reflexivity|].
  destruct (Ascii.eqb c Str.dquote) eqn:E; simpl.
  - rewrite IH. apply Ascii.eqb_eq in E. subst c. reflexivity.
  - rewrite E, IH. reflexivity.
Qed.

Lemma substring_whole (n : nat) (s : string) :
  (String.length s <= n)%nat -> substring 0 n s = s.
Proof.
  revert n. induction s as [|c r IH]; intros [|n]; simpl; try reflexivity; try lia.
  intros H. rewrite IH by lia. reflexivity.
Qed.

(** C5: the exporter writes the website as it is, where the claim has it
    between quotes with the quotes inside doubled like the four other
    text cells of the row.  On a record whose website holds a comma and a
    quote, the name, the location, the industries and the description
    are written between quotes, and the website is not: its comma and
    its quote reach the line unprotected. *)
Lemma website_not_quoted :
  let url := "https://acme.example/a,b?q=" ++ Str.str1 Str.dquote in
  let record : RawCompanyData :=
    {[ "Organization Name" := "Acme";
       "Headquarters Location" := "Berlin, Germany";
       "Industries" := "Robotics";
       "Description" := "Robots";
       "Organization Name URL" := url ]} in
  exists c row,
    companies (sample_processData [record]) = [c]
    /\ exportRow sample_exponentForm c 0 = Some row
    /\ row !! 1%nat = Some (quoted "Acme")
    /\ row !! 7%nat = Some (quoted "Berlin, Germany")
    /\ row !! 8%nat = Some (quoted "Robotics")
    /\ row !! 9%nat = Some (quoted "Robots")
    /\ row !! 10%nat = Some url
    /\ row !! 10%nat <> Some (quoted url).
Proof.
  eexists. eexists. split; [vm_compute; reflexivity|].
  split; [vm_compute; reflexivity|].
  repeat split; try reflexivity. discriminate.
Qed.

(** *** Characters of the cells *)

Lemma all_app (p : ascii -> bool) (a b : string) :
  Str.all p (a ++ b) = Str.all p a && Str.all p b.
Proof.
  induction a as [|c r IH]; simpl; [reflexivity|].
  rewrite IH. apply andb_assoc.
Qed.

Lemma all_impl (p q : ascii -> bool) (s : string) :
  (forall c, p c = true -> q c = true) ->
  Str.all p s = true -> Str.all q s = true.
Proof.
  intros Hpq. induction s as [|c r IH]; simpl; [reflexivity|].
  rewrite !andb_true_iff. intros [Hc Hr]. split; [apply Hpq, Hc | apply IH, Hr].
Qed.

Lemma all_substring (p : ascii -> bool) (s : string) (a n : nat) :
  Str.all p s = true -> Str.all p (substring a n s) = true.
Proof.
  revert a n. induction s as [|c r IH]; intros [|a] [|n]; simpl;
    try reflexivity; rewrite ?andb_true_iff; intros [Hc Hr];
    try (apply IH; exact Hr).
  split; [exact Hc | apply IH, Hr].
Qed.

Lemma all_zeros (n : nat) : Str.all Str.isDigit (Parse.zeros n) = true.
Proof. induction n as [|n IH]; simpl; [reflexivity | exact IH]. Qed.

Lemma all_digits_uint (d : Decimal.uint) :
  Str.all Str.isDigit (NilEmpty.string_of_uint d) = true.
Proof. induction d; simpl; try reflexivity; assumption. Qed.

Lemma all_digits_NilZero (d : Decimal.uint) :
  Str.all Str.isDigit (NilZero.string_of_uint d) = true.
Proof.
  destruct d; try reflexivity; apply (all_digits_uint (_ d)).
Qed.

Lemma NilZero_starts_with_digit (d : Decimal.uint) :
  exists c r, NilZero.string_of_uint d = String c r /\ Str.isDigit c = true.
Proof.
  destruct d; simpl; eexists; eexists; split; reflexivity.
Qed.

Lemma digit_not_separator (c : ascii) :
  Str.isDigit c = true -> negb (isSeparator c) = true.
Proof.
  destruct c as [[|] [|] [|] [|] [|] [|] [|] [|]]; vm_compute; congruence.
Qed.

Lemma digit_not_white (c : ascii) :
  Str.isDigit c = true -> Str.isWhite c = false.
Proof.
  destruct c as [[|] [|] [|] [|] [|] [|] [|] [|]]; vm_compute; congruence.
Qed.

Lemma plain_oneLine (s : string) : plain s = true -> oneLine s = true.
Proof.
  apply all_impl. intros c. unfold isSeparator.
  destruct (Ascii.eqb c Str.newline); [|reflexivity].
  rewrite !orb_true_r. discriminate.
Qed.

Lemma plain_digits (s : string) : Str.all Str.isDigit s = true -> plain s = true.
Proof. apply all_impl, digit_not_separator. Qed.

Lemma plain_fixedDigits (f : nat) (n : Z) :
  plain (Parse.fixedDigits f n) = true.
Proof.
  unfold Parse.fixedDigits.
  assert (Hm : plain (Parse.zToString n) = true)
    by apply plain_digits, all_digits_NilZero.
  destruct f as [|f]; [exact Hm|].
  set (m' := if (_ <=? _)%nat then _ else _).
  assert (Hm' : plain m' = true).
  { subst m'. destruct (_ <=? _)%nat; [|exact Hm].
    unfold plain. rewrite all_app. apply andb_true_iff. split; [|exact Hm].
    apply plain_digits, all_zeros. }
  unfold plain. rewrite !all_app, !andb_true_iff.
  repeat split; try reflexivity; apply all_substring, Hm'.
Qed.

Lemma plain_toFixed (exponentForm : Q -> string) (f : nat) (x : num) :
  (forall q, plain (exponentForm q) = true) ->
  plain (toFixed exponentForm f x) = true.
Proof.
  intros Hef. destruct x as [| | |q]; try reflexivity.
  unfold toFixed, plain. rewrite all_app. apply andb_true_iff. split.
  - destruct (negb (Qle_bool 0 q)); reflexivity.
  - destruct (Qle_bool _ _); [apply Hef | apply plain_fixedDigits].
Qed.

Lemma oneLine_quoted (s : string) : oneLine s = true -> oneLine (quoted s) = true.
Proof.
  intros Hs. unfold quoted, oneLine. simpl. rewrite all_app.
  apply andb_true_iff. split; [|reflexivity].
  induction s as [|c r IH]; simpl; [reflexivity|].
  simpl in Hs. apply andb_true_iff in Hs as [Hc Hr].
  destruct (Ascii.eqb c Str.dquote); simpl; rewrite ?Hc; apply IH, Hr.
Qed.

(** *** The scan of an exported line *)

Lemma scan_app (a b : string) (st : Csv.scanState) :
  Csv.scan (a ++ b) st = Csv.scan b (Csv.scan a st).
Proof.
  revert st. induction a as [|c r IH]; intros st; simpl; [reflexivity|].
  apply IH.
Qed.

Lemma plain_sealed (s : string) : plain s = true -> sealed s.
Proof.
  intros Hs row. induction s as [|c r IH]; intros cur; simpl.
  - exists cur. reflexivity.
  - simpl in Hs. apply andb_true_iff in Hs as [Hc Hr].
    unfold isSeparator in Hc. rewrite !negb_orb, !andb_true_iff in Hc.
    destruct Hc as [[Hcomma Hquote] _].
    apply negb_true_iff in Hcomma, Hquote.
    rewrite Hquote, Hcomma. simpl. apply IH, Hr.
Qed.

Lemma scan_quoted_body (s : string) (row : list string) (cur : string) :
  exists cur',
    Csv.scan (doubled s ++ Str.str1 Str.dquote) (row, true, cur)
    = (row, false, cur').
Proof.
  revert cur. induction s as [|c r IH]; intros cur; simpl.
  - exists cur. reflexivity.
  - destruct (Ascii.eqb c Str.dquote) eqn:E; simpl.
    + apply IH.
    + rewrite E, andb_false_r. apply IH.
Qed.

Lemma quoted_sealed (s : string) : sealed (quoted s).
Proof. intros row cur. apply scan_quoted_body. Qed.

Lemma scan_joined_cells (cells : list string) :
  List.Forall sealed cells -> cells <> [] ->
  forall row cur, exists row' cur',
    Csv.scan (Str.join "," cells) (row, false, cur) = (row', false, cur')
    /\ S (List.length row') = (List.length row + List.length cells)%nat.
Proof.
  induction cells as [|x [|y r] IH]; intros Hs Hne row cur.
  - contradiction.
  - apply List.Forall_inv in Hs. destruct (Hs row cur) as [cur' E].
    exists row, cur'. simpl. split; [exact E | lia].
  - pose proof (List.Forall_inv Hs) as Hx.
    apply List.Forall_inv_tail in Hs.
    destruct (Hx row cur) as [cur1 E1].
    destruct (IH Hs ltac:(discriminate)
                 (row ++ [Csv.cell cur1])%list EmptyString)
      as [row' [cur' [E2 Hlen]]].
    exists row', cur'. split.
    + change (Str.join "," (x :: y :: r))
        with (x ++ String Str.comma (Str.join "," (y :: r))).
      rewrite scan_app, E1. simpl Csv.scan at 1. exact E2.
    + rewrite length_app in Hlen. simpl in *. lia.
Qed.

Lemma parseRow_joined_cells (cells : list string) :
  List.Forall sealed cells -> cells <> [] ->
  List.length (Csv.parseRow (Str.join "," cells)) = List.length cells.
Proof.
  intros Hs Hne. unfold Csv.parseRow.
  destruct (scan_joined_cells cells Hs Hne [] EmptyString)
    as [row' [cur' [-> Hlen]]].
  rewrite length_app. simpl in *. lia.
Qed.

Lemma oneLine_joined_cells (cells : list string) :
  List.Forall (fun s => oneLine s = true) cells ->
  oneLine (Str.join "," cells) = true.
Proof.
  induction cells as [|x [|y r] IH]; intros Hs.
  - reflexivity.
  - apply (List.Forall_inv Hs).
  - change (Str.join "," (x :: y :: r))
      with (x ++ String Str.comma (Str.join "," (y :: r))).
    unfold oneLine. rewrite all_app. apply andb_true_iff. split.
    + apply (List.Forall_inv Hs).
    + simpl. apply IH, (List.Forall_inv_tail Hs).
Qed.

(** *** Lines of the exported text *)

Lemma split_nonempty (sep : ascii) (s : string) : Str.split sep s <> [].
Proof.
  destruct s as [|c r]; simpl; [discriminate|].
  destruct (Ascii.eqb c sep); [discriminate|].
  destruct (Str.split sep r); discriminate.
Qed.

Lemma split_no_separator (s : string) :
  oneLine s = true -> Str.split Str.newline s = [s].
Proof.
  induction s as [|c r IH]; simpl; [reflexivity|].
  intros H. unfold oneLine in H. simpl in H.
  apply andb_true_iff in H as [Hc Hr]. apply negb_true_iff in Hc.
  rewrite Hc, (IH Hr). reflexivity.
Qed.

Lemma split_first_line (s rest : string) :
  oneLine s = true ->
  Str.split Str.newline (s ++ String Str.newline rest)
  = s :: Str.split Str.newline rest.
Proof.
  induction s as [|c r IH]; simpl.
  - reflexivity.
  - intros H. unfold oneLine in H. simpl in H.
    apply andb_true_iff in H as [Hc Hr]. apply negb_true_iff in Hc.
    rewrite Hc, (IH Hr). reflexivity.
Qed.

Lemma split_join_lines (ls : list string) :
  ls <> [] -> List.Forall (fun s => oneLine s = true) ls ->
  Str.split Str.newline (Str.join (Str.str1 Str.newline) ls) = ls.
Proof.
  induction ls as [|x [|y r] IH]; intros Hne Hs.
  - contradiction.
  - apply split_no_separator, (List.Forall_inv Hs).
  - change (Str.join (Str.str1 Str.newline) (x :: y :: r))
      with (x ++ String Str.newline (Str.join (Str.str1 Str.newline) (y :: r))).
    rewrite split_first_line by apply (List.Forall_inv Hs).
    rewrite IH; [reflexivity | discriminate | apply (List.Forall_inv_tail Hs)].
Qed.

Lemma trim_not_blank (c : ascii) (r : string) :
  Str.isWhite c = false -> Str.isEmpty (Str.trim (String c r)) = false.
Proof.
  intros Hc. unfold Str.trim. simpl. rewrite Hc. simpl.
  destruct (Str.trimEnd r); [rewrite Hc|]; reflexivity.
Qed.

(** *** From the companies to the records read back *)

Lemma exportRow_good (exponentForm : Q -> string) (c : ScoredCompany)
    (idx : nat) :
  (forall q, plain (exponentForm q) = true) -> exportable c = true ->
  exists row, exportRow exponentForm c idx = Some row /\ goodRow row.
Proof.
  intros Hef Hc. unfold exportable in Hc. unfold exportRow.
  destruct (field c "Organization Name") as [organizationName|];
    [|discriminate Hc].
  rewrite !andb_true_iff in Hc.
  destruct Hc as [[[[[Hname Hloc] Hind] Hdesc] Hlen] Hurl].
  apply Nat.leb_le in Hlen.
  eexists. split; [reflexivity|].
  fold (exportedDescription c).
  rewrite !wrap_doubleQuotes.
  rewrite doubleQuotes_doubled, (substring_whole 1000) by exact Hlen.
  fold (quoted (exportedDescription c)).
  assert (Hnum : plain (Parse.natToString (idx + 1)) = true)
    by apply plain_digits, all_digits_NilZero.
  pose proof (fun f x => plain_toFixed exponentForm f x Hef) as Hfix.
  repeat split.
  - repeat constructor;
      first [apply quoted_sealed | apply plain_sealed; first [exact Hnum | exact Hurl | apply Hfix]].
  - repeat constructor;
      first [apply oneLine_quoted; assumption
            | apply plain_oneLine; first [exact Hnum | exact Hurl | apply Hfix]].
  - destruct (NilZero_starts_with_digit (Nat.to_uint (idx + 1)))
      as [d [r [E Hd]]].
    exists d, r. split; [exact E | apply digit_not_white, Hd].
Qed.

Lemma goodRow_line (row : list string) :
  goodRow row ->
  oneLine (Str.join "," row) = true
  /\ Str.isEmpty (Str.trim (Str.join "," row)) = false
  /\ List.length (Csv.parseRow (Str.join "," row)) = 11%nat.
Proof.
  intros [Hlen [Hsealed [Hlines [c [r [Hhd Hc]]]]]].
  split; [apply oneLine_joined_cells, Hlines|]. split.
  - destruct row as [|x [|y rest]]; simpl in Hlen; try discriminate.
    simpl in Hhd. subst x.
    change (Str.join "," (String c r :: y :: rest))
      with (String c (r ++ String Str.comma (Str.join "," (y :: rest)))).
    apply trim_not_blank, Hc.
  - rewrite parseRow_joined_cells; [exact Hlen | exact Hsealed|].
    destruct row; [discriminate Hlen | discriminate].
Qed.

Lemma mapM_rows {A : Type} (P : list string -> Prop)
    (f : A -> nat -> option (list string)) (xs : list A) :
  (forall x i, In x xs -> exists row, f x i = Some row /\ P row) ->
  forall i, exists rows,
    mapM (fun row => row) (Js.mapi_from i f xs) = Some rows
    /\ List.length rows = List.length xs /\ List.Forall P rows.
Proof.
  induction xs as [|x r IH]; intros Hf i; simpl.
  - exists []. repeat split. constructor.
  - destruct (Hf x i (or_introl eq_refl)) as [row [E Hrow]].
    destruct (IH (fun y j Hy => Hf y j (or_intror Hy)) (S i))
      as [rows [Er [Hlen Hrows]]].
    exists (row :: rows). rewrite E. simpl. rewrite Er. simpl.
    repeat split; [lia | constructor; assumption].
Qed.

Lemma headers_line :
  oneLine (Str.join "," headers) = true
  /\ Str.isEmpty (Str.trim (Str.join "," headers)) = false
  /\ List.length (Csv.parseHeaders (Str.join "," headers)) = 11%nat.
Proof. vm_compute. repeat split; reflexivity. Qed.

Lemma filter_all {A : Type} (f : A -> bool) (l : list A) :
  List.Forall (fun x => f x = true) l -> List.filter f l = l.
Proof.
  induction 1 as [|x r Hx Hr IH]; simpl; [reflexivity|].
  rewrite Hx, IH. reflexivity.
Qed.

(** C8: the exporter writes the website without quotes, so a website
    with a comma gives its line a twelfth cell, and the parser, which
    keeps the lines of eleven cells, drops it: one company is exported
    and no record is read back. *)
Lemma comma_in_website_breaks_round_trip :
  let record : RawCompanyData :=
    {[ "Organization Name" := "Acme";
       "Organization Name URL" := "https://acme.example/a,b" ]} in
  exists text,
    exportCompaniesToCSV sample_exponentForm
      (companies (sample_processData [record])) = Some text
    /\ List.length (companies (sample_processData [record])) = 1%nat
    /\ List.length (headerCells text) = 11%nat
    /\ List.map (fun line => List.length (Csv.parseRow line)) (dataLines text)
       = [12%nat]
    /\ List.length (Csv.parseCSV text) = 0%nat.
Proof.
  eexists. split; [vm_compute; reflexivity|].
  repeat split; vm_compute; reflexivity.
Qed.

(* ================================================================== *)
(** ** Properties of the trend aggregator *)
(* ================================================================== *)

Section TrendFacts.
Variable fullYearOf : string -> option Z.
Variable currentYear : Z.
Variable exponentForm : Q -> string.

Lemma countedIn_spec (y : Z) (c : ScoredCompany) :
  countedIn fullYearOf currentYear y c
  = inRange currentYear y && foundedInYear fullYearOf y c.
Proof.
  unfold countedIn, foundedInYear, foundedYear, inRange.
  destruct (field c "Founded Date") as [s|]; simpl.
  - destruct (Str.isEmpty s); simpl.
    + destruct (0 =? y) eqn:E; [|rewrite ?andb_false_r; reflexivity].
      apply Z.eqb_eq in E. subst y. reflexivity.
    + destruct (fullYearOf s) as [y'|]; simpl.
      * destruct (y' =? y) eqn:E; [|rewrite !andb_false_r; reflexivity].
        apply Z.eqb_eq in E. subst y'. rewrite !andb_true_r. reflexivity.
      * rewrite andb_false_r. reflexivity.
  - rewrite andb_false_r. reflexivity.
Qed.

Lemma mapGet_trendStep (m : list (Z * TrendEntry)) (c : ScoredCompany)
    (y : Z) :
  Js.mapGet y (trendStep fullYearOf currentYear m c)
  = if countedIn fullYearOf currentYear y c
    then Some (bumpEntry (default zeroEntry (Js.mapGet y m)) c)
    else Js.mapGet y m.
Proof.
  unfold trendStep, countedIn, inRange.
  set (yc := foundedYear fullYearOf c).
  destruct ((1990 <? yc) && (yc <=? currentYear)); simpl; [|reflexivity].
  set (m1 := match Js.mapGet yc m with
             | Some _ => m
             | None => Js.mapSet yc _ m
             end).
  assert (H1 : Js.mapGet yc m1 = Some (default zeroEntry (Js.mapGet yc m))).
  { subst m1. destruct (Js.mapGet yc m) eqn:E; simpl; [exact E|].
    apply mapGet_mapSet_eq. }
  assert (H2 : forall y', yc <> y' -> Js.mapGet y' m1 = Js.mapGet y' m).
  { intros y' Hne. subst m1. destruct (Js.mapGet yc m); [reflexivity|].
    apply mapGet_mapSet_ne, Hne. }
  rewrite H1.
  destruct (Z.eqb_spec yc y) as [<-|Hne].
  - rewrite mapGet_mapSet_eq. reflexivity.
  - rewrite mapGet_mapSet_ne by exact Hne. apply H2, Hne.
Qed.

Lemma keys_trendStep (m : list (Z * TrendEntry)) (c : ScoredCompany) :
  List.NoDup (List.map fst m) ->
  List.NoDup (List.map fst (trendStep fullYearOf currentYear m c)).
Proof.
  intros Hm. unfold trendStep.
  destruct (_ && _); [|exact Hm].
  set (m1 := match Js.mapGet _ m with Some _ => m | None => _ end).
  assert (H1 : List.NoDup (List.map fst m1)).
  { subst m1. destruct (Js.mapGet _ m); [exact Hm | apply NoDup_mapSet, Hm]. }
  destruct (Js.mapGet _ m1); [apply NoDup_mapSet, H1 | exact H1].
Qed.

Lemma trend_fold (cs : list ScoredCompany) (m : list (Z * TrendEntry)) :
  List.NoDup (List.map fst m) ->
  List.NoDup (List.map fst (fold_left (trendStep fullYearOf currentYear) cs m))
  /\ forall y,
       Js.mapGet y (fold_left (trendStep fullYearOf currentYear) cs m)
       = entryAfter fullYearOf currentYear y cs (Js.mapGet y m).
Proof.
  revert m. induction cs as [|c r IH]; intros m Hm; simpl.
  - split; [exact Hm | reflexivity].
  - destruct (IH _ (keys_trendStep m c Hm)) as [Hnd Hget].
    split; [exact Hnd|]. intros y. rewrite Hget, mapGet_trendStep.
    reflexivity.
Qed.

(** The entry of a year depends on the companies of its bucket only. *)
Lemma entryAfter_bucket (y : Z) (cs : list ScoredCompany)
    (o : option TrendEntry) :
  entryAfter fullYearOf currentYear y cs o
  = match List.filter (countedIn fullYearOf currentYear y) cs with
    | [] => o
    | b => Some (fold_left bumpEntry b (default zeroEntry o))
    end.
Proof.
  unfold entryAfter. revert o.
  induction cs as [|c r IH]; intros o; simpl; [reflexivity|].
  rewrite IH. destruct (countedIn fullYearOf currentYear y c); simpl.
  - destruct (List.filter _ r); reflexivity.
  - reflexivity.
Qed.

Lemma bumpIf_count (flag : Themes -> bool) (c : ScoredCompany)
    (cs : list ScoredCompany) (n : nat) :
  (bumpIf (flag (themes c)) n + countTheme flag cs
   = n + countTheme flag (c :: cs))%nat.
Proof.
  unfold countTheme, bumpIf. simpl.
  destruct (flag (themes c)); simpl; lia.
Qed.

Lemma fold_bumpEntry (b : list ScoredCompany) (e : TrendEntry) :
  let e' := fold_left bumpEntry b e in
  trend_count e' = (trend_count e + List.length b)%nat
  /\ nAI (trend_themes e') = (nAI (trend_themes e) + countTheme ai b)%nat
  /\ nClimate (trend_themes e')
     = (nClimate (trend_themes e) + countTheme climate b)%nat
  /\ nFintech (trend_themes e')
     = (nFintech (trend_themes e) + countTheme fintech b)%nat
  /\ nHealthcare (trend_themes e')
     = (nHealthcare (trend_themes e) + countTheme healthcare b)%nat
  /\ nSaaS (trend_themes e')
     = (nSaaS (trend_themes e) + countTheme saas b)%nat
  /\ nConsumer (trend_themes e')
     = (nConsumer (trend_themes e) + countTheme consumer b)%nat.
Proof.
  revert e. induction b as [|c r IH]; intros e; cbn zeta.
  - unfold countTheme. simpl. repeat split; lia.
  - cbn [fold_left]. specialize (IH (bumpEntry e c)). cbn zeta in IH.
    destruct IH as [H0 [H1 [H2 [H3 [H4 [H5 H6]]]]]].
    rewrite H0, H1, H2, H3, H4, H5, H6. cbn [bumpEntry trend_count
      trend_themes bumpCounts nAI nClimate nFintech nHealthcare nSaaS
      nConsumer List.length].
    rewrite !bumpIf_count. repeat split; lia.
Qed.
End TrendFacts.

Lemma tenths_read_back : tenthsReadBack 1001 = true.
Proof. vm_compute. reflexivity. Qed.

Lemma parse_fixed_tenth (n : Z) :
  0 <= n <= 1000 ->
  exists q, Parse.parseFloat (Parse.fixedDigits 1 n) = Fin q
            /\ (q == n # 10)%Q.
Proof.
  intros Hn. pose proof tenths_read_back as H.
  unfold tenthsReadBack in H. rewrite forallb_forall in H.
  specialize (H (Z.to_nat n)). rewrite Z2Nat.id in H by lia.
  assert (Hin : In (Z.to_nat n) (seq 0 1001)) by (apply in_seq; lia).
  apply H in Hin.
  destruct (Parse.parseFloat (Parse.fixedDigits 1 n)) as [| | |q];
    try discriminate Hin.
  exists q. split; [reflexivity|]. apply Qeq_bool_iff, Hin.
Qed.

Lemma roundTo1_tenths (x : Q) :
  (0 <= x)%Q -> (x <= 100)%Q -> 0 <= Qfloor (x * 10 + (1 # 2)) <= 1000.
Proof.
  intros H0 H100. split.
  - change 0 with (Qfloor (1 # 2)). apply Qfloor_resp_le. lra.
  - change 1000 with (Qfloor (1000 + (1 # 2))). apply Qfloor_resp_le. lra.
Qed.

(** Rounding to one decimal moves a number by at most a twentieth. *)
Lemma roundTo1_close (x : Q) :
  (roundTo1 x - x <= 1 # 20)%Q /\ (x - roundTo1 x < 1 # 20)%Q.
Proof.
  unfold roundTo1.
  pose proof (Qfloor_le (x * 10 + (1 # 2))) as Hle.
  pose proof (Qlt_floor (x * 10 + (1 # 2))) as Hlt.
  rewrite inject_Z_plus in Hlt.
  set (n := inject_Z (Qfloor (x * 10 + (1 # 2)))) in *.
  change (inject_Z 1) with 1%Q in Hlt.
  assert (E : (n / 10 == n * (1 # 10))%Q) by (unfold Qdiv; reflexivity).
  rewrite E. split; lra.
Qed.

(** *** Binary64 rounding of a share *)

Lemma roundHalfEven_near (q : Q) :
  (inject_Z (Double.roundHalfEven q) - q <= 1 # 2
   /\ q - inject_Z (Double.roundHalfEven q) <= 1 # 2)%Q.
Proof.
  unfold Double.roundHalfEven.
  pose proof (Qfloor_le q) as Hle. pose proof (Qlt_floor q) as Hlt.
  rewrite inject_Z_plus in Hlt. change (inject_Z 1) with 1%Q in Hlt.
  set (f := Qfloor q) in *.
  destruct (q - inject_Z f ?= 1 # 2)%Q eqn:E.
  - apply Qeq_alt in E.
    destruct (Z.even f); [|rewrite inject_Z_plus; change (inject_Z 1) with 1%Q];
      split; lra.
  - apply Qlt_alt in E. split; lra.
  - apply Qgt_alt in E. rewrite inject_Z_plus. change (inject_Z 1) with 1%Q.
    split; lra.
Qed.

Lemma roundHalfEven_le (q : Q) (n : Z) :
  (q <= inject_Z n)%Q -> Double.roundHalfEven q <= n.
Proof.
  intros Hq. unfold Double.roundHalfEven.
  pose proof (Qfloor_resp_le _ _ Hq) as Hf. rewrite Qfloor_Z in Hf.
  pose proof (Qfloor_le q) as Hle.
  set (f := Qfloor q) in *.
  destruct (Z.eq_dec f n) as [Hfn|Hne].
  - assert (E : (q - inject_Z f ?= 1 # 2)%Q = Lt).
    { rewrite <- Qlt_alt, Hfn. lra. }
    rewrite E. lia.
  - destruct (q - inject_Z f ?= 1 # 2)%Q; [destruct (Z.even f)| |]; lia.
Qed.

Lemma roundHalfEven_nonneg (q : Q) :
  (0 <= q)%Q -> 0 <= Double.roundHalfEven q.
Proof.
  intros Hq. unfold Double.roundHalfEven.
  pose proof (Qfloor_resp_le _ _ Hq) as Hf. change (Qfloor 0) with 0 in Hf.
  set (f := Qfloor q) in *.
  destruct (q - inject_Z f ?= 1 # 2)%Q; [destruct (Z.even f)| |]; lia.
Qed.

Lemma pow2_pos (z : Z) : (0 < 2 ^ z)%Q.
Proof. apply Qpower_0_lt. reflexivity. Qed.

Lemma pow2_le (a b : Z) : a <= b -> (2 ^ a <= 2 ^ b)%Q.
Proof. intros H. apply Qpower_le_compat_l; [exact H | discriminate]. Qed.

Lemma pow2_lt_inv (a b : Z) : (2 ^ a < 2 ^ b)%Q -> a < b.
Proof.
  intros H. destruct (Z_lt_le_dec a b) as [Hlt|Hge]; [exact Hlt|].
  pose proof (pow2_le b a Hge). lra.
Qed.

Lemma pow2_nat (z : Z) : 0 <= z -> (2 ^ z == inject_Z (2 ^ z))%Q.
Proof. intros H. symmetry. apply (Zpower_Qpower 2 z H). Qed.

Lemma pow2_opp (z : Z) : (2 ^ z * 2 ^ (- z) == 1)%Q.
Proof.
  rewrite <- Qpower_plus by discriminate.
  rewrite Z.add_opp_diag_r. reflexivity.
Qed.

Lemma pow2_half (z : Z) : (2 ^ z * (1 # 2) == 2 ^ (z - 1))%Q.
Proof.
  unfold Z.sub. rewrite Qpower_plus by discriminate. reflexivity.
Qed.

(** The exponent of a positive number is not above the number. *)
Lemma exponent_le (q : Q) : (0 < q)%Q -> (2 ^ Double.exponent q <= q)%Q.
Proof.
  intros Hq. unfold Double.exponent.
  set (la := Z.log2 (Qnum q)). set (lb := Z.log2 (Z.pos (Qden q))).
  destruct (Qle_bool (2 ^ (la - lb)) q) eqn:E; [apply Qle_bool_iff, E|].
  destruct q as [n d]. cbn [Qnum Qden] in *.
  assert (Hn : 0 < n) by (unfold Qlt in Hq; simpl in Hq; lia).
  destruct (Z.log2_spec n Hn) as [Hn1 _]. fold la in Hn1.
  destruct (Z.log2_spec (Z.pos d) (Pos2Z.is_pos d)) as [_ Hd2]. fold lb in Hd2.
  assert (Hla : 0 <= la) by apply Z.log2_nonneg.
  assert (Hlb : 0 <= lb) by apply Z.log2_nonneg.
  replace (la - lb - 1) with (la + - (lb + 1)) by lia.
  rewrite Qpower_plus, Qpower_opp by discriminate.
  rewrite (pow2_nat la Hla), (pow2_nat (lb + 1)) by lia.
  assert (Hpos : (0 < inject_Z (2 ^ (lb + 1)))%Q).
  { change 0%Q with (inject_Z 0). rewrite <- Zlt_Qlt. lia. }
  apply Qle_shift_div_r; [exact Hpos|].
  unfold Qle, Qmult, inject_Z. cbn [Qnum Qden].
  rewrite Z.mul_1_r, Pos.mul_1_r.
  change (Z.succ lb) with (lb + 1) in Hd2. nia.
Qed.

Lemma Qabs_nonneg_eq (q : Q) : (0 <= q)%Q -> Qabs q = q.
Proof.
  destruct q as [n d]. unfold Qle, Qabs. cbn [Qnum Qden]. intros H.
  rewrite Z.abs_eq by lia. reflexivity.
Qed.

(** Rounding a number between 0 and a natural number below [2^53] that
    is also at most [2^j]: the result is a number of the same range, at
    most [2^(j-53)] away. *)
Lemma round_near (q : Q) (n j : Z) :
  (0 <= q)%Q -> (q <= inject_Z n)%Q -> n < 2 ^ 53 ->
  (q <= 2 ^ j)%Q -> -1022 <= j ->
  exists r,
    Double.round q = Fin r
    /\ (0 <= r)%Q /\ (r <= inject_Z n)%Q
    /\ (Qabs (r - q) <= 2 ^ (j - 53))%Q.
Proof.
  intros H0 Hn Hn53 Hj Hjmin. unfold Double.round.
  destruct (Qeq_bool q 0) eqn:Ez.
  { apply Qeq_bool_iff in Ez. exists 0%Q. split; [reflexivity|].
    split; [lra|]. split; [lra|].
    rewrite Ez. change (0 - 0)%Q with 0%Q.
    apply Qlt_le_weak, pow2_pos. }
  assert (Hq : (0 < q)%Q).
  { apply Qeq_bool_neq in Ez. lra. }
  cbv zeta. rewrite (Qabs_nonneg_eq q H0).
  pose proof (exponent_le q Hq) as He.
  set (e := Double.exponent q) in *.
  assert (He53 : e < 53).
  { apply pow2_lt_inv. rewrite (pow2_nat 53) by lia.
    assert (inject_Z n < inject_Z (2 ^ 53))%Q by (rewrite <- Zlt_Qlt; exact Hn53).
    lra. }
  assert (Hej : e <= j).
  { destruct (Z_le_gt_dec e j) as [H|H]; [exact H|].
    exfalso.
    assert (2 ^ j < 2 ^ e)%Q; [|lra].
    apply Qpower_lt_compat_l; [lia | reflexivity]. }
  set (s := Z.max e (-1022) - 52).
  assert (Hs0 : s <= 0) by lia.
  assert (Hsj : s - 1 <= j - 53) by lia.
  pose proof (pow2_pos s) as HP.
  set (P := (2 ^ s)%Q) in *.
  pose proof (roundHalfEven_near (q / P)) as [Hnear1 Hnear2].
  assert (Hm0 : 0 <= Double.roundHalfEven (q / P)).
  { apply roundHalfEven_nonneg. apply Qle_shift_div_l; lra. }
  assert (HmN : Double.roundHalfEven (q / P) <= n * 2 ^ (- s)).
  { apply roundHalfEven_le. rewrite inject_Z_mult.
    rewrite <- (pow2_nat (- s)) by lia.
    apply Qle_shift_div_r; [exact HP|].
    rewrite <- Qmult_assoc, (Qmult_comm (2 ^ (- s)) P).
    unfold P. rewrite pow2_opp. lra. }
  set (m := Double.roundHalfEven (q / P)) in *.
  assert (Hr0 : (0 <= inject_Z m * P)%Q).
  { apply Qmult_le_0_compat; [|lra].
    change 0%Q with (inject_Z 0). rewrite <- Zle_Qle. exact Hm0. }
  assert (HrN : (inject_Z m * P <= inject_Z n)%Q).
  { assert (inject_Z m <= inject_Z n * 2 ^ (- s))%Q.
    { rewrite (pow2_nat (- s)) by lia. rewrite <- inject_Z_mult.
      rewrite <- Zle_Qle. exact HmN. }
    assert (inject_Z m * P <= inject_Z n * 2 ^ (- s) * P)%Q
      by (apply Qmult_le_compat_r; lra).
    assert (E : (inject_Z n * 2 ^ (- s) * P == inject_Z n)%Q).
    { rewrite <- Qmult_assoc, (Qmult_comm (2 ^ (- s)) P).
      unfold P. rewrite pow2_opp. ring. }
    lra. }
  assert (Hover : Qle_bool (2 ^ 1024) (inject_Z m * P) = false).
  { destruct (Qle_bool _ _) eqn:E; [|reflexivity].
    apply Qle_bool_iff in E. exfalso.
    assert (inject_Z n < inject_Z (2 ^ 53))%Q by (rewrite <- Zlt_Qlt; exact Hn53).
    assert (2 ^ 53 <= 2 ^ 1024)%Q by (apply pow2_le; lia).
    rewrite (pow2_nat 53) in * by lia. lra. }
  rewrite Hover.
  assert (Hsign : Qle_bool 0 q = true) by (apply Qle_bool_iff; exact H0).
  rewrite Hsign.
  exists (inject_Z m * P)%Q. split; [reflexivity|].
  split; [exact Hr0|]. split; [exact HrN|].
  assert (Hq' : (q == q / P * P)%Q) by (field; lra).
  assert (Hbound : (P * (1 # 2) <= 2 ^ (j - 53))%Q).
  { subst P. rewrite pow2_half. apply pow2_le. exact Hsj. }
  apply Qabs_Qle_condition. split.
  - assert (- (P * (1 # 2)) <= inject_Z m * P - q)%Q; [|lra].
    rewrite Hq' at 1.
    assert ((q / P - inject_Z m) * P <= (1 # 2) * P)%Q
      by (apply Qmult_le_compat_r; lra).
    lra.
  - assert (inject_Z m * P - q <= P * (1 # 2))%Q; [|lra].
    rewrite Hq' at 1.
    assert ((inject_Z m - q / P) * P <= (1 # 2) * P)%Q
      by (apply Qmult_le_compat_r; lra).
    lra.
Qed.

(** The binary64 share of [k] out of [n]: a number between 0 and 100,
    within [2^-45] of the share. *)
Lemma double_share (k n : nat) :
  (0 < n)%nat -> (k <= n)%nat ->
  exists x,
    Double.mul (Double.div (Num.ofNat k) (Num.ofNat n)) (Fin 100) = Fin x
    /\ (0 <= x)%Q /\ (x <= 100)%Q
    /\ (Qabs (x - 100 * (inject_Z (Z.of_nat k) / inject_Z (Z.of_nat n)))
        <= 1 # 2 ^ 45)%Q.
Proof.
  intros Hn Hk. unfold Double.mul, Double.div, Num.ofNat.
  set (k' := inject_Z (Z.of_nat k)). set (n' := inject_Z (Z.of_nat n)).
  assert (Hn' : (0 < n')%Q).
  { subst n'. change 0%Q with (inject_Z 0). rewrite <- Zlt_Qlt. lia. }
  assert (Hk0 : (0 <= k')%Q).
  { subst k'. change 0%Q with (inject_Z 0). rewrite <- Zle_Qle. lia. }
  assert (Hkn : (k' <= n')%Q).
  { subst k' n'. rewrite <- Zle_Qle. lia. }
  rewrite div_fin by lra. cbn [Double.lift].
  assert (Hr0 : (0 <= k' / n')%Q) by (apply Qle_shift_div_l; lra).
  assert (Hr1 : (k' / n' <= 1)%Q) by (apply Qle_shift_div_r; lra).
  destruct (round_near (k' / n') 1 0 Hr0 Hr1 eq_refl Hr1 ltac:(lia))
    as [y [-> [Hy0 [Hy1 Hy]]]].
  cbn [Num.mul Double.lift].
  assert (Hp0 : (0 <= y * 100)%Q) by lra.
  assert (Hp1 : (y * 100 <= inject_Z 100)%Q)
    by (change (inject_Z 100) with 100%Q; change (inject_Z 1) with 1%Q in Hy1; lra).
  assert (Hp2 : (y * 100 <= 2 ^ 7)%Q)
    by (change (2 ^ 7)%Q with 128%Q; change (inject_Z 100) with 100%Q in Hp1; lra).
  destruct (round_near (y * 100) 100 7 Hp0 Hp1 eq_refl Hp2 ltac:(lia))
    as [x [-> [Hx0 [Hx1 Hx]]]].
  exists x. split; [reflexivity|]. split; [exact Hx0|].
  split; [exact Hx1|].
  apply Qabs_Qle_condition in Hy, Hx. apply Qabs_Qle_condition.
  change (2 ^ (0 - 53))%Q with (1 # 2 ^ 53)%Q in Hy.
  change (2 ^ (7 - 53))%Q with (1 # 2 ^ 46)%Q in Hx.
  change (1 # 2 ^ 53)%Q with (1 # 9007199254740992)%Q in Hy.
  change (1 # 2 ^ 46)%Q with (1 # 70368744177664)%Q in Hx.
  change (1 # 2 ^ 45)%Q with (1 # 35184372088832)%Q.
  split; lra.
Qed.

(** The percentage written for [k] out of [n] is the binary64 share
    rounded to one decimal. *)
Lemma percentage_rounds (exponentForm : Q -> string) (k n : nat) :
  (0 < n)%nat -> (k <= n)%nat ->
  (percentage exponentForm k n
   == Fin (roundTo1
             match Double.mul (Double.div (Num.ofNat k) (Num.ofNat n))
                              (Fin 100) with
             | Fin q => q
             | _ => 0%Q
             end))%num.
Proof.
  intros Hn Hk. unfold percentage.
  destruct (double_share k n Hn Hk) as [x [-> [Hx0 [Hx100 _]]]].
  unfold toFixed.
  assert (E1 : Qle_bool 0 x = true) by (apply Qle_bool_iff; exact Hx0).
  rewrite E1. cbn [negb].
  destruct (Qle_bool (inject_Z (10 ^ 21)) x) eqn:E2.
  { apply Qle_bool_iff in E2.
    assert (100 < inject_Z (10 ^ 21))%Q by reflexivity. lra. }
  cbn [String.append]. unfold Parse.nearest, roundTo1.
  assert (Efloor : Qfloor (x * inject_Z (10 ^ Z.of_nat 1) + (1 # 2))
                   = Qfloor (x * 10 + (1 # 2))).
  { apply Qfloor_comp. change (inject_Z (10 ^ Z.of_nat 1)) with 10%Q. ring. }
  rewrite Efloor.
  set (N := Qfloor (x * 10 + (1 # 2))).
  change (Parse.parseFloat (Parse.fixedDigits 1 N) == Fin (inject_Z N / 10))%num.
  destruct (parse_fixed_tenth N) as [q [-> Hq]].
  { apply roundTo1_tenths; lra. }
  cbn [Num.eq]. rewrite Hq. unfold Qdiv, Qeq. simpl. lia.
Qed.

Lemma share64_near (flag : Themes -> bool) (cs : list ScoredCompany) :
  (0 < List.length cs)%nat -> (countTheme flag cs <= List.length cs)%nat ->
  (Qabs (share64 flag cs - share flag cs) <= 1 # 2 ^ 45)%Q.
Proof.
  intros Hn Hk. unfold share64, share.
  destruct (double_share _ _ Hn Hk) as [x [-> [_ [_ Hx]]]]. exact Hx.
Qed.

Lemma countTheme_le (flag : Themes -> bool) (cs : list ScoredCompany) :
  (countTheme flag cs <= List.length cs)%nat.
Proof. unfold countTheme. apply filter_length_le. Qed.

Lemma NoDup_keys_StronglySorted {A : Type} (key : A -> Z) (l : list A) :
  List.NoDup (List.map key l) ->
  StronglySorted (fun a b => key a <> key b) l.
Proof.
  induction l as [|x r IH]; simpl; intros Hnd; [constructor|].
  apply NoDup_cons_iff in Hnd as [Hx Hr].
  constructor; [apply IH, Hr|].
  rewrite List.Forall_forall. intros y Hy E. apply Hx.
  rewrite E. apply in_map, Hy.
Qed.

(** C6, as stated, fails: of 80 companies founded in 2015, 23 are classed
    as AI; the share is 28.75, which rounds to 28.8, but the binary64
    product is 28.749999999999996 and the entry reads 28.7. *)
Lemma tie_share_reads_low :
  let b := bucket sample_fullYearOf 2015 (scoreAll sample_tie_batch) in
  In sample_tie_trend (trends (sample_processData sample_tie_batch))
  /\ year sample_tie_trend = 2015
  /\ countTheme ai b = 23%nat
  /\ List.length b = 80%nat
  /\ (roundTo1 (share ai b) == 28.8)%Q
  /\ (AI sample_tie_trend == Fin 28.7)%num
  /\ ~ trendMatches_asStated sample_tie_trend b.
Proof.
  cbv zeta.
  split; [vm_compute; left; reflexivity|].
  split; [reflexivity|].
  split; [vm_compute; reflexivity|].
  split; [vm_compute; reflexivity|].
  split; [vm_compute; reflexivity|].
  split; [vm_compute; reflexivity|].
  intros [H _]. vm_compute in H. discriminate H.
Qed.

Section TrendTheorem.
Variable fullYearOf : string -> option Z.
Variable currentYear : Z.
Variable exponentForm : Q -> string.

Lemma filter_countedIn (y : Z) (cs : list ScoredCompany) :
  List.filter (countedIn fullYearOf currentYear y) cs
  = if inRange currentYear y then bucket fullYearOf y cs else [].
Proof.
  unfold bucket. induction cs as [|c r IH]; simpl.
  - destruct (inRange currentYear y); reflexivity.
  - rewrite IH, countedIn_spec.
    destruct (inRange currentYear y); simpl; reflexivity.
Qed.

(** The entries of [trendsMap] after the pass: one per year in range
    with a bucket that is not empty, holding the tallies of the
    bucket. *)
Lemma trend_entries (scored : list ScoredCompany) (y : Z) (e : TrendEntry) :
  In (y, e) (fold_left (trendStep fullYearOf currentYear) scored [])
  <-> inRange currentYear y = true
      /\ bucket fullYearOf y scored <> []
      /\ e = fold_left bumpEntry (bucket fullYearOf y scored) zeroEntry.
Proof.
  destruct (trend_fold fullYearOf currentYear scored [] (List.NoDup_nil _))
    as [Hnd Hget].
  assert (Hentry :
    Js.mapGet y (fold_left (trendStep fullYearOf currentYear) scored [])
    = match (if inRange currentYear y
             then bucket fullYearOf y scored else []) with
      | [] => None
      | b => Some (fold_left bumpEntry b zeroEntry)
      end).
  { rewrite Hget, entryAfter_bucket, filter_countedIn. reflexivity. }
  split.
  - intros Hin. apply (In_mapGet _ _ _ Hnd) in Hin.
    rewrite Hentry in Hin.
    destruct (inRange currentYear y); [|discriminate Hin].
    destruct (bucket fullYearOf y scored) as [|c b]; [discriminate Hin|].
    injection Hin as <-. repeat split. discriminate.
  - intros [Hy [Hb ->]]. apply mapGet_In. rewrite Hentry, Hy.
    destruct (bucket fullYearOf y scored); [contradiction | reflexivity].
Qed.

Lemma themeTrend_matches (y : Z) (b : list ScoredCompany) :
  b <> [] ->
  trendMatches_amended
    (themeTrend exponentForm (y, fold_left bumpEntry b zeroEntry)) b.
Proof.
  intros Hb.
  destruct (fold_bumpEntry b zeroEntry) as [H0 [H1 [H2 [H3 [H4 [H5 H6]]]]]].
  assert (Hlen : (0 < List.length b)%nat)
    by (destruct b; [contradiction | simpl; lia]).
  unfold trendMatches_amended, themeTrend.
  cbn [snd fst AI Climate Fintech Healthcare SaaS Consumer].
  rewrite H0, H1, H2, H3, H4, H5, H6. simpl.
  repeat split; first
    [ apply percentage_rounds; first [exact Hlen | apply countTheme_le]
    | apply share64_near; first [exact Hlen | apply countTheme_le] ].
Qed.

(** C6, amended: the trend entries are listed by year, each year once;
    a year has an entry exactly when it lies in (1990, currentYear] and
    some company of the batch has a founding date of that year; and each
    of the six percentages of an entry is the binary64 value of
    (companies of the year with the theme / companies of the year) x 100
    rounded to one decimal, a value that is within [2^-45] of the exact
    share.  A company whose founding date is missing, empty or not a
    date belongs to the bucket of no year. *)
Theorem trends_by_year (rawData : list RawCompanyData) :
  let result := processData fullYearOf currentYear exponentForm rawData in
  let scored := scoreAll rawData in
  StronglySorted (fun a b => year a < year b) (trends result)
  /\ (forall y,
        (exists t, In t (trends result) /\ year t = y)
        <-> (1990 < y <= currentYear
             /\ exists c, In c scored
                          /\ foundedInYear fullYearOf y c = true))
  /\ (forall t, In t (trends result) ->
        trendMatches_amended t (bucket fullYearOf (year t) scored))
  /\ (forall c y,
        ~ (exists s, field c "Founded Date" = Some s /\ s <> EmptyString
                     /\ fullYearOf s = Some y) ->
        ~ In c (bucket fullYearOf y scored)).
Proof.
  cbn zeta. cbn [trends processData]. unfold trendsOf.
  set (scored := scoreAll rawData).
  set (entries := fold_left (trendStep fullYearOf currentYear) scored []).
  assert (Hnd : List.NoDup (List.map fst entries)).
  { apply (trend_fold fullYearOf currentYear scored [] (List.NoDup_nil _)). }
  assert (Hmem : forall t,
    In t (Js.sort (fun a b => (Num.ofZ (year a) - Num.ofZ (year b))%num)
                  (List.map (themeTrend exponentForm) entries))
    <-> exists e, In (year t, e) entries
                  /\ t = themeTrend exponentForm (year t, e)).
  { intros t. rewrite In_sort, in_map_iff. split.
    - intros [[y e] [<- Hin]]. exists e. split; [exact Hin | reflexivity].
    - intros [e [Hin ->]]. exists (year (themeTrend exponentForm (year t, e)), e).
      split; [reflexivity | exact Hin]. }
  split; [|split; [|split]].
  - apply (sort_sorted _ (fun a b => year a <> year b)).
    + intros x y z. lia.
    + intros x y. unfold Js.after. rewrite after_difference.
      intros H%Z.ltb_lt. exact H.
    + intros x y. unfold Js.after. rewrite after_difference.
      intros H%Z.ltb_ge Hne. lia.
    + apply NoDup_keys_StronglySorted.
      rewrite map_map. exact Hnd.
  - intros y. split.
    + intros [t [Ht <-]]. apply Hmem in Ht as [e [Hin _]].
      apply trend_entries in Hin as [Hy [Hb _]].
      unfold inRange in Hy. apply andb_true_iff in Hy as [H1 H2].
      apply Z.ltb_lt in H1. apply Z.leb_le in H2. split; [lia|].
      destruct (bucket fullYearOf (year t) scored) as [|c b] eqn:Eb;
        [contradiction|].
      exists c. apply (filter_In (foundedInYear fullYearOf (year t))).
      unfold bucket in Eb. rewrite Eb. left. reflexivity.
    + intros [[H1 H2] [c [Hc Hfound]]].
      set (e := fold_left bumpEntry (bucket fullYearOf y scored) zeroEntry).
      exists (themeTrend exponentForm (y, e)). split; [|reflexivity].
      apply Hmem. exists e. split; [|reflexivity].
      change (year (themeTrend exponentForm (y, e))) with y.
      apply trend_entries. repeat split.
      * unfold inRange. apply andb_true_iff.
        split; [apply Z.ltb_lt | apply Z.leb_le]; assumption.
      * intros Hb. assert (Hin : In c (bucket fullYearOf y scored))
          by (apply filter_In; tauto).
        rewrite Hb in Hin. destruct Hin.
  - intros t Ht. apply Hmem in Ht as [e [Hin Heq]].
    apply trend_entries in Hin as [_ [Hb ->]].
    rewrite Heq at 1. apply themeTrend_matches, Hb.
  - intros c y Hnot Hin. apply filter_In in Hin as [_ Hfound].
    apply Hnot. unfold foundedInYear in Hfound.
    destruct (field c "Founded Date") as [s|]; [|discriminate Hfound].
    apply andb_true_iff in Hfound as [Hs Hy].
    destruct (fullYearOf s) as [y'|] eqn:Ey; [|discriminate Hy].
    apply Z.eqb_eq in Hy. subst y'.
    exists s. repeat split; [|exact Ey]. intros ->. discriminate Hs.
Qed.
End TrendTheorem.

(* ================================================================== *)
(** ** The properties on the sample batch *)
(* ================================================================== *)

(** The records of the sample batch are well formed. *)
Lemma sample_batch_wellFormed :
  forall r, In r sample_batch -> wellFormed (normalizeRecord r) = true.
Proof.
  intros r [<-|[<-|[]]]; vm_compute; reflexivity.
Defined.

(** The sample company, investor and trend entry belong to the result. *)
Lemma sample_company_in_result :
  In sample_company (companies (sample_processData sample_batch)).
Proof. vm_compute. left. reflexivity. Defined.

Lemma sample_investor_in_result :
  In sample_investor (investors (sample_processData sample_batch)).
Proof. vm_compute. left. reflexivity. Defined.

(** [scores_within_bounds] on the sample batch. *)
Lemma scores_within_bounds_witness :
  (forall r, In r sample_batch -> wellFormed (normalizeRecord r) = true)
  /\ In sample_company (companies (sample_processData sample_batch))
  /\ Num.between 0 100 (funding (scores sample_company))
  /\ Num.between 0 100 (operations (scores sample_company))
  /\ Num.between 0 100 (brandTrend (scores sample_company))
  /\ Num.between 0 100 (potential (scores sample_company))
  /\ Num.between 0 100 (comprehensive (scores sample_company))
  /\ (comprehensive (scores sample_company)
      == mean4 (funding (scores sample_company))
               (operations (scores sample_company))
               (brandTrend (scores sample_company))
               (potential (scores sample_company)))%num.
Proof.
  split; [exact sample_batch_wellFormed|].
  split; [exact sample_company_in_result|].
  exact (scores_within_bounds sample_fullYearOf sample_currentYear
           sample_exponentForm sample_batch sample_company
           sample_batch_wellFormed sample_company_in_result).
Defined.

(** [brandTrend_formula] on the sample batch. *)
Lemma brandTrend_formula_witness :
  In sample_company (companies (sample_processData sample_batch))
  /\ (brandTrend (scores sample_company)
      == brandTrendScore_amended (List.map normalizeRecord sample_batch)
           (source sample_company) (themes sample_company))%num.
Proof.
  split; [exact sample_company_in_result|].
  exact (brandTrend_formula sample_fullYearOf sample_currentYear
           sample_exponentForm sample_batch sample_company
           sample_company_in_result).
Defined.

(** [topThemes_ranked] on the sample investor. *)
Lemma topThemes_ranked_witness :
  In sample_investor (investors (sample_processData sample_batch))
  /\ exists e,
       In (name sample_investor, e) (investorPass (scoreAll sample_batch))
       /\ (List.length (topThemes sample_investor) <= 3)%nat
       /\ (forall t, In t (topThemes sample_investor) ->
                     In t priorityOrder /\ (0 < tally (themeCounts e) t)%nat)
       /\ (forall i j a b, (i < j)%nat ->
             topThemes sample_investor !! i = Some a ->
             topThemes sample_investor !! j = Some b ->
             ranksBefore (themeCounts e) a b).
Proof.
  split; [exact sample_investor_in_result|].
  destruct (topThemes_ranked sample_fullYearOf sample_currentYear
              sample_exponentForm sample_batch sample_investor
              sample_investor_in_result)
    as [e [He [Hlen [Hpos [Hord _]]]]].
  exists e. repeat split; try assumption; apply Hpos; assumption.
Defined.

(** [count_at_least_portfolio] on the sample investor. *)
Lemma count_at_least_portfolio_witness :
  In sample_investor (investors (sample_processData sample_batch))
  /\ (List.length (portfolio sample_investor) <= count sample_investor)%nat.
Proof.
  split; [exact sample_investor_in_result|].
  exact (count_at_least_portfolio sample_fullYearOf sample_currentYear
           sample_exponentForm sample_batch sample_investor
           sample_investor_in_result).
Defined.

(** The sample platform and companies meet the conditions of the export. *)
Lemma sample_exponentForm_plain :
  forall q, plain (sample_exponentForm q) = true.
Proof. intros q. reflexivity. Defined.

Lemma sample_companies_exportable :
  forall c, In c (companies (sample_processData sample_batch)) ->
            exportable c = true.
Proof.
  intros c Hc. vm_compute in Hc.
  destruct Hc as [<-|[<-|[]]]; vm_compute; reflexivity.
Defined.

Lemma sample_trend_in_result :
  In sample_trend (trends (sample_processData sample_batch)).
Proof. vm_compute. left. reflexivity. Defined.

(** [trends_by_year] on the sample trend entry. *)
Lemma trends_by_year_witness :
  In sample_trend (trends (sample_processData sample_batch))
  /\ trendMatches_amended sample_trend
       (bucket sample_fullYearOf (year sample_trend) (scoreAll sample_batch)).
Proof.
  split; [exact sample_trend_in_result|].
  exact (proj1 (proj2 (proj2 (trends_by_year sample_fullYearOf
                                sample_currentYear sample_exponentForm
                                sample_batch)))
           sample_trend sample_trend_in_result).
Defined.

(* ================================================================== *)
(** ** Further properties: reading numbers *)
(* ================================================================== *)

Lemma digitVal_not_digit (c : ascii) :
  Str.isDigit c = false ->
  Parse.digitVal c = None \/ exists d, Parse.digitVal c = Some d /\ 10 <= d.
Proof.
  destruct c as [[|] [|] [|] [|] [|] [|] [|] [|]]; intros Hc;
    try discriminate Hc;
    first [left; reflexivity
          | right; eexists; split; [reflexivity | vm_compute; discriminate]].
Qed.

Lemma readDigits_stops (radix : Z) (rest : string) (acc : Z) (k : nat) :
  radix <= 10 -> endsDigits rest = true ->
  Parse.readDigits radix rest acc k = (acc, k, rest).
Proof.
  intros Hr. destruct rest as [|c r]; [reflexivity|].
  cbn [endsDigits Parse.readDigits].
  intros Hc. apply negb_true_iff in Hc.
  destruct (digitVal_not_digit c Hc) as [->|[d [-> Hd]]]; [reflexivity|].
  destruct (Z.ltb_spec d radix); [lia | reflexivity].
Qed.

Lemma append_cons (c : ascii) (a b : string) :
  String c a ++ b = String c (a ++ b).
Proof. reflexivity. Qed.

Lemma append_empty (b : string) : EmptyString ++ b = b.
Proof. reflexivity. Qed.

Lemma readDigits_uint (d : Decimal.uint) (rest : string) (acc k : nat) :
  endsDigits rest = true ->
  Parse.readDigits 10 (NilEmpty.string_of_uint d ++ rest) (Z.of_nat acc) k
  = (Z.of_nat (Nat.of_uint_acc d acc), (k + Decimal.nb_digits d)%nat, rest).
Proof.
  intros Hrest. revert acc k.
  induction d as [|d IH|d IH|d IH|d IH|d IH|d IH|d IH|d IH|d IH|d IH];
    intros acc k.
  1: { cbn [NilEmpty.string_of_uint Nat.of_uint_acc Decimal.nb_digits].
       rewrite append_empty, readDigits_stops by (lia || assumption).
       rewrite Nat.add_0_r. reflexivity. }
  all: cbn [NilEmpty.string_of_uint Nat.of_uint_acc Decimal.nb_digits];
    rewrite append_cons; cbn [Parse.readDigits];
    change (Parse.digitVal _) with (Some 0) || change (Parse.digitVal _) with (Some 1)
    || change (Parse.digitVal _) with (Some 2) || change (Parse.digitVal _) with (Some 3)
    || change (Parse.digitVal _) with (Some 4) || change (Parse.digitVal _) with (Some 5)
    || change (Parse.digitVal _) with (Some 6) || change (Parse.digitVal _) with (Some 7)
    || change (Parse.digitVal _) with (Some 8) || change (Parse.digitVal _) with (Some 9);
    cbn [Z.ltb Z.compare Pos.compare Pos.compare_cont];
    match goal with
    | |- Parse.readDigits 10 _ ?z _ = (Z.of_nat (Nat.of_uint_acc _ ?a), _, _) =>
        replace z with (Z.of_nat a)
          by (rewrite Nat.tail_mul_spec; lia)
    end;
    rewrite IH, Nat.add_succ_r; reflexivity.
Qed.

(** The digits written for [n], as digits that are never the empty
    list. *)
Lemma natToString_digits (n : nat) :
  exists d, Parse.natToString n = NilEmpty.string_of_uint d
            /\ Nat.of_uint d = n /\ (0 < Decimal.nb_digits d)%nat.
Proof.
  unfold Parse.natToString. pose proof (Unsigned.of_to n) as Hn.
  destruct (Nat.to_uint n) as [|d|d|d|d|d|d|d|d|d|d] eqn:E.
  { exists (Decimal.D0 Decimal.Nil). repeat split; [exact Hn | simpl; lia]. }
  all: eexists; split; [reflexivity|]; split; [exact Hn | simpl; lia].
Qed.

Lemma startsNumber_digit (c : ascii) (r : string) :
  Str.isDigit c = true ->
  Parse.readSign (String c r) = (1, String c r).
Proof.
  destruct c as [[|] [|] [|] [|] [|] [|] [|] [|]]; intros Hc;
    try discriminate Hc; reflexivity.
Qed.

Lemma digit_not_x (c : ascii) :
  Str.isDigit c = true ->
  Ascii.eqb c "x" || Ascii.eqb c "X" = false.
Proof.
  destruct c as [[|] [|] [|] [|] [|] [|] [|] [|]]; intros Hc;
    try discriminate Hc; reflexivity.
Qed.

(** [parseInt] reads a sequence of decimal digits in radix 10 unless it
    is a 0 followed by an x. *)
Lemma parseInt_radix10 (c : ascii) (r : string) :
  Str.isDigit c = true ->
  match r with
  | EmptyString => true
  | String x _ => negb (Ascii.eqb x "x" || Ascii.eqb x "X")
  end = true ->
  Parse.parseInt (String c r)
  = match Parse.readDigits 10 (String c r) 0 0 with
    | (_, O, _) => NaN
    | (v, _, _) => Num.ofZ (1 * v)
    end.
Proof.
  intros Hc Hx. unfold Parse.parseInt. cbn [Str.trimStart].
  rewrite (digit_not_white c Hc), (startsNumber_digit c r Hc).
  destruct c as [[|] [|] [|] [|] [|] [|] [|] [|]];
    try discriminate Hc; try reflexivity.
  destruct r as [|x r']; [reflexivity|].
  apply negb_true_iff in Hx. rewrite Hx. reflexivity.
Qed.

(** Reading back a number that was written in decimal, whatever follows
    it. *)
Lemma parseInt_natToString (n : nat) (rest : string) :
  endsNumber rest = true ->
  Parse.parseInt (Parse.natToString n ++ rest) = Num.ofZ (Z.of_nat n).
Proof.
  intros Hrest.
  destruct (natToString_digits n) as [d [E [Hd Hlen]]].
  assert (Hends : endsDigits rest = true).
  { destruct rest as [|x rest']; [reflexivity|]. simpl in *.
    rewrite !andb_true_iff in Hrest. tauto. }
  pose proof (readDigits_uint d rest 0 0 Hends) as Hread.
  fold (Nat.of_uint d) in Hread. rewrite Hd in Hread.
  rewrite E. pose proof (all_digits_uint d) as Hall.
  destruct (NilEmpty.string_of_uint d) as [|c r] eqn:Es.
  { destruct d; simpl in *; try discriminate Es; lia. }
  cbn [Str.all] in Hall. apply andb_true_iff in Hall as [Hc Hr].
  rewrite append_cons in *.
  rewrite parseInt_radix10.
  - change (Z.of_nat 0) with 0 in Hread. rewrite Hread.
    destruct (0 + Decimal.nb_digits d)%nat eqn:En; [lia|].
    rewrite Z.mul_1_l. reflexivity.
  - exact Hc.
  - destruct r as [|x r'].
    + rewrite append_empty. destruct rest as [|y rest']; [reflexivity|].
      simpl in Hrest. rewrite !andb_true_iff in Hrest.
      destruct Hrest as [[_ H1] H2].
      apply negb_true_iff in H1, H2. rewrite H1, H2. reflexivity.
    + rewrite append_cons. cbn [Str.all] in Hr.
      apply andb_true_iff in Hr as [Hx _].
      rewrite (digit_not_x x Hx). reflexivity.
Qed.

Lemma natToString_injective (n m : nat) :
  Parse.natToString n = Parse.natToString m -> n = m.
Proof.
  intros E.
  pose proof (parseInt_natToString n EmptyString eq_refl) as Hn.
  pose proof (parseInt_natToString m EmptyString eq_refl) as Hm.
  assert (Happ : forall s, s ++ EmptyString = s).
  { induction s as [|c r IH]; [reflexivity|]. rewrite append_cons, IH. reflexivity. }
  rewrite Happ in Hn, Hm. rewrite E, Hm in Hn.
  unfold Num.ofZ in Hn. injection Hn as Hn. lia.
Qed.

(* ================================================================== *)
(** ** Further properties: the employee median *)
(* ================================================================== *)


Lemma includes_app_r (k a b : string) :
  Str.includes k b = true -> Str.includes k (a ++ b) = true.
Proof.
  intros Hb. induction a as [|c r IH]; [exact Hb|].
  rewrite append_cons. cbn [Str.includes]. rewrite IH. apply orb_true_r.
Qed.






Lemma readDigits_nonneg (radix : Z) (s : string) (acc : Z) (k : nat) :
  0 <= radix -> 0 <= acc ->
  0 <= fst (fst (Parse.readDigits radix s acc k)).
Proof.
  intros Hr. revert acc k. induction s as [|c r IH]; intros acc k Hacc;
    cbn [Parse.readDigits]; [exact Hacc|].
  destruct (Parse.digitVal c) as [d|] eqn:Ed; [|exact Hacc].
  destruct (d <? radix); [|exact Hacc].
  apply IH. assert (0 <= d); [|nia].
  unfold Parse.digitVal in Ed.
  repeat match type of Ed with
         | (if ?b then _ else _) = _ => destruct b eqn:?
         end; try discriminate Ed; injection Ed as <-; lia.
Qed.

Lemma includes_trimStart (k s : string) :
  Str.includes k (Str.trimStart s) = true -> Str.includes k s = true.
Proof.
  induction s as [|c r IH]; [trivial|].
  cbn [Str.trimStart]. destruct (Str.isWhite c); [|trivial].
  intros H. cbn [Str.includes]. rewrite (IH H). apply orb_true_r.
Qed.

Lemma parseInt_without_hyphen (s : string) :
  Str.includes "-" s = false ->
  Parse.parseInt s = NaN
  \/ exists v, Parse.parseInt s = Num.ofZ v /\ 0 <= v.
Proof.
  intros Hs. unfold Parse.parseInt.
  assert (Hsign : exists s1, Parse.readSign (Str.trimStart s) = (1, s1)).
  { destruct (Str.trimStart s) as [|c r] eqn:Et; [eexists; reflexivity|].
    destruct (Ascii.eqb c "-") eqn:Ec.
    - apply Ascii.eqb_eq in Ec. subst c. exfalso.
      assert (Str.includes "-" s = true); [|congruence].
      apply includes_trimStart. rewrite Et. reflexivity.
    - destruct c as [[|] [|] [|] [|] [|] [|] [|] [|]];
        try discriminate Ec; eexists; reflexivity. }
  destruct Hsign as [s1 ->].
  set (p := match s1 with
            | String "0"%char (String x r) =>
                if Ascii.eqb x "x" || Ascii.eqb x "X" then (16, r) else (10, s1)
            | _ => (10, s1)
            end).
  assert (Hp : 0 <= fst p).
  { subst p. destruct s1 as [|c [|x r]]; simpl; try lia.
    - destruct c as [[|] [|] [|] [|] [|] [|] [|] [|]]; simpl; lia.
    - destruct c as [[|] [|] [|] [|] [|] [|] [|] [|]]; simpl; try lia.
      destruct (Ascii.eqb x "x" || Ascii.eqb x "X"); simpl; lia. }
  destruct p as [radix s2]. simpl in Hp.
  pose proof (readDigits_nonneg radix s2 0 0 Hp (Z.le_refl 0)) as Hv.
  destruct (Parse.readDigits radix s2 0 0) as [[v k] rest]. simpl in Hv.
  destruct k; [left; reflexivity|].
  right. exists v. rewrite Z.mul_1_l. split; [reflexivity | exact Hv].
Qed.

(** Without a plus and without a hyphen the employee median is never NaN
    and never below 0 (a text that is absent, empty or not a number
    counts as 0), and for a text of at most 255 characters, whose numeral
    cannot overflow in binary64, it is a finite number. *)
Theorem parseEmployeeCount_bare (range : option string) :
  (forall r, range = Some r ->
             Str.includes "+" r = false /\ Str.includes "-" r = false) ->
  parseEmployeeCount range <> NaN
  /\ Num.ltb (parseEmployeeCount range) (Fin 0) = false
  /\ ((forall r, range = Some r -> (String.length r <= 255)%nat) ->
      nonNegative (parseEmployeeCount range) = true).
Proof.
  intros Hr.
  assert (H : nonNegative (parseEmployeeCount range) = true);
    [|destruct (parseEmployeeCount range) as [| | |q];
      try discriminate H; cbn [nonNegative] in H;
      split; [discriminate|]; split; [|intros _; exact H];
      cbn [Num.ltb]; rewrite H; reflexivity].
  unfold parseEmployeeCount.
  destruct range as [r|]; [|reflexivity].
  destruct (Hr r eq_refl) as [Hplus Hhyphen].
  destruct (Str.isEmpty r); [reflexivity|].
  rewrite Hplus, Hhyphen.
  destruct (parseInt_without_hyphen r Hhyphen) as [->|[v [-> Hv]]];
    [reflexivity|].
  unfold Num.orElse, Num.truthy, Num.ofZ.
  destruct (Qeq_bool (inject_Z v) 0); simpl; [reflexivity|].
  apply Qle_bool_iff. change 0%Q with (inject_Z 0). rewrite <- Zle_Qle. exact Hv.
Qed.

(* ================================================================== *)
(** ** Further properties: normalization *)
(* ================================================================== *)

Lemma normalize_fraction (v lo hi : Q) :
  (lo < hi)%Q ->
  normalize (Fin v) (Fin lo) (Fin hi) = Fin ((v + - lo) / (hi + - lo)).
Proof.
  intros Hlt. unfold normalize. simpl.
  destruct (Qeq_bool hi lo) eqn:E1.
  { apply Qeq_bool_iff in E1. lra. }
  destruct (Qeq_bool (hi + - lo) 0) eqn:E2.
  { apply Qeq_bool_iff in E2. lra. }
  reflexivity.
Qed.

(** [normalize] of a value between two bounds of bounded magnitude (so
    that their difference does not overflow in binary64) is a finite
    number between 0 and 1: it is 0 when the bounds are equal and at the
    lower bound, 1 at an upper bound above the lower one, and it does not
    decrease when the value grows. *)
Theorem normalize_in_unit_interval (v lo hi : Q) :
  withinMagnitude (Fin lo) = true -> withinMagnitude (Fin hi) = true ->
  (lo <= v)%Q -> (v <= hi)%Q ->
  exists q,
    normalize (Fin v) (Fin lo) (Fin hi) = Fin q
    /\ (0 <= q)%Q /\ (q <= 1)%Q
    /\ (hi == lo -> q == 0)%Q
    /\ (v == lo -> q == 0)%Q
    /\ (lo < hi -> v == hi -> q == 1)%Q
    /\ forall v', (v <= v')%Q -> (v' <= hi)%Q ->
          exists q', normalize (Fin v') (Fin lo) (Fin hi) = Fin q'
                     /\ (q <= q')%Q.
Proof.
  intros _ _ Hlo Hhi.
  destruct (Qeq_bool hi lo) eqn:E.
  - exists 0%Q. unfold normalize. simpl. rewrite E.
    apply Qeq_bool_iff in E.
    repeat split; try lra.
    intros v' _ _. exists 0%Q. split; [reflexivity | lra].
  - assert (Hne : ~ (hi == lo)%Q) by (rewrite <- Qeq_bool_iff; congruence).
    assert (Hlt : (lo < hi)%Q) by lra.
    exists ((v + - lo) / (hi + - lo))%Q.
    split; [apply normalize_fraction, Hlt|].
    split; [apply Qle_shift_div_l; lra|].
    split; [apply Qle_shift_div_r; lra|].
    split; [intros H; contradiction|].
    split; [intros H; rewrite H; field; lra|].
    split; [intros _ H; rewrite H; field; lra|].
    intros v' Hv Hv'. exists ((v' + - lo) / (hi + - lo))%Q.
    split; [apply normalize_fraction, Hlt|].
    apply Qle_shift_div_l; [lra|].
    assert (E' : ((v + - lo) / (hi + - lo) * (hi + - lo) == v + - lo)%Q)
      by (field; lra).
    rewrite E'. lra.
Qed.

Lemma boundedFields_parts (c : Normalized) :
  boundedFields c = true ->
  Num.isFinite (_fundAmt c) = true /\ Num.isFinite (_articles c) = true
  /\ Num.isFinite (_rank c) = true /\ Num.isFinite (_rounds c) = true.
Proof.
  unfold boundedFields. rewrite !andb_true_iff.
  intros [[[H1 H2] H3] H4].
  repeat split; apply withinMagnitude_isFinite; assumption.
Qed.

(** In a batch of finite numbers of bounded magnitude (at most [2^1022],
    so that no difference of two of them overflows in binary64) no
    normalized value of the scoring is NaN or infinite: the amount and the
    rank normalize into [0,1]; the article and round counts, normalized
    from 0, are at most 1 (and negative when the count is). *)
Theorem batch_normalization_finite (batch : list Normalized) (c : Normalized) :
  (forall x, In x batch -> boundedFields x = true) -> In c batch ->
  let b := batchBounds batch in
  Num.between 0 1 (normalize (_fundAmt c) (minFund b) (maxFund b))
  /\ Num.between 0 1 (normalize (_rank c) (minRank b) (maxRank b))
  /\ atMost 1 (normalize (_articles c) (Fin 0) (maxArticles b))
  /\ atMost 1 (normalize (_rounds c) (Fin 0) (maxRounds b)).
Proof.
  intros Hfin Hc.
  assert (Hparts := fun x Hx => boundedFields_parts x (Hfin x Hx)).
  destruct (Hparts c Hc) as [Hamt [Hart [Hrank Hrnd]]].
  apply isFinite_fin in Hamt as [amt Hamt].
  apply isFinite_fin in Hart as [art Hart].
  apply isFinite_fin in Hrank as [rank Hrank].
  apply isFinite_fin in Hrnd as [rnd Hrnd].
  destruct (maxOf_floor (List.map _fundAmt batch) 1) as [hiFund [EhiF [? HhiF]]].
  { apply allFinite_map. intros x Hx. apply (Hparts x Hx). }
  destruct (minOf_ceiling (List.map _fundAmt batch) 0) as [loFund [EloF [? HloF]]].
  { apply allFinite_map. intros x Hx. apply (Hparts x Hx). }
  destruct (maxOf_floor (List.map _articles batch) 1) as [hiArt [EhiA [? HhiA]]].
  { apply allFinite_map. intros x Hx. apply (Hparts x Hx). }
  destruct (maxOf_floor (List.map _rounds batch) 1) as [hiRnd [EhiR [? HhiR]]].
  { apply allFinite_map. intros x Hx. apply (Hparts x Hx). }
  destruct (minOf_ceiling (List.map _rank batch) 1) as [loRank [EloK [? HloK]]].
  { apply allFinite_map. intros x Hx. apply (Hparts x Hx). }
  destruct (maxOf_floor (List.map _rank batch) 100000) as [hiRank [EhiK [? HhiK]]].
  { apply allFinite_map. intros x Hx. apply (Hparts x Hx). }
  assert (Hin : forall (proj : Normalized -> num) q,
             proj c = Fin q -> In (Fin q) (List.map proj batch)).
  { intros proj q <-. apply in_map, Hc. }
  cbv zeta. unfold batchBounds.
  cbn [minFund maxFund minRank maxRank maxArticles maxRounds].
  rewrite EhiF, EloF, EhiA, EhiR, EloK, EhiK, Hamt, Hart, Hrank, Hrnd.
  pose proof (HhiF amt (Hin _ _ Hamt)). pose proof (HloF amt (Hin _ _ Hamt)).
  pose proof (HhiK rank (Hin _ _ Hrank)). pose proof (HloK rank (Hin _ _ Hrank)).
  pose proof (HhiA art (Hin _ _ Hart)). pose proof (HhiR rnd (Hin _ _ Hrnd)).
  rewrite !normalize_fraction by lra.
  cbn [Num.between atMost].
  repeat split;
    first [apply Qle_shift_div_l; lra | apply Qle_shift_div_r; lra].
Qed.

(* ================================================================== *)
(** ** Further properties: the investor names of a record *)
(* ================================================================== *)

Lemma In_unique (seen xs : list string) (x : string) :
  In x (Js.unique seen xs) <-> In x xs /\ ~ In x seen.
Proof.
  revert seen. induction xs as [|y r IH]; intros seen; simpl; [tauto|].
  destruct (bool_decide (y ∈ seen)) eqn:E.
  - apply bool_decide_eq_true in E. apply list_elem_of_In in E.
    rewrite IH. split; [tauto|]. intros [[<-|H] Hn]; tauto.
  - apply bool_decide_eq_false in E. rewrite list_elem_of_In in E.
    simpl. rewrite IH. simpl. split.
    + intros [<-|[H1 H2]]; tauto.
    + intros [[<-|H] Hn]; [tauto|].
      destruct (string_dec y x) as [->|Hne]; tauto.
Qed.

Lemma NoDup_unique (seen xs : list string) : List.NoDup (Js.unique seen xs).
Proof.
  revert seen. induction xs as [|y r IH]; intros seen; simpl; [constructor|].
  destruct (bool_decide (y ∈ seen)); [apply IH|].
  constructor; [|apply IH].
  rewrite In_unique. simpl. tauto.
Qed.

Lemma split_app (sep : ascii) (a b : string) :
  Str.split sep (a ++ String sep b)
  = (Str.split sep a ++ Str.split sep b)%list.
Proof.
  induction a as [|c r IH].
  - rewrite append_empty. cbn [Str.split]. rewrite Ascii.eqb_refl. reflexivity.
  - rewrite append_cons. cbn [Str.split]. rewrite IH.
    destruct (Ascii.eqb c sep); [reflexivity|].
    pose proof (split_nonempty sep r) as Hne.
    destruct (Str.split sep r); [contradiction | reflexivity].
Qed.

Lemma split_join (sep : ascii) (xs : list string) :
  xs <> [] ->
  Str.split sep (Str.join (Str.str1 sep) xs)
  = concat (List.map (Str.split sep) xs).
Proof.
  induction xs as [|x [|y r] IH]; intros Hne.
  - contradiction.
  - simpl. rewrite app_nil_r. reflexivity.
  - change (Str.join (Str.str1 sep) (x :: y :: r))
      with (x ++ String sep (Str.join (Str.str1 sep) (y :: r))).
    rewrite split_app, IH by discriminate. reflexivity.
Qed.

Lemma In_truthy_omap (os : list (option string)) (v : string) :
  In v (omap (fun o => if Js.truthy o then o else None) os)
  <-> v <> EmptyString /\ In (Some v) os.
Proof.
  induction os as [|o r IH]; simpl; [tauto|].
  destruct o as [[|c t]|]; simpl; rewrite ?IH.
  - split; [tauto|]. intros [Hne [[= <-]|H]]; [contradiction | tauto].
  - split.
    + intros [<-|[H1 H2]]; [split; [discriminate | tauto] | tauto].
    + intros [Hne [[= <-]|H]]; tauto.
  - split; [tauto|]. intros [Hne [H|H]]; [discriminate | tauto].
Qed.

(** The investor names of a record are exactly the comma-separated
    pieces of its three investor columns, trimmed and without a quote at
    either end, that are longer than two characters and do not hold the
    word undisclosed; each name is listed once. *)
Theorem extractInvestors_spec (row : RawCompanyData) :
  List.NoDup (extractInvestors row)
  /\ forall s,
       In s (extractInvestors row)
       <-> keptName s = true
           /\ exists key v piece,
                In key investorKeys /\ row !! key = Some v
                /\ In piece (Str.split Str.comma v)
                /\ s = Str.stripQuotes (Str.trim piece).
Proof.
  split; [apply NoDup_unique|]. intros s.
  unfold extractInvestors. rewrite In_unique, filter_In, in_map_iff.
  fold (keptName s).
  set (fields := omap _ _).
  assert (Hfields : forall v, In v fields
            <-> v <> EmptyString
                /\ exists key, In key investorKeys /\ row !! key = Some v).
  { intros v. subst fields. rewrite In_truthy_omap. unfold investorKeys.
    simpl. split.
    - intros [Hne [H|[H|[H|[]]]]]; (split; [exact Hne|]); eauto 6.
    - intros [Hne [key [[<-|[<-|[<-|[]]]] Hv]]]; rewrite Hv; tauto. }
  split.
  - intros [[Hin Hkept] _]. split; [exact Hkept|].
    destruct Hin as [piece [<- Hpiece]].
    destruct fields as [|f fs] eqn:Ef.
    { simpl in Hpiece. destruct Hpiece as [<-|[]]. discriminate Hkept. }
    rewrite (split_join Str.comma) in Hpiece by discriminate.
    apply in_concat in Hpiece as [pieces [Hp1 Hp2]].
    apply in_map_iff in Hp1 as [v [<- Hv]].
    apply Hfields in Hv as [_ [key [Hkey Hrow]]].
    exists key, v, piece. tauto.
  - intros [Hkept [key [v [piece [Hkey [Hrow [Hpiece ->]]]]]]].
    split; [|simpl; tauto]. split; [|exact Hkept].
    exists piece. split; [reflexivity|].
    assert (Hne : v <> EmptyString).
    { intros ->. simpl in Hpiece. destruct Hpiece as [<-|[]].
      discriminate Hkept. }
    assert (Hv : In v fields) by (apply Hfields; eauto).
    destruct fields as [|f fs] eqn:Ef; [destruct Hv|].
    rewrite (split_join Str.comma) by discriminate.
    apply in_concat. exists (Str.split Str.comma v).
    split; [apply in_map, Hv | exact Hpiece].
Qed.

(* ================================================================== *)
(** ** Further properties: the investor pass *)
(* ================================================================== *)

Lemma mapGet_investorStep (c : ScoredCompany)
    (m : list (string * InvestorEntry)) (invName k : string) :
  Js.mapGet k (investorStep c m invName)
  = if decide (invName = k)
    then Some (bumpInvestor (default zeroInvestor (Js.mapGet k m)) c)
    else Js.mapGet k m.
Proof.
  unfold investorStep.
  set (m1 := match Js.mapGet invName m with
             | Some _ => m
             | None => Js.mapSet invName _ m
             end).
  assert (H1 : Js.mapGet invName m1
               = Some (default zeroInvestor (Js.mapGet invName m))).
  { subst m1. destruct (Js.mapGet invName m) eqn:E; simpl; [exact E|].
    apply mapGet_mapSet_eq. }
  assert (H2 : forall k', invName <> k' -> Js.mapGet k' m1 = Js.mapGet k' m).
  { intros k' Hne. subst m1. destruct (Js.mapGet invName m); [reflexivity|].
    apply mapGet_mapSet_ne, Hne. }
  rewrite H1. destruct (decide (invName = k)) as [<-|Hne].
  - rewrite mapGet_mapSet_eq. reflexivity.
  - rewrite mapGet_mapSet_ne by exact Hne. apply H2, Hne.
Qed.

Lemma keys_investorStep (c : ScoredCompany)
    (m : list (string * InvestorEntry)) (invName : string) :
  List.NoDup (List.map fst m) ->
  List.NoDup (List.map fst (investorStep c m invName)).
Proof.
  intros Hm. unfold investorStep.
  set (m1 := match Js.mapGet invName m with Some _ => m | None => _ end).
  assert (H1 : List.NoDup (List.map fst m1)).
  { subst m1. destruct (Js.mapGet _ m); [exact Hm | apply NoDup_mapSet, Hm]. }
  destruct (Js.mapGet _ m1); [apply NoDup_mapSet, H1 | exact H1].
Qed.

(** One company adds to the entries of the investors it lists, once
    each. *)
Lemma mapGet_company (c : ScoredCompany) (invs : list string)
    (m : list (string * InvestorEntry)) (k : string) :
  List.NoDup invs ->
  Js.mapGet k (fold_left (investorStep c) invs m)
  = if bool_decide (k ∈ invs)
    then Some (bumpInvestor (default zeroInvestor (Js.mapGet k m)) c)
    else Js.mapGet k m.
Proof.
  revert m. induction invs as [|x r IH]; intros m Hnd; cbn [fold_left].
  - reflexivity.
  - apply NoDup_cons_iff in Hnd as [Hx Hr].
    rewrite (IH _ Hr), mapGet_investorStep.
    destruct (decide (x = k)) as [->|Hne].
    + rewrite (bool_decide_eq_false_2 (k ∈ r))
        by (rewrite list_elem_of_In; exact Hx).
      rewrite bool_decide_eq_true_2 by (left).
      reflexivity.
    + destruct (bool_decide (k ∈ r)) eqn:E.
      * apply bool_decide_eq_true in E.
        rewrite bool_decide_eq_true_2 by (right; exact E). reflexivity.
      * apply bool_decide_eq_false in E.
        rewrite bool_decide_eq_false_2; [reflexivity|].
        intros [->|H]%elem_of_cons; [congruence | contradiction].
Qed.

Lemma investorPass_fold (scored : list ScoredCompany)
    (m : list (string * InvestorEntry)) :
  List.NoDup (List.map fst m) ->
  let m' := fold_left
              (fun investorMap c =>
                 fold_left (investorStep c) (extractInvestors (raw (source c)))
                           investorMap) scored m in
  List.NoDup (List.map fst m')
  /\ forall k,
       Js.mapGet k m'
       = match backed k scored with
         | [] => Js.mapGet k m
         | b => Some (fold_left bumpInvestor b
                        (default zeroInvestor (Js.mapGet k m)))
         end.
Proof.
  revert m. induction scored as [|c r IH]; intros m Hm; cbn zeta.
  - split; [exact Hm | reflexivity].
  - cbn [fold_left].
    set (m1 := fold_left (investorStep c) (extractInvestors (raw (source c))) m).
    assert (Hm1 : List.NoDup (List.map fst m1)).
    { subst m1. apply (fold_left_invariant (fun x => List.NoDup (List.map fst x)));
        [intros acc x; apply keys_investorStep | exact Hm]. }
    destruct (IH m1 Hm1) as [Hnd Hget]. split; [exact Hnd|].
    intros k. rewrite Hget. subst m1.
    rewrite mapGet_company by apply NoDup_unique.
    unfold backed. cbn [List.filter]. unfold backs at 2.
    destruct (bool_decide (k ∈ extractInvestors (raw (source c)))).
    + cbn [fold_left]. destruct (List.filter (backs k) r); reflexivity.
    + reflexivity.
Qed.

(** The entries of the investor map: one per investor that some company
    lists, built from the companies that list it, in their order. *)
Lemma investorPass_entries (scored : list ScoredCompany) (k : string)
    (e : InvestorEntry) :
  In (k, e) (investorPass scored)
  <-> backed k scored <> []
      /\ e = fold_left bumpInvestor (backed k scored) zeroInvestor.
Proof.
  destruct (investorPass_fold scored [] (List.NoDup_nil _)) as [Hnd Hget].
  fold (investorPass scored) in Hnd, Hget. split.
  - intros Hin. apply (In_mapGet _ _ _ Hnd) in Hin. rewrite Hget in Hin.
    destruct (backed k scored); [discriminate Hin|].
    injection Hin as <-. split; [discriminate | reflexivity].
  - intros [Hb ->]. apply mapGet_In. rewrite Hget.
    destruct (backed k scored); [contradiction | reflexivity].
Qed.

Lemma fold_bumpInvestor (b : list ScoredCompany) (e : InvestorEntry) :
  let e' := fold_left bumpInvestor b e in
  entry_count e' = (entry_count e + List.length b)%nat
  /\ nAI (themeCounts e') = (nAI (themeCounts e) + countTheme ai b)%nat
  /\ nClimate (themeCounts e')
     = (nClimate (themeCounts e) + countTheme climate b)%nat
  /\ nFintech (themeCounts e')
     = (nFintech (themeCounts e) + countTheme fintech b)%nat
  /\ nHealthcare (themeCounts e')
     = (nHealthcare (themeCounts e) + countTheme healthcare b)%nat
  /\ nSaaS (themeCounts e') = (nSaaS (themeCounts e) + countTheme saas b)%nat
  /\ nConsumer (themeCounts e')
     = (nConsumer (themeCounts e) + countTheme consumer b)%nat.
Proof.
  revert e. induction b as [|c r IH]; intros e; cbn zeta.
  - unfold countTheme. simpl. repeat split; lia.
  - cbn [fold_left]. specialize (IH (bumpInvestor e c)). cbn zeta in IH.
    destruct IH as [H0 [H1 [H2 [H3 [H4 [H5 H6]]]]]].
    rewrite H0, H1, H2, H3, H4, H5, H6.
    cbn [bumpInvestor entry_count themeCounts bumpCounts nAI nClimate
         nFintech nHealthcare nSaaS nConsumer List.length].
    rewrite !bumpIf_count. repeat split; lia.
Qed.

Lemma themeCounts_of_backed (b : list ScoredCompany) :
  themeCounts (fold_left bumpInvestor b zeroInvestor) = talliesOf b.
Proof.
  destruct (fold_bumpInvestor b zeroInvestor) as [_ [H1 [H2 [H3 [H4 [H5 H6]]]]]].
  destruct (themeCounts (fold_left bumpInvestor b zeroInvestor)) eqn:E.
  unfold talliesOf. simpl in *. congruence.
Qed.

(** The count of an investor of the result is the number of companies of
    the batch that list it, which is at least one, and its top themes are
    those of the theme tallies of these companies. *)
Theorem investor_count_is_deals (fullYearOf : string -> option Z)
    (currentYear : Z) (exponentForm : Q -> string)
    (rawData : list RawCompanyData) (st : InvestorStat) :
  In st (investors (processData fullYearOf currentYear exponentForm rawData)) ->
  let deals := backed (name st) (scoreAll rawData) in
  count st = List.length deals
  /\ (1 <= count st)%nat
  /\ topThemes st = sortedThemes (talliesOf deals).
Proof.
  cbn [investors processData]. intros Hst.
  destruct (In_investorsOf _ _ Hst) as [e [He Heq]].
  apply investorPass_entries in He as [Hne ->].
  cbn zeta. rewrite Heq.
  cbn [investorStat count topThemes name fst snd].
  rewrite themeCounts_of_backed.
  destruct (fold_bumpInvestor (backed (name st) (scoreAll rawData)) zeroInvestor)
    as [-> _].
  cbn [zeroInvestor entry_count Nat.add].
  repeat split.
  destruct (backed (name st) (scoreAll rawData)); [contradiction | simpl; lia].
Qed.

Section SetterFold.
Context {A K V : Type} `{EqDecision K}.
Variables (key : A -> K) (val : A -> V).

Lemma keys_fold_mapSet (cs : list A) (p : list (K * V)) (k : K) :
  In k (List.map fst (fold_left (fun p c => Js.mapSet (key c) (val c) p) cs p))
  <-> In k (List.map fst p) \/ exists c, In c cs /\ key c = k.
Proof.
  revert p. induction cs as [|c r IH]; intros p; cbn [fold_left].
  - split; [tauto | intros [H|[c [[] _]]]; exact H].
  - rewrite IH, keys_mapSet. split.
    + intros [[->|H]|[c' [Hc' Hk]]];
        [right; exists c; split; [left|]; reflexivity | tauto |].
      right. exists c'. simpl. tauto.
    + intros [H|[c' [[<-|Hc'] Hk]]]; [tauto | left; left; congruence |].
      right. exists c'. tauto.
Qed.

Lemma NoDup_fold_mapSet (cs : list A) (p : list (K * V)) :
  List.NoDup (List.map fst p) ->
  List.NoDup (List.map fst (fold_left (fun p c => Js.mapSet (key c) (val c) p) cs p)).
Proof.
  apply (fold_left_invariant (fun x => List.NoDup (List.map fst x))).
  intros acc x. apply NoDup_mapSet.
Qed.

(** An entry of the map after the writes is an entry it had that no
    write touched, or what the last write to its key wrote. *)
Lemma In_fold_mapSet (cs : list A) (p : list (K * V)) (k : K) (v : V) :
  List.NoDup (List.map fst p) ->
  In (k, v) (fold_left (fun p c => Js.mapSet (key c) (val c) p) cs p) ->
  (In (k, v) p /\ forall c, In c cs -> key c <> k)
  \/ exists l1 c l2,
       cs = (l1 ++ c :: l2)%list /\ key c = k /\ val c = v
       /\ forall c', In c' l2 -> key c' <> k.
Proof.
  revert p. induction cs as [|c r IH]; intros p Hnd Hin; cbn [fold_left] in Hin.
  - left. split; [exact Hin | intros c []].
  - destruct (IH _ (NoDup_mapSet p (key c) (val c) Hnd) Hin)
      as [[Hp Hr]|[l1 [c0 [l2 [-> [Hk [Hv Hl2]]]]]]].
    + assert (Hhere : key c = k -> val c = v).
      { intros Ek. apply (In_mapGet _ _ _ (NoDup_mapSet p (key c) (val c) Hnd)) in Hp.
        rewrite <- Ek, mapGet_mapSet_eq in Hp. congruence. }
      destruct (decide (key c = k)) as [Ek|Ek].
      * right. exists [], c, r. repeat split; auto.
      * left. split.
        -- apply In_mapSet in Hp as [[E _]|Hp]; [congruence | exact Hp].
        -- intros c' [<-|Hc']; [exact Ek | apply Hr, Hc'].
    + right. exists (c :: l1), c0, l2. repeat split; auto.
Qed.
End SetterFold.

Lemma portfolio_of_backed (b : list ScoredCompany) (e : InvestorEntry) :
  entry_portfolio (fold_left bumpInvestor b e)
  = fold_left
      (fun p c => Js.mapSet (field c "Organization Name")
                            (activeThemes (themes c)) p)
      b (entry_portfolio e).
Proof.
  revert e. induction b as [|c r IH]; intros e; cbn [fold_left]; [reflexivity|].
  rewrite IH. reflexivity.
Qed.

(** The portfolio of an investor of the result names each organization
    name of the companies that list the investor exactly once, with the
    themes of the last of these companies that bears the name. *)
Theorem investor_portfolio (fullYearOf : string -> option Z)
    (currentYear : Z) (exponentForm : Q -> string)
    (rawData : list RawCompanyData) (st : InvestorStat) :
  In st (investors (processData fullYearOf currentYear exponentForm rawData)) ->
  let deals := backed (name st) (scoreAll rawData) in
  List.NoDup (List.map item_name (portfolio st))
  /\ (forall nm,
        In nm (List.map item_name (portfolio st))
        <-> exists c, In c deals /\ field c "Organization Name" = nm)
  /\ (forall item, In item (portfolio st) ->
        exists l1 c l2,
          deals = (l1 ++ c :: l2)%list
          /\ field c "Organization Name" = item_name item
          /\ activeThemes (themes c) = item_themes item
          /\ forall c', In c' l2 ->
                        field c' "Organization Name" <> item_name item).
Proof.
  cbn [investors processData]. intros Hst.
  destruct (In_investorsOf _ _ Hst) as [e [He Heq]].
  apply investorPass_entries in He as [Hne ->].
  cbn zeta. rewrite Heq.
  cbn [investorStat portfolio name fst snd].
  rewrite portfolio_of_backed. cbn [zeroInvestor entry_portfolio].
  set (deals := backed (name st) (scoreAll rawData)).
  set (p := fold_left _ deals []).
  assert (Hnames : List.map item_name
                     (List.map (fun q => {| item_name := fst q;
                                            item_themes := snd q |}) p)
                   = List.map fst p).
  { rewrite map_map. apply map_ext. reflexivity. }
  rewrite Hnames. split; [|split].
  - subst p. apply (NoDup_fold_mapSet (fun c => field c "Organization Name")
                      (fun c => activeThemes (themes c))).
    constructor.
  - intros nm. subst p.
    rewrite (keys_fold_mapSet (fun c => field c "Organization Name")
               (fun c => activeThemes (themes c))).
    simpl. tauto.
  - intros item Hitem. apply in_map_iff in Hitem as [[k v] [<- Hkv]].
    subst p.
    apply (In_fold_mapSet (fun c => field c "Organization Name")
             (fun c => activeThemes (themes c))) in Hkv; [|constructor].
    destruct Hkv as [[[] _]|H]. exact H.
Qed.

Lemma StronglySorted_trivial {A : Type} (l : list A) :
  StronglySorted (fun _ _ => True) l.
Proof.
  induction l as [|x r IH]; constructor; [exact IH|].
  rewrite List.Forall_forall. intros; exact I.
Qed.

Lemma after_counts (a b : nat) :
  Num.ltb (Fin 0) (Num.ofNat b - Num.ofNat a)%num = (a <? b)%nat.
Proof.
  change (Num.ofNat b) with (Num.ofZ (Z.of_nat b)).
  change (Num.ofNat a) with (Num.ofZ (Z.of_nat a)).
  rewrite after_difference.
  destruct (Nat.ltb_spec a b); [apply Z.ltb_lt | apply Z.ltb_ge]; lia.
Qed.

(** The investors of the result: at most 50, each name once, listed
    from the largest count to the smallest; an investor of the batch that
    is not listed was cut by the cap and has no more deals than any
    listed one. *)
Theorem investors_ranked_and_capped (fullYearOf : string -> option Z)
    (currentYear : Z) (exponentForm : Q -> string)
    (rawData : list RawCompanyData) :
  let listed :=
    investors (processData fullYearOf currentYear exponentForm rawData) in
  (List.length listed <= 50)%nat
  /\ List.NoDup (List.map name listed)
  /\ StronglySorted (fun a b => (count b <= count a)%nat) listed
  /\ (forall inv,
        backed inv (scoreAll rawData) <> [] ->
        ~ In inv (List.map name listed) ->
        List.length listed = 50%nat
        /\ forall st, In st listed ->
             (List.length (backed inv (scoreAll rawData)) <= count st)%nat).
Proof.
  cbn [investors processData]. unfold investorsOf.
  set (scored := scoreAll rawData).
  set (cmp := fun a b : InvestorStat => (Num.ofNat (count b) - Num.ofNat (count a))%num).
  set (stats := List.map investorStat (investorPass scored)).
  cbn zeta.
  assert (Hsorted : StronglySorted (fun a b => (count b <= count a)%nat)
                      (Js.sort cmp stats)).
  { apply (sort_sorted cmp (fun _ _ => True)).
    - intros x y z. lia.
    - intros x y. unfold Js.after, cmp. rewrite after_counts.
      intros H%Nat.ltb_lt. lia.
    - intros x y. unfold Js.after, cmp. rewrite after_counts.
      intros H%Nat.ltb_ge _. exact H.
    - apply StronglySorted_trivial. }
  assert (Hnames : List.NoDup (List.map name (Js.sort cmp stats))).
  { apply (Permutation_NoDup (l := List.map name stats)).
    - apply Permutation_map, Permutation_sym, sort_perm.
    - subst stats. rewrite map_map.
      apply (investorPass_fold scored [] (List.NoDup_nil _)). }
  rewrite <- (take_drop 50 (Js.sort cmp stats)) in Hsorted, Hnames.
  apply StronglySorted_app_parts in Hsorted as [Hs Hcross].
  rewrite map_app in Hnames. apply NoDup_app_remove_r in Hnames.
  split; [rewrite length_take; lia|].
  split; [exact Hnames|]. split; [exact Hs|].
  intros inv Hne Hnot.
  set (e := fold_left bumpInvestor (backed inv scored) zeroInvestor).
  assert (Hpass : In (inv, e) (investorPass scored))
    by (apply investorPass_entries; split; [exact Hne | reflexivity]).
  assert (Hin : In (investorStat (inv, e)) (Js.sort cmp stats)).
  { apply In_sort. subst stats. apply in_map, Hpass. }
  rewrite <- (take_drop 50 (Js.sort cmp stats)) in Hin.
  apply in_app_or in Hin as [Hin|Hin].
  { exfalso. apply Hnot. apply in_map_iff.
    exists (investorStat (inv, e)). split; [reflexivity | exact Hin]. }
  split.
  - rewrite length_take.
    destruct (le_lt_dec (List.length (Js.sort cmp stats)) 50) as [Hle|Hgt];
      [|lia].
    rewrite drop_ge in Hin by exact Hle. destruct Hin.
  - intros st Hst. specialize (Hcross st _ Hst Hin).
    cbn [investorStat count snd] in Hcross.
    destruct (fold_bumpInvestor (backed inv scored) zeroInvestor) as [Hc _].
    fold e in Hc. rewrite Hc in Hcross. simpl in Hcross. exact Hcross.
Qed.

(* ================================================================== *)
(** ** Further properties: the companies of the result *)
(* ================================================================== *)

Section SortOn.
Context {A : Type} (cmp : A -> A -> num).
Variables (D : A -> Prop) (R : A -> A -> Prop).
Hypothesis R_trans : forall x y z, R x y -> R y z -> R x z.
Hypothesis after_R : forall x y, D x -> D y -> Js.after cmp x y = true -> R y x.
Hypothesis keep_R : forall x y, D x -> D y -> Js.after cmp x y = false -> R x y.

Lemma insert_sorted_on (x : A) (l : list A) :
  D x -> List.Forall D l -> StronglySorted R l ->
  StronglySorted R (Js.insert cmp x l).
Proof.
  intros Hx. induction l as [|y r IH]; simpl; intros Hl Hs.
  - constructor; constructor.
  - apply StronglySorted_inv in Hs as [Hr Hy].
    pose proof (List.Forall_inv Hl) as Dy.
    apply List.Forall_inv_tail in Hl.
    destruct (Js.after cmp x y) eqn:E.
    + constructor; [apply IH; assumption|].
      rewrite List.Forall_forall. intros z Hz.
      apply (Permutation_in _ (insert_perm cmp x r)) in Hz.
      destruct Hz as [<-|Hz]; [apply after_R; assumption|].
      rewrite List.Forall_forall in Hy. apply Hy, Hz.
    + assert (Hxy : R x y) by (apply keep_R; assumption).
      constructor; [constructor; assumption|].
      constructor; [exact Hxy|].
      rewrite List.Forall_forall in Hy |- *. intros z Hz.
      eapply R_trans; [exact Hxy | apply Hy, Hz].
Qed.

Lemma sort_sorted_on (l : list A) :
  List.Forall D l -> StronglySorted R (Js.sort cmp l).
Proof.
  induction l as [|x r IH]; simpl; intros Hl; [constructor|].
  pose proof (List.Forall_inv Hl) as Dx.
  apply List.Forall_inv_tail in Hl.
  apply insert_sorted_on; [exact Dx | | apply IH, Hl].
  rewrite List.Forall_forall in Hl |- *. intros y Hy.
  apply Hl. apply (In_sort cmp), Hy.
Qed.
End SortOn.

Lemma lookup_mapi_from {A B : Type} (f : A -> nat -> B) (l : list A)
    (k i : nat) :
  Js.mapi_from k f l !! i = (fun x => f x (k + i)%nat) <$> l !! i.
Proof.
  revert k i. induction l as [|x r IH]; intros k [|i]; simpl; try reflexivity.
  - rewrite Nat.add_0_r. reflexivity.
  - rewrite IH. replace (S k + i)%nat with (k + S i)%nat by lia. reflexivity.
Qed.

Lemma lookup_map {A B : Type} (f : A -> B) (l : list A) (i : nat) :
  List.map f l !! i = f <$> l !! i.
Proof.
  revert i. induction l as [|x r IH]; intros [|i]; simpl; try reflexivity.
  apply IH.
Qed.

Lemma ids_mapi_from (b : Bounds) (l : list Normalized) (k : nat) :
  List.map id (Js.mapi_from k (scoreCompany b) l)
  = List.map companyId (seq k (List.length l)).
Proof.
  revert k. induction l as [|x r IH]; intros k; simpl; [reflexivity|].
  rewrite IH. reflexivity.
Qed.

Lemma companyId_injective (i j : nat) : companyId i = companyId j -> i = j.
Proof.
  unfold companyId. intros H.
  apply natToString_injective.
  repeat (rewrite append_cons in H; injection H as H). exact H.
Qed.

(** Every record of the batch becomes exactly one company of the result:
    the result is a rearrangement of the scored records, the identifiers
    are pairwise distinct, and the company comp-i carries the record at
    position i of the batch. *)
Theorem companies_one_per_record (fullYearOf : string -> option Z)
    (currentYear : Z) (exponentForm : Q -> string)
    (rawData : list RawCompanyData) :
  let result := processData fullYearOf currentYear exponentForm rawData in
  Permutation (companies result) (scoreAll rawData)
  /\ List.length (companies result) = List.length rawData
  /\ List.NoDup (List.map id (companies result))
  /\ forall i r, rawData !! i = Some r ->
       exists c, In c (companies result)
                 /\ id c = companyId i /\ raw (source c) = r.
Proof.
  cbn [companies processData]. cbn zeta.
  set (cmp := fun a b : ScoredCompany => _).
  pose proof (sort_perm cmp (scoreAll rawData)) as Hperm.
  split; [exact Hperm|]. split; [|split].
  - rewrite (Permutation_length Hperm). unfold scoreAll, Js.mapi.
    assert (H : forall (l : list Normalized) b k,
               List.length (Js.mapi_from k (scoreCompany b) l) = List.length l).
    { induction l as [|x r IH]; intros b k; simpl; [reflexivity|].
      rewrite IH. reflexivity. }
    rewrite H, length_map. reflexivity.
  - apply (Permutation_NoDup (l := List.map id (scoreAll rawData))).
    + apply Permutation_map, Permutation_sym, Hperm.
    + unfold scoreAll, Js.mapi. rewrite ids_mapi_from.
      apply Finite.Injective_map_NoDup; [|apply seq_NoDup].
      intros i j. apply companyId_injective.
  - intros i r Hr.
    set (b := batchBounds (List.map normalizeRecord rawData)).
    exists (scoreCompany b (normalizeRecord r) i).
    split; [|split; reflexivity].
    apply (Permutation_in _ (Permutation_sym Hperm)).
    apply list_elem_of_In, list_elem_of_lookup. exists i.
    unfold scoreAll, Js.mapi.
    rewrite lookup_mapi_from, lookup_map, Hr. reflexivity.
Qed.

(** When every comprehensive score of the batch is a finite number, the
    companies of the result are listed from the highest comprehensive
    score to the lowest. *)
Theorem companies_sorted_by_score (fullYearOf : string -> option Z)
    (currentYear : Z) (exponentForm : Q -> string)
    (rawData : list RawCompanyData) :
  (forall c, In c (scoreAll rawData) ->
             Num.isFinite (comprehensive (scores c)) = true) ->
  StronglySorted
    (fun a b => finiteLe (comprehensive (scores b)) (comprehensive (scores a)))
    (companies (processData fullYearOf currentYear exponentForm rawData)).
Proof.
  intros Hfin. cbn [companies processData].
  apply (sort_sorted_on _
           (fun c => Num.isFinite (comprehensive (scores c)) = true)).
  - intros x y z. unfold finiteLe.
    destruct (comprehensive (scores x)), (comprehensive (scores y)),
      (comprehensive (scores z)); try tauto. lra.
  - intros x y Dx Dy. unfold Js.after, finiteLe.
    destruct (comprehensive (scores x)), (comprehensive (scores y));
      try discriminate. simpl. intros H%negb_true_iff.
    assert (Hn : ~ (q0 + - q <= 0)%Q) by (rewrite <- Qle_bool_iff; congruence).
    lra.
  - intros x y Dx Dy. unfold Js.after, finiteLe.
    destruct (comprehensive (scores x)), (comprehensive (scores y));
      try discriminate. simpl. intros H%negb_false_iff%Qle_bool_iff. lra.
  - rewrite List.Forall_forall. exact Hfin.
Qed.

(* ================================================================== *)
(** ** Further properties: the exporter and the parser *)
(* ================================================================== *)

Lemma exportRow_None (exponentForm : Q -> string) (c : ScoredCompany)
    (idx : nat) :
  exportRow exponentForm c idx = None <-> field c "Organization Name" = None.
Proof.
  unfold exportRow. destruct (field c "Organization Name"); split; congruence.
Qed.

(** The exporter fails (the source throws on the name) exactly when some
    company has no organization name; otherwise it writes the header line
    and one line per company, joined by line feeds, and nothing after the
    last line. *)
Theorem export_needs_names (exponentForm : Q -> string)
    (companies : list ScoredCompany) :
  (exportCompaniesToCSV exponentForm companies = None
   <-> exists c, In c companies /\ field c "Organization Name" = None)
  /\ (forall text,
        exportCompaniesToCSV exponentForm companies = Some text ->
        exists rows,
          List.length rows = List.length companies
          /\ text = Str.join (Str.str1 Str.newline)
                      (Str.join "," headers :: List.map (Str.join ",") rows)
          /\ forall i row, rows !! i = Some row ->
                exists c, companies !! i = Some c
                          /\ exportRow exponentForm c i = Some row).
Proof.
  unfold exportCompaniesToCSV, Js.mapi.
  assert (H : forall cs k,
    match mapM (fun row => row) (Js.mapi_from k (exportRow exponentForm) cs) with
    | None => exists c, In c cs /\ field c "Organization Name" = None
    | Some rows =>
        (forall c, In c cs -> field c "Organization Name" <> None)
        /\ List.length rows = List.length cs
        /\ forall i row, rows !! i = Some row ->
              exists c, cs !! i = Some c
                        /\ exportRow exponentForm c (k + i) = Some row
    end).
  { induction cs as [|c r IH]; intros k; simpl.
    - repeat split; [intros c [] | intros i row Hi; destruct i; discriminate Hi].
    - destruct (exportRow exponentForm c k) as [row|] eqn:E; simpl.
      + specialize (IH (S k)).
        destruct (mapM (fun row => row)
                    (Js.mapi_from (S k) (exportRow exponentForm) r))
          as [rows|]; simpl.
        * destruct IH as [Hall [Hlen Hrows]]. split; [|split].
          -- intros c' [<-|Hc']; [|apply Hall, Hc'].
             intros Hn. apply (exportRow_None exponentForm c k) in Hn. congruence.
          -- simpl. rewrite Hlen. reflexivity.
          -- intros [|i] row' Hi; simpl in Hi.
             ++ injection Hi as <-. exists c. rewrite Nat.add_0_r. tauto.
             ++ destruct (Hrows i row' Hi) as [c' [Hc' Hrow']].
                exists c'. replace (k + S i)%nat with (S k + i)%nat by lia. tauto.
        * destruct IH as [c' [Hc' Hn]]. exists c'. tauto.
      + exists c. split; [left; reflexivity|].
        apply (exportRow_None exponentForm c k), E. }
  specialize (H companies 0%nat).
  destruct (mapM (fun row => row)
              (Js.mapi_from 0 (exportRow exponentForm) companies)) as [rows|].
  - destruct H as [Hall [Hlen Hrows]]. split.
    + split; [discriminate|]. intros [c [Hc Hn]]. exfalso. apply (Hall c Hc Hn).
    + intros text [= <-]. exists rows. repeat split; [exact Hlen | exact Hrows].
  - split; [split; [intros _; exact H | reflexivity]|].
    intros text Ht. discriminate Ht.
Qed.

(** *** Trimming *)

Lemma trimStart_fixed (s : string) :
  Str.trimStart (Str.trimStart s) = Str.trimStart s.
Proof.
  induction s as [|c r IH]; [reflexivity|].
  cbn [Str.trimStart]. destruct (Str.isWhite c) eqn:E; [exact IH|].
  cbn [Str.trimStart]. rewrite E. reflexivity.
Qed.

Lemma trimEnd_fixed (s : string) :
  Str.trimEnd (Str.trimEnd s) = Str.trimEnd s.
Proof.
  induction s as [|c r IH]; [reflexivity|].
  cbn [Str.trimEnd]. destruct (Str.trimEnd r) as [|c' r'] eqn:Er.
  - destruct (Str.isWhite c) eqn:E; [reflexivity|].
    cbn [Str.str1 Str.trimEnd]. rewrite E. reflexivity.
  - cbn [Str.trimEnd]. fold Str.trimEnd. 
    change (match Str.trimEnd (String c' r') with
            | EmptyString => if Str.isWhite c then EmptyString else Str.str1 c
            | String a s0 => String c (String a s0)
            end = String c (String c' r')).
    rewrite IH. reflexivity.
Qed.

Lemma trimStart_of_trimEnd (s : string) :
  Str.trimStart s = s -> Str.trimStart (Str.trimEnd s) = Str.trimEnd s.
Proof.
  destruct s as [|c r]; [reflexivity|].
  cbn [Str.trimStart]. destruct (Str.isWhite c) eqn:E.
  - intros H. exfalso.
    assert (Hlen : forall t, (String.length (Str.trimStart t) <= String.length t)%nat).
    { induction t as [|x t IHt]; simpl; [lia|].
      destruct (Str.isWhite x); simpl; lia. }
    specialize (Hlen r). rewrite H in Hlen. simpl in Hlen. lia.
  - intros _. cbn [Str.trimEnd].
    destruct (Str.trimEnd r); [rewrite E|]; cbn [Str.str1 Str.trimStart];
      rewrite E; reflexivity.
Qed.

Lemma trim_fixed (s : string) : Str.trim (Str.trim s) = Str.trim s.
Proof.
  unfold Str.trim.
  rewrite (trimStart_of_trimEnd _ (trimStart_fixed s)).
  apply trimEnd_fixed.
Qed.

Lemma all_trimStart (p : ascii -> bool) (s : string) :
  Str.all p s = true -> Str.all p (Str.trimStart s) = true.
Proof.
  induction s as [|c r IH]; [trivial|].
  cbn [Str.trimStart]. destruct (Str.isWhite c); [|trivial].
  cbn [Str.all]. intros [_ Hr]%andb_true_iff. apply IH, Hr.
Qed.

Lemma all_trimEnd (p : ascii -> bool) (s : string) :
  Str.all p s = true -> Str.all p (Str.trimEnd s) = true.
Proof.
  induction s as [|c r IH]; [trivial|].
  cbn [Str.all Str.trimEnd]. intros [Hc Hr]%andb_true_iff.
  specialize (IH Hr). destruct (Str.trimEnd r).
  - destruct (Str.isWhite c); [reflexivity|]. simpl. rewrite Hc. reflexivity.
  - cbn [Str.all] in *. rewrite Hc. exact IH.
Qed.

Lemma all_trim (p : ascii -> bool) (s : string) :
  Str.all p s = true -> Str.all p (Str.trim s) = true.
Proof. intros H. apply all_trimEnd, all_trimStart, H. Qed.

Lemma stripQuotes_without_quote (s : string) :
  Str.all (fun c => negb (Ascii.eqb c Str.dquote)) s = true ->
  Str.stripQuotes s = s.
Proof.
  intros Hs. unfold Str.stripQuotes.
  assert (Hlead : Str.dropLeadingQuote s = s).
  { destruct s as [|c r]; [reflexivity|]. cbn [Str.all] in Hs.
    apply andb_true_iff in Hs as [Hc _]. apply negb_true_iff in Hc.
    cbn [Str.dropLeadingQuote]. rewrite Hc. reflexivity. }
  rewrite Hlead. induction s as [|c r IH]; [reflexivity|].
  cbn [Str.all] in Hs. apply andb_true_iff in Hs as [Hc Hr].
  apply negb_true_iff in Hc. cbn [Str.dropTrailingQuote].
  destruct r as [|c' r']; [rewrite Hc; reflexivity|].
  rewrite IH; [reflexivity | exact Hr|].
  cbn [Str.all] in Hr. apply andb_true_iff in Hr as [Hc' _].
  apply negb_true_iff in Hc'. cbn [Str.dropLeadingQuote]. rewrite Hc'.
  reflexivity.
Qed.

(** A cell pushed from a text without quotes is the trimmed text, and
    trimming it again changes nothing. *)
Lemma cell_without_quote (cur : string) :
  Str.all cellChar cur = true ->
  Csv.cell cur = Str.trim cur
  /\ Str.trim (Csv.cell cur) = Csv.cell cur
  /\ Str.all cellChar (Csv.cell cur) = true.
Proof.
  intros Hcur. unfold Csv.cell.
  assert (Hq : Str.all (fun c => negb (Ascii.eqb c Str.dquote)) (Str.trim cur)
               = true).
  { apply all_trim. revert Hcur. apply all_impl. intros c.
    unfold cellChar. rewrite andb_true_iff. tauto. }
  rewrite (stripQuotes_without_quote _ Hq).
  split; [reflexivity|]. split; [apply trim_fixed | apply all_trim, Hcur].
Qed.

(** *** The records of the parser *)

Lemma all_app_char (p : ascii -> bool) (s : string) (c : ascii) :
  Str.all p s = true -> p c = true -> Str.all p (s ++ Str.str1 c) = true.
Proof.
  intros Hs Hc. rewrite all_app, Hs. simpl. rewrite Hc. reflexivity.
Qed.

Lemma scan_clean (line : string) (row : list string) (q : bool)
    (cur : string) :
  Str.all (fun c => negb (Ascii.eqb c Str.newline)) line = true ->
  List.Forall cleanCell row -> Str.all cellChar cur = true ->
  let '(row', _, cur') := Csv.scan line (row, q, cur) in
  List.Forall cleanCell row' /\ Str.all cellChar cur' = true.
Proof.
  revert row q cur. induction line as [|c r IH]; intros row q cur Hline Hrow Hcur.
  - simpl. tauto.
  - cbn [Str.all] in Hline. apply andb_true_iff in Hline as [Hc Hr].
    cbn [Csv.scan Csv.scanChar].
    destruct (Ascii.eqb c Str.dquote) eqn:Eq; [apply IH; assumption|].
    destruct (Ascii.eqb c Str.comma && negb q).
    + apply IH; [exact Hr | | reflexivity].
      apply Forall_app. split; [exact Hrow|].
      constructor; [|constructor].
      destruct (cell_without_quote cur Hcur) as [_ [H1 H2]].
      split; assumption.
    + apply IH; [exact Hr | exact Hrow|].
      apply all_app_char; [exact Hcur|].
      unfold cellChar. rewrite Eq, Hc. reflexivity.
Qed.

Lemma parseRow_clean (line : string) :
  Str.all (fun c => negb (Ascii.eqb c Str.newline)) line = true ->
  List.Forall cleanCell (Csv.parseRow line).
Proof.
  intros Hline. unfold Csv.parseRow.
  pose proof (scan_clean line [] false EmptyString Hline
                (List.Forall_nil _) eq_refl) as H.
  destruct (Csv.scan line ([], false, EmptyString)) as [[row q] cur].
  destruct H as [Hrow Hcur]. apply Forall_app. split; [exact Hrow|].
  constructor; [|constructor].
  destruct (cell_without_quote cur Hcur) as [_ [H1 H2]]. split; assumption.
Qed.

Lemma split_pieces (sep : ascii) (s : string) :
  List.Forall (fun piece => Str.all (fun c => negb (Ascii.eqb c sep)) piece = true)
    (Str.split sep s).
Proof.
  induction s as [|c r IH]; cbn [Str.split].
  - constructor; [reflexivity | constructor].
  - destruct (Ascii.eqb c sep) eqn:E.
    + constructor; [reflexivity | exact IH].
    + destruct (Str.split sep r) as [|h t].
      * constructor; [|constructor]. simpl. rewrite E. reflexivity.
      * pose proof (List.Forall_inv IH) as Hh.
        apply List.Forall_inv_tail in IH.
        constructor; [|exact IH]. cbn [Str.all]. rewrite E, Hh. reflexivity.
Qed.

Lemma parseCSV_rows (text : string) :
  Csv.parseCSV text
  = List.map (Csv.mkObject (headerCells text)) (keptRows text).
Proof.
  unfold Csv.parseCSV, keptRows, dataLines, headerCells.
  destruct (Csv.nonBlankLines text) as [|first [|second rest]];
    [reflexivity | reflexivity |].
  rewrite parseLine_fold. reflexivity.
Qed.

Lemma keptRows_spec (text : string) (row : list string) :
  In row (keptRows text) ->
  List.length row = List.length (headerCells text)
  /\ List.Forall cleanCell row.
Proof.
  unfold keptRows. intros [Hin Hlen]%filter_In.
  apply Nat.eqb_eq in Hlen. split; [exact Hlen|].
  apply in_map_iff in Hin as [line [<- Hline]].
  apply parseRow_clean.
  unfold dataLines, Csv.nonBlankLines in Hline.
  assert (Hin : In line (Str.split Str.newline text)).
  { destruct (List.filter _ _) as [|l ls] eqn:E; [destruct Hline|].
    apply (filter_In (fun l => negb (Str.isEmpty (Str.trim l)))).
    rewrite E. right. exact Hline. }
  pose proof (split_pieces Str.newline text) as Hp.
  rewrite List.Forall_forall in Hp. apply Hp, Hin.
Qed.

Lemma fold_insert_other (l : list (string * string)) (m : RawCompanyData)
    (k : string) :
  ~ In k (List.map fst l) ->
  fold_left Csv.setField l m !! k = m !! k.
Proof.
  revert m. induction l as [|[h v] r IH]; intros m Hk; [reflexivity|].
  cbn [fold_left]. rewrite IH by (simpl in Hk; tauto).
  unfold Csv.setField. cbn [fst snd].
  destruct (String.eqb h Csv.protoKey); [reflexivity|].
  apply lookup_insert_ne. simpl in Hk. tauto.
Qed.

Lemma fold_insert_last (l1 l2 : list (string * string)) (m : RawCompanyData)
    (h v : string) :
  ~ In h (List.map fst l2) -> h <> Csv.protoKey ->
  fold_left Csv.setField (l1 ++ (h, v) :: l2) m !! h = Some v.
Proof.
  intros Hh Hproto. rewrite fold_left_app. cbn [fold_left].
  rewrite fold_insert_other by exact Hh.
  unfold Csv.setField. cbn [fst snd].
  apply String.eqb_neq in Hproto. rewrite Hproto. apply lookup_insert_eq.
Qed.

Lemma fold_insert_value (l : list (string * string)) (m : RawCompanyData)
    (k v : string) :
  fold_left Csv.setField l m !! k = Some v ->
  m !! k = Some v \/ In (k, v) l.
Proof.
  revert m. induction l as [|[h w] r IH]; intros m; [tauto|].
  cbn [fold_left]. intros H. apply IH in H as [H|H]; [|simpl; tauto].
  unfold Csv.setField in H. cbn [fst snd] in H.
  destruct (String.eqb h Csv.protoKey); [tauto|].
  destruct (decide (h = k)) as [->|Hne].
  - rewrite lookup_insert_eq in H. injection H as ->. simpl. tauto.
  - rewrite lookup_insert_ne in H by exact Hne. tauto.
Qed.

Lemma fold_insert_dom (l : list (string * string)) (m : RawCompanyData)
    (k : string) :
  is_Some (fold_left Csv.setField l m !! k)
  <-> is_Some (m !! k) \/ (In k (List.map fst l) /\ k <> Csv.protoKey).
Proof.
  revert m. induction l as [|[h w] r IH]; intros m; [simpl; tauto|].
  cbn [fold_left]. rewrite IH. unfold Csv.setField. cbn [fst snd]. simpl.
  destruct (String.eqb h Csv.protoKey) eqn:E.
  - apply String.eqb_eq in E. split; [tauto|].
    intros [H|[[Hh|H] Hk]]; [tauto | congruence | tauto].
  - apply String.eqb_neq in E.
    destruct (decide (h = k)) as [->|Hne].
    + rewrite lookup_insert_eq. split; [tauto|]. intros _. left. eauto.
    + rewrite lookup_insert_ne by exact Hne. tauto.
Qed.

(** Without the name that is not stored, every header is a key. *)
Lemma mkObject_plain (hs row : list string) :
  ~ In Csv.protoKey hs ->
  Csv.mkObject hs row
  = fold_left (fun obj hv => <[fst hv := snd hv]> obj) (zip hs row) ∅.
Proof.
  intros Hhs. unfold Csv.mkObject.
  assert (H : forall (l : list (string * string)) (m : RawCompanyData),
             ~ In Csv.protoKey (List.map fst l) ->
             fold_left Csv.setField l m
             = fold_left (fun obj hv => <[fst hv := snd hv]> obj) l m).
  { induction l as [|[h v] r IH]; intros m Hl; [reflexivity|].
    cbn [fold_left]. rewrite IH by (simpl in Hl; tauto).
    unfold Csv.setField. cbn [fst snd].
    destruct (String.eqb h Csv.protoKey) eqn:E; [|reflexivity].
    apply String.eqb_eq in E. simpl in Hl. tauto. }
  apply H. intros Hin. apply Hhs.
  revert Hin. clear. revert row.
  induction hs as [|h t IH]; intros [|v w]; simpl; try tauto.
  intros [H|H]; [tauto | right; eapply IH, H].
Qed.

Lemma In_zip_l {A B : Type} (a : list A) (b : list B) (x : A) :
  In x (List.map fst (zip a b)) -> In x a.
Proof.
  revert b. induction a as [|h t IH]; intros [|v w]; simpl; try tauto.
  intros [<-|H]; [tauto | right; eapply IH, H].
Qed.

Lemma In_zip_r {A B : Type} (a : list A) (b : list B) (x : A) (y : B) :
  In (x, y) (zip a b) -> In y b.
Proof.
  revert b. induction a as [|h t IH]; intros [|v w]; simpl; try tauto.
  intros [[= <- <-]|H]; [tauto | right; eapply IH, H].
Qed.

Lemma map_fst_zip {A B : Type} (a : list A) (b : list B) :
  List.length a = List.length b -> List.map fst (zip a b) = a.
Proof.
  revert b. induction a as [|h t IH]; intros [|v w]; simpl; try discriminate;
    [reflexivity|].
  intros [= H]. rewrite (IH _ H). reflexivity.
Qed.

Lemma zip_split {A B : Type} (a : list A) (b : list B) (i : nat) (x : A)
    (y : B) :
  a !! i = Some x -> b !! i = Some y ->
  zip a b = (zip (take i a) (take i b) ++ (x, y) :: zip (drop (S i) a)
                                                         (drop (S i) b))%list.
Proof.
  revert a b. induction i as [|i IH]; intros [|h t] [|v w]; simpl;
    try discriminate.
  - intros [= ->] [= ->]. reflexivity.
  - intros Ha Hb. rewrite (IH t w Ha Hb) at 1. reflexivity.
Qed.

Lemma In_drop_lookup {A : Type} (l : list A) (n : nat) (x : A) :
  In x (drop n l) -> exists j, (n <= j)%nat /\ l !! j = Some x.
Proof.
  intros H. apply list_elem_of_In, list_elem_of_lookup in H as [j Hj].
  rewrite lookup_drop in Hj. exists (n + j)%nat. split; [lia | exact Hj].
Qed.

(** Every record of the parser has as keys exactly the header names
    other than __proto__ (the one name under which an assignment stores
    nothing) and clean cells (trimmed, without quote or line feed) as
    values; it comes from one kept row, and a header maps to the cell
    under its last occurrence in the header line. *)
Theorem parseCSV_record_shape (text : string) (r : RawCompanyData) :
  In r (Csv.parseCSV text) ->
  (forall k, is_Some (r !! k)
             <-> In k (headerCells text) /\ k <> Csv.protoKey)
  /\ (forall k v, r !! k = Some v -> cleanCell v)
  /\ exists row,
       In row (keptRows text)
       /\ forall i h v,
            headerCells text !! i = Some h -> row !! i = Some v ->
            (forall j, (i < j)%nat -> headerCells text !! j <> Some h) ->
            h <> Csv.protoKey ->
            r !! h = Some v.
Proof.
  rewrite parseCSV_rows. intros [row [<- Hrow]]%in_map_iff.
  destruct (keptRows_spec text row Hrow) as [Hlen Hclean].
  set (hs := headerCells text) in *. unfold Csv.mkObject.
  split; [|split].
  - intros k. rewrite fold_insert_dom, map_fst_zip by (symmetry; exact Hlen).
    rewrite lookup_empty. split; [intros [[x Hx]|H]; [discriminate | exact H] | tauto].
  - intros k v Hv. apply fold_insert_value in Hv as [Hv|Hv].
    + rewrite lookup_empty in Hv. discriminate.
    + apply In_zip_r in Hv. rewrite List.Forall_forall in Hclean.
      apply Hclean, Hv.
  - exists row. split; [exact Hrow|]. intros i h v Hh Hv Hlast Hproto.
    rewrite (zip_split hs row i h v Hh Hv).
    apply fold_insert_last; [|exact Hproto]. intros Hin%In_zip_l.
    apply In_drop_lookup in Hin as [j [Hj Hhj]].
    apply (Hlast j); [lia | exact Hhj].
Qed.

(** A column headed __proto__ is lost: the record has no such key,
    whatever the cell holds. *)
Example proto_column_is_lost :
  Csv.parseCSV ("name,__proto__" ++ String Str.newline "Acme,1")
  = [ {[ "name" := "Acme" ]} ].
Proof. vm_compute. reflexivity. Qed.

(** *** Reading cells back *)

Lemma append_assoc (a b c : string) : (a ++ b) ++ c = a ++ (b ++ c).
Proof.
  induction a as [|x r IH]; [reflexivity|].
  rewrite !append_cons, IH. reflexivity.
Qed.

Lemma append_nil_r (a : string) : a ++ EmptyString = a.
Proof.
  induction a as [|x r IH]; [reflexivity|]. rewrite append_cons, IH. reflexivity.
Qed.

Lemma reads_plain (s : string) : plain s = true -> reads s s.
Proof.
  intros Hs row. induction s as [|c r IH]; intros cur.
  - rewrite append_nil_r. reflexivity.
  - unfold plain in Hs. cbn [Str.all] in Hs.
    apply andb_true_iff in Hs as [Hc Hr].
    unfold isSeparator in Hc. rewrite !negb_orb, !andb_true_iff in Hc.
    destruct Hc as [[Hcomma Hquote] _].
    apply negb_true_iff in Hcomma, Hquote.
    cbn [Csv.scan Csv.scanChar]. rewrite Hquote, Hcomma. cbn [andb].
    rewrite (IH Hr), append_assoc. reflexivity.
Qed.

Lemma scan_quoted_text (s : string) (row : list string) (cur : string) :
  Csv.scan (doubled s ++ Str.str1 Str.dquote) (row, true, cur)
  = (row, false, cur ++ withoutQuotes s).
Proof.
  revert cur. induction s as [|c r IH]; intros cur.
  - rewrite append_nil_r. reflexivity.
  - cbn [doubled]. unfold withoutQuotes. cbn [Str.replaceAll].
    destruct (Ascii.eqb c Str.dquote) eqn:E.
    + rewrite !append_cons. cbn [Csv.scan Csv.scanChar].
      rewrite Ascii.eqb_refl. cbn [negb]. rewrite append_empty. apply IH.
    + rewrite append_cons. cbn [Csv.scan Csv.scanChar].
      rewrite E, andb_false_r. rewrite IH. unfold withoutQuotes.
      rewrite append_assoc. reflexivity.
Qed.

Lemma reads_quoted (s : string) : reads (quoted s) (withoutQuotes s).
Proof.
  intros row cur. unfold quoted. cbn [Csv.scan Csv.scanChar].
  rewrite Ascii.eqb_refl. apply scan_quoted_text.
Qed.

Lemma scan_read_cells (cells vals : list string) :
  Forall2 reads cells vals -> cells <> [] ->
  forall row cur,
    exists row' cur',
      Csv.scan (Str.join "," cells) (row, false, cur) = (row', false, cur')
      /\ (row' ++ [Csv.cell cur'])%list
         = (row ++ List.map Csv.cell (prefixFirst cur vals))%list.
Proof.
  intros H. induction H as [|x v cells vals Hxv Hrest IH]; intros Hne row cur.
  - contradiction.
  - destruct Hrest as [|y w cells vals Hyw Hrest].
    + exists row, (cur ++ v). split; [apply Hxv | reflexivity].
    + destruct (IH ltac:(discriminate) (row ++ [Csv.cell (cur ++ v)])%list
                   EmptyString) as [row' [cur' [E Hrow]]].
      exists row', cur'. split.
      * change (Str.join "," (x :: y :: cells))
          with (x ++ String Str.comma (Str.join "," (y :: cells))).
        rewrite scan_app, Hxv. cbn [Csv.scan Csv.scanChar].
        change (Ascii.eqb Str.comma Str.dquote) with false.
        rewrite Ascii.eqb_refl. cbn [andb negb]. exact E.
      * rewrite Hrow. cbn [prefixFirst List.map]. rewrite append_empty.
        rewrite <- app_assoc. reflexivity.
Qed.

(** The cells read from a line are the texts its cells collect. *)
Lemma parseRow_read_cells (cells vals : list string) :
  Forall2 reads cells vals -> cells <> [] ->
  Csv.parseRow (Str.join "," cells) = List.map Csv.cell vals.
Proof.
  intros H Hne. unfold Csv.parseRow.
  destruct (scan_read_cells cells vals H Hne [] EmptyString)
    as [row' [cur' [-> Hrow]]].
  rewrite Hrow. destruct H; [contradiction|].
  cbn [prefixFirst]. rewrite append_empty. reflexivity.
Qed.

Lemma withoutQuotes_clean (s : string) :
  Str.all (fun c => negb (Ascii.eqb c Str.dquote)) (withoutQuotes s) = true.
Proof.
  unfold withoutQuotes. induction s as [|c r IH]; [reflexivity|].
  cbn [Str.replaceAll]. destruct (Ascii.eqb c Str.dquote) eqn:E.
  - rewrite append_empty. exact IH.
  - cbn [Str.all]. rewrite E. exact IH.
Qed.

Lemma cell_withoutQuotes (s : string) :
  Csv.cell (withoutQuotes s) = Str.trim (withoutQuotes s).
Proof.
  unfold Csv.cell. apply stripQuotes_without_quote, all_trim, withoutQuotes_clean.
Qed.

(** A line of quoted fields reads back as the fields, trimmed: a comma
    inside a field stays in it, and every quote of the field is dropped,
    a doubled one too. *)
Theorem parseRow_quoted_fields (fields : list string) :
  fields <> [] ->
  Csv.parseRow (Str.join "," (List.map quoted fields))
  = List.map (fun s => Str.trim (withoutQuotes s)) fields.
Proof.
  intros Hne.
  rewrite (parseRow_read_cells _ (List.map withoutQuotes fields)).
  - rewrite map_map. apply map_ext. intros s. apply cell_withoutQuotes.
  - clear Hne. induction fields as [|s r IH]; simpl; constructor;
      [apply reads_quoted | exact IH].
  - destruct fields; [contradiction | discriminate].
Qed.

(** *** From the export back to the records, cell by cell *)

Lemma orElse_some_withoutQuotes (s : string) :
  withoutQuotes (Js.orElse (Some s) EmptyString) = withoutQuotes s.
Proof.
  unfold Js.orElse. destruct s; reflexivity.
Qed.

Lemma exportRow_reads (exponentForm : Q -> string) (c : ScoredCompany)
    (idx : nat) :
  (forall q, plain (exponentForm q) = true) -> exportable c = true ->
  exists row,
    exportRow exponentForm c idx = Some row
    /\ Csv.parseRow (Str.join "," row) = readBack exponentForm c idx.
Proof.
  intros Hef Hc. unfold exportable in Hc. unfold exportRow, readBack.
  destruct (field c "Organization Name") as [organizationName|];
    [|discriminate Hc].
  rewrite !andb_true_iff in Hc.
  destruct Hc as [[[[[Hname Hloc] Hind] Hdesc] Hlen] Hurl].
  apply Nat.leb_le in Hlen.
  eexists. split; [reflexivity|].
  fold (exportedDescription c).
  rewrite !wrap_doubleQuotes.
  rewrite doubleQuotes_doubled, (substring_whole 1000) by exact Hlen.
  fold (quoted (exportedDescription c)).
  rewrite orElse_some_withoutQuotes.
  assert (Hnum : plain (Parse.natToString (idx + 1)) = true)
    by apply plain_digits, all_digits_NilZero.
  pose proof (fun f x => plain_toFixed exponentForm f x Hef) as Hfix.
  apply parseRow_read_cells; [|discriminate].
  repeat constructor;
    first [apply reads_quoted
          | apply reads_plain; first [exact Hnum | exact Hurl | apply Hfix]].
Qed.

Lemma export_rows_read (exponentForm : Q -> string)
    (cs : list ScoredCompany) :
  (forall q, plain (exponentForm q) = true) ->
  (forall c, In c cs -> exportable c = true) ->
  forall k, exists rows,
    mapM (fun row => row) (Js.mapi_from k (exportRow exponentForm) cs)
    = Some rows
    /\ List.Forall goodRow rows
    /\ List.map Csv.parseRow (List.map (Str.join ",") rows)
       = Js.mapi_from k (readBack exponentForm) cs.
Proof.
  intros Hef. induction cs as [|c r IH]; intros Hcs k; simpl.
  - exists []. repeat split. constructor.
  - destruct (exportRow_reads exponentForm c k Hef (Hcs c (or_introl eq_refl)))
      as [row [E Hread]].
    destruct (exportRow_good exponentForm c k Hef (Hcs c (or_introl eq_refl)))
      as [row' [E' Hgood]].
    assert (row' = row) by congruence. subst row'.
    destruct (IH (fun y Hy => Hcs y (or_intror Hy)) (S k))
      as [rows [Er [Hrows Hreads]]].
    exists (row :: rows). rewrite E. simpl. rewrite Er. simpl.
    repeat split; [constructor; assumption|].
    rewrite Hread, Hreads. reflexivity.
Qed.

Lemma map_mapi_from {A B C : Type} (g : B -> C) (f : A -> nat -> B)
    (xs : list A) (k : nat) :
  List.map g (Js.mapi_from k f xs) = Js.mapi_from k (fun x i => g (f x i)) xs.
Proof.
  revert k. induction xs as [|x r IH]; intros k; simpl; [reflexivity|].
  rewrite IH. reflexivity.
Qed.

Lemma length_mapi_from {A B : Type} (f : A -> nat -> B) (xs : list A)
    (k : nat) :
  List.length (Js.mapi_from k f xs) = List.length xs.
Proof.
  revert k. induction xs as [|x r IH]; intros k; simpl; [reflexivity|].
  rewrite IH. reflexivity.
Qed.

Lemma parseHeaders_headers : Csv.parseHeaders (Str.join "," headers) = headers.
Proof. vm_compute. reflexivity. Qed.

Lemma export_parse_all (exponentForm : Q -> string)
    (companies : list ScoredCompany) :
  (forall q, plain (exponentForm q) = true) ->
  (forall c, In c companies -> exportable c = true) ->
  exists text,
    exportCompaniesToCSV exponentForm companies = Some text
    /\ Csv.parseCSV text
       = Js.mapi (fun c i => Csv.mkObject headers (readBack exponentForm c i))
           companies.
Proof.
  intros Hef Hcs. unfold exportCompaniesToCSV, Js.mapi.
  destruct (export_rows_read exponentForm companies Hef Hcs 0%nat)
    as [rows [-> [Hrows Hreads]]].
  eexists. split; [reflexivity|].
  destruct headers_line as [Hh1 [Hh2 Hh3]].
  set (lines := List.map (Str.join ",") rows) in *.
  assert (Hlines : List.Forall
            (fun l => oneLine l = true
                      /\ Str.isEmpty (Str.trim l) = false
                      /\ List.length (Csv.parseRow l) = 11%nat) lines).
  { subst lines. apply List.Forall_map.
    eapply List.Forall_impl; [|exact Hrows]. apply goodRow_line. }
  assert (Hparsed : Csv.nonBlankLines
            (Str.join (Str.str1 Str.newline) (Str.join "," headers :: lines))
          = Str.join "," headers :: lines).
  { unfold Csv.nonBlankLines. rewrite split_join_lines.
    - apply filter_all. constructor; [rewrite Hh2; reflexivity|].
      eapply List.Forall_impl; [|exact Hlines].
      intros l [_ [Hl _]]. rewrite Hl. reflexivity.
    - discriminate.
    - constructor; [exact Hh1|].
      eapply List.Forall_impl; [|exact Hlines]. intros l [Hl _]. exact Hl. }
  unfold Csv.parseCSV. rewrite Hparsed.
  destruct lines as [|l ls] eqn:El.
  - destruct companies; [reflexivity | discriminate Hreads].
  - rewrite parseLine_fold, app_nil_l, filter_all.
    + rewrite Hreads, parseHeaders_headers. apply map_mapi_from.
    + apply List.Forall_map. eapply List.Forall_impl; [|exact Hlines].
      intros l' [_ [_ Hl']]. rewrite Hl', Hh3. reflexivity.
Qed.

Lemma trimEnd_no_white (s : string) :
  Str.all (fun c => negb (Str.isWhite c)) s = true -> Str.trimEnd s = s.
Proof.
  induction s as [|c r IH]; [reflexivity|]. cbn [Str.all].
  intros H. apply andb_true_iff in H as [Hc Hr]. apply negb_true_iff in Hc.
  cbn [Str.trimEnd]. rewrite (IH Hr), Hc. destruct r; reflexivity.
Qed.

Lemma trim_no_white (s : string) :
  Str.all (fun c => negb (Str.isWhite c)) s = true -> Str.trim s = s.
Proof.
  intros H. unfold Str.trim.
  replace (Str.trimStart s) with s; [apply trimEnd_no_white, H|].
  destruct s as [|c r]; [reflexivity|]. cbn [Str.all] in H.
  apply andb_true_iff in H as [Hc _]. apply negb_true_iff in Hc.
  cbn [Str.trimStart]. rewrite Hc. reflexivity.
Qed.

Lemma digit_not_quote (c : ascii) :
  Str.isDigit c = true -> negb (Ascii.eqb c Str.dquote) = true.
Proof.
  intros H. pose proof (digit_not_separator c H) as Hs.
  unfold isSeparator in Hs. rewrite !negb_orb, !andb_true_iff in Hs. tauto.
Qed.

Lemma cell_natToString (n : nat) :
  Csv.cell (Parse.natToString n) = Parse.natToString n.
Proof.
  unfold Csv.cell. rewrite trim_no_white.
  - apply stripQuotes_without_quote.
    apply (all_impl Str.isDigit); [apply digit_not_quote|].
    apply all_digits_NilZero.
  - apply (all_impl Str.isDigit); [|apply all_digits_NilZero].
    intros c Hc. rewrite (digit_not_white c Hc). reflexivity.
Qed.

(** Exporting and parsing again gives one record per company, in the
    order of the companies.  The record of the company at position [i]
    maps the eleven headers to: the position plus one, the name without
    its quotes, the five scores as written, location, industries and
    description without their quotes, and the website; each of them
    trimmed.  So a quote inside a name is lost on the way (it is written
    twice and the parser drops both), while a comma inside it is kept. *)
Theorem export_then_parse_records (exponentForm : Q -> string)
    (companies : list ScoredCompany) :
  (forall q, plain (exponentForm q) = true) ->
  (forall c, In c companies -> exportable c = true) ->
  exists text,
    exportCompaniesToCSV exponentForm companies = Some text
    /\ Csv.parseCSV text
       = Js.mapi (fun c i => Csv.mkObject headers (readBack exponentForm c i))
           companies
    /\ forall i c organizationName,
         companies !! i = Some c ->
         field c "Organization Name" = Some organizationName ->
         exists r,
           Csv.parseCSV text !! i = Some r
           /\ r !! "Rank" = Some (Parse.natToString (i + 1))
           /\ r !! "Organization Name"
              = Some (Str.trim (withoutQuotes organizationName))
           /\ r !! "Website"
              = Some (Csv.cell
                        (Js.orElse (field c "Organization Name URL")
                           EmptyString)).
Proof.
  intros Hef Hcs.
  destruct (export_parse_all exponentForm companies Hef Hcs)
    as [text [Htext Hparse]].
  exists text. split; [exact Htext|]. split; [exact Hparse|].
  intros i c organizationName Hi Hname. rewrite Hparse. unfold Js.mapi.
  rewrite lookup_mapi_from, Hi. eexists. split; [reflexivity|].
  rewrite mkObject_plain
    by (unfold headers, Csv.protoKey; cbn [In];
        intros H; repeat (destruct H as [H|H]; [discriminate H|]); exact H).
  unfold headers, readBack.
  cbn [zip zip_with List.map fold_left fst snd Nat.add].
  rewrite Hname, orElse_some_withoutQuotes.
  rewrite cell_natToString, (cell_withoutQuotes organizationName).
  split; [|split].
  - do 10 (rewrite lookup_insert_ne by discriminate). apply lookup_insert_eq.
  - do 9 (rewrite lookup_insert_ne by discriminate). apply lookup_insert_eq.
  - apply lookup_insert_eq.
Qed.

(* ================================================================== *)
(** ** Further properties of the classifier and of the operations score *)
(* ================================================================== *)

Lemma toLowerCase_app (a b : string) :
  Str.toLowerCase (a ++ b) = Str.toLowerCase a ++ Str.toLowerCase b.
Proof.
  induction a as [|c r IH]; [reflexivity|].
  rewrite append_cons. cbn [Str.toLowerCase]. rewrite IH, append_cons.
  reflexivity.
Qed.

Lemma startsWith_app_l (k a b : string) :
  Str.startsWith k a = true -> Str.startsWith k (a ++ b) = true.
Proof.
  revert a. induction k as [|x k IH]; intros a H; [reflexivity|].
  destruct a as [|c r]; [discriminate H|].
  rewrite append_cons. cbn [Str.startsWith] in *.
  apply andb_true_iff in H as [Hc Hr]. rewrite Hc, (IH r Hr). reflexivity.
Qed.

Lemma includes_app_l (k a b : string) :
  Str.includes k a = true -> Str.includes k (a ++ b) = true.
Proof.
  induction a as [|c r IH]; intros H.
  - destruct k; [destruct b; reflexivity | discriminate H].
  - rewrite append_cons. cbn [Str.includes] in *.
    apply orb_true_iff in H as [H|H].
    + rewrite <- append_cons, (startsWith_app_l _ _ _ H). reflexivity.
    + rewrite (IH H). apply orb_true_r.
Qed.

Lemma anyOf_app_l (ks : list string) (a b : string) :
  anyOf ks a = true -> anyOf ks (a ++ b) = true.
Proof.
  unfold anyOf. rewrite !existsb_exists. intros [k [Hk H]].
  exists k. split; [exact Hk | apply includes_app_l, H].
Qed.

Lemma anyOf_app_r (ks : list string) (a b : string) :
  anyOf ks b = true -> anyOf ks (a ++ b) = true.
Proof.
  unfold anyOf. rewrite !existsb_exists. intros [k [Hk H]].
  exists k. split; [exact Hk | apply includes_app_r, H].
Qed.

Lemma afterPrefix_app (p a rest x : string) :
  afterPrefix p a = Some rest -> afterPrefix p (a ++ x) = Some (rest ++ x).
Proof.
  revert a. induction p as [|c p IH]; intros a H.
  - destruct a; cbn [afterPrefix] in *; congruence.
  - destruct a as [|d r]; [discriminate H|].
    rewrite append_cons. cbn [afterPrefix] in *.
    destruct (Ascii.eqb c d); [apply IH, H | discriminate H].
Qed.

(** A match that ends a word still ends one when a character that is not
    a word character follows the text. *)
Lemma endsWordAt_app (p a x : string) (c : ascii) :
  Str.isWordChar c = false ->
  endsWordAt p a = true -> endsWordAt p (a ++ String c x) = true.
Proof.
  intros Hc. unfold endsWordAt.
  destruct (afterPrefix p a) as [rest|] eqn:E; [|discriminate].
  rewrite (afterPrefix_app _ _ _ (String c x) E).
  destruct rest as [|d r].
  - rewrite append_empty, Hc. reflexivity.
  - rewrite append_cons. trivial.
Qed.

Lemma includesWord_app_l (p a x : string) (c : ascii) :
  Str.isWordChar c = false ->
  includesWord p a = true -> includesWord p (a ++ String c x) = true.
Proof.
  intros Hc. induction a as [|d r IH]; intros H.
  - cbn [includesWord] in H. rewrite orb_false_r in H.
    rewrite append_empty.
    pose proof (endsWordAt_app p EmptyString x c Hc H) as H'.
    rewrite append_empty in H'. cbn [includesWord]. rewrite H'. reflexivity.
  - cbn [includesWord] in H. apply orb_true_iff in H as [H|H].
    + pose proof (endsWordAt_app p (String d r) x c Hc H) as H'.
      rewrite append_cons in *. cbn [includesWord]. rewrite H'. reflexivity.
    + rewrite append_cons. cbn [includesWord]. rewrite (IH H).
      apply orb_true_r.
Qed.

Lemma includesWord_app_r (p a b : string) :
  includesWord p b = true -> includesWord p (a ++ b) = true.
Proof.
  intros Hb. induction a as [|c r IH]; [exact Hb|].
  rewrite append_cons. cbn [includesWord]. rewrite IH. apply orb_true_r.
Qed.

Lemma descriptionText_parts (c : RawCompanyData) :
  descriptionText c
  = Str.toLowerCase (Js.orElse (c !! "Description") EmptyString)
    ++ String " "
         (Str.toLowerCase (Js.orElse (c !! "Full Description") EmptyString)).
Proof.
  unfold descriptionText. rewrite toLowerCase_app. reflexivity.
Qed.

Lemma classify_app_l (a b : string) (flag : Themes -> bool) :
  In flag themeFlags ->
  flag (classify a) = true -> flag (classify (a ++ String " " b)) = true.
Proof.
  intros Hflag.
  repeat (destruct Hflag as [<-|Hflag]); [..|destruct Hflag];
    cbn [classify ai climate fintech healthcare saas consumer];
    try apply anyOf_app_l.
  rewrite !orb_true_iff. intros [H|H].
  - left. apply includesWord_app_l; [reflexivity | exact H].
  - right. apply anyOf_app_l, H.
Qed.

Lemma classify_app_r (a b : string) (flag : Themes -> bool) :
  In flag themeFlags ->
  flag (classify b) = true -> flag (classify (a ++ b)) = true.
Proof.
  intros Hflag.
  repeat (destruct Hflag as [<-|Hflag]); [..|destruct Hflag];
    cbn [classify ai climate fintech healthcare saas consumer];
    try apply anyOf_app_r.
  rewrite !orb_true_iff. intros [H|H].
  - left. apply includesWord_app_r, H.
  - right. apply anyOf_app_r, H.
Qed.

Lemma themes_of_company (fullYearOf : string -> option Z) (currentYear : Z)
    (exponentForm : Q -> string) (rawData : list RawCompanyData)
    (c : ScoredCompany) :
  In c (companies (processData fullYearOf currentYear exponentForm rawData)) ->
  themes c = classify (descriptionText (raw (source c))).
Proof.
  intros Hc. apply In_companies in Hc as [r [idx [_ ->]]]. reflexivity.
Qed.

(** The classifier reads both description columns: a theme that the
    short description alone shows, or the full description alone, is a
    theme of the company, in whatever letter case the keyword is
    written. *)
Theorem themes_from_either_description (fullYearOf : string -> option Z)
    (currentYear : Z) (exponentForm : Q -> string)
    (rawData : list RawCompanyData) (c : ScoredCompany) :
  In c (companies (processData fullYearOf currentYear exponentForm rawData)) ->
  forall flag key,
    In flag themeFlags -> In key descriptionKeys ->
    flag (classify (Str.toLowerCase (Js.orElse (field c key) EmptyString)))
    = true ->
    flag (themes c) = true.
Proof.
  intros Hc flag key Hflag Hkey H.
  rewrite (themes_of_company _ _ _ _ _ Hc), descriptionText_parts.
  unfold field in H. destruct Hkey as [<-|[<-|[]]].
  - apply classify_app_l; assumption.
  - change (String " " (Str.toLowerCase
              (Js.orElse (raw (source c) !! "Full Description") EmptyString)))
      with (" " ++ Str.toLowerCase
              (Js.orElse (raw (source c) !! "Full Description") EmptyString)).
    rewrite <- append_assoc. apply classify_app_r; assumption.
Qed.

(** The test for AI asks for no word start: a company whose short
    description ends in the letters ai, in any letter case and after
    whatever text, is classed as AI. *)
Theorem ai_needs_no_word_start (fullYearOf : string -> option Z)
    (currentYear : Z) (exponentForm : Q -> string)
    (rawData : list RawCompanyData) (c : ScoredCompany)
    (before ending : string) :
  In c (companies (processData fullYearOf currentYear exponentForm rawData)) ->
  field c "Description" = Some (before ++ ending) ->
  Str.toLowerCase ending = "ai" ->
  ai (themes c) = true.
Proof.
  intros Hc Hd He.
  rewrite (themes_of_company _ _ _ _ _ Hc), descriptionText_parts.
  unfold field in Hd. rewrite Hd.
  assert (Hne : Js.orElse (Some (before ++ ending)) EmptyString
                = before ++ ending).
  { unfold Js.orElse. destruct (before ++ ending) eqn:E; [|reflexivity].
    destruct before; [|rewrite append_cons in E; discriminate E].
    rewrite append_empty in E. subst ending. discriminate He. }
  rewrite Hne, toLowerCase_app, He, append_assoc.
  cbn [classify ai]. apply orb_true_iff. left.
  apply includesWord_app_r. reflexivity.
Qed.

(** A company whose operating status is present and is not exactly the
    word Active never scores above 60 on operations, whatever its
    employee count reads as. *)
Theorem inactive_operations_capped (c : Normalized) :
  countsActive c = false -> Num.ltb (Fin 60) (opsScore c) = false.
Proof.
  unfold countsActive, opsScore. intros ->.
  destruct (parseEmployeeCount (raw c !! "Number of Employees")) as [| | |e];
    try reflexivity.
  destruct (min2_fin e 500) as [m [-> [_ [Hm _]]]].
  rewrite div_fin by lra. cbn [Num.add Num.mul Num.ltb].
  apply negb_false_iff, Qle_bool_iff.
  assert (m / 500 <= 1)%Q by (apply Qle_shift_div_r; lra).
  lra.
Qed.

(** A company that counts as active and whose employee median is a
    number that is not negative scores at least 40 on operations. *)
Theorem active_operations_floor (c : Normalized) :
  countsActive c = true ->
  nonNegative (parseEmployeeCount (raw c !! "Number of Employees")) = true ->
  Num.ltb (opsScore c) (Fin 40) = false.
Proof.
  unfold countsActive, opsScore. intros -> [e [-> He]]%nonNegative_fin.
  destruct (min2_fin e 500) as [m [-> [_ [_ Hm]]]].
  rewrite div_fin by lra. cbn [Num.add Num.mul Num.ltb].
  apply negb_false_iff, Qle_bool_iff.
  assert (0 <= m)%Q by (destruct Hm; subst m; lra).
  assert (0 <= m / 500)%Q by (apply Qle_shift_div_l; lra).
  lra.
Qed.

(* ================================================================== *)
(** ** Properties of the closure label *)
(* ================================================================== *)

Lemma trimEnd_app_kept (a b : string) :
  b <> EmptyString -> Str.trimEnd b = b -> Str.trimEnd (a ++ b) = a ++ b.
Proof.
  intros Hne Hb. induction a as [|c r IH]; [exact Hb|].
  rewrite append_cons. cbn [Str.trimEnd]. rewrite IH.
  destruct (r ++ b) eqn:E; [|reflexivity].
  destruct r; [rewrite append_empty in E; contradiction|].
  rewrite append_cons in E. discriminate E.
Qed.

Lemma all_intToString (z : Z) :
  Str.all (fun c => negb (Str.isWhite c)) (intToString z) = true.
Proof.
  assert (Hd : forall n,
    Str.all (fun c => negb (Str.isWhite c)) (Parse.zToString n) = true).
  { intros n. apply (all_impl Str.isDigit); [|apply all_digits_NilZero].
    intros c Hc. rewrite (digit_not_white c Hc). reflexivity. }
  unfold intToString. destruct (z <? 0); [|apply Hd].
  change ("-" ++ Parse.zToString (- z)) with (String "-" (Parse.zToString (- z))).
  cbn [Str.all]. rewrite Hd. reflexivity.
Qed.

Lemma all_padStart (n : nat) (s : string) :
  Str.all (fun c => negb (Str.isWhite c)) s = true ->
  Str.all (fun c => negb (Str.isWhite c)) (padStart n s) = true.
Proof.
  intros Hs. unfold padStart. rewrite all_app, Hs, andb_true_r.
  induction (n - String.length s)%nat as [|k IH]; [reflexivity|].
  cbn [Parse.zeros Str.all]. rewrite IH. reflexivity.
Qed.

Lemma month_two_digits (m : nat) :
  (m < 12)%nat -> String.length (padStart 2 (Parse.natToString (m + 1))) = 2%nat.
Proof.
  intros Hm.
  do 12 (destruct m as [|m]; [reflexivity|]). lia.
Qed.

(** A closed company is labelled Closed, also when it names an acquirer:
    the label is the word alone when the closing date is absent, empty or
    not read as a date, and otherwise the word, a space, the month in two
    digits, a slash and the year. *)
Theorem closed_label (monthYearOf : string -> option (nat * Z))
    (c : RawCompanyData) :
  (forall s m y, monthYearOf s = Some (m, y) -> (m < 12)%nat) ->
  isClosed c = true ->
  exists st,
    acquisitionStatus monthYearOf c = Some st
    /\ isAcquiredOrClosed st = true
    /\ match closingDate monthYearOf c with
       | None => label st = "Closed"
       | Some (m, y) =>
           exists month,
             String.length month = 2%nat
             /\ Parse.parseInt month = Fin (inject_Z (Z.of_nat m + 1))
             /\ label st = "Closed " ++ month ++ "/" ++ intToString y
       end.
Proof.
  intros Hmonth Hclosed. unfold isClosed in Hclosed.
  unfold acquisitionStatus. rewrite Hclosed.
  eexists. split; [reflexivity|]. split; [reflexivity|].
  cbn [label]. unfold closingDate, formatDate.
  destruct (c !! "Closed Date") as [s|]; [|reflexivity].
  destruct (Str.isEmpty s); [reflexivity|].
  destruct (monthYearOf s) as [[m y]|] eqn:E; [|reflexivity].
  exists (padStart 2 (Parse.natToString (m + 1))).
  pose proof (Hmonth s m y E) as Hm.
  split; [apply month_two_digits, Hm|]. split.
  - clear E. do 12 (destruct m as [|m]; [vm_compute; reflexivity|]). lia.
  - cbv zeta. unfold Str.trim.
    change (Str.trimStart
              ("Closed " ++ padStart 2 (Parse.natToString (m + 1)) ++ "/"
               ++ intToString y))
      with ("Closed " ++ padStart 2 (Parse.natToString (m + 1)) ++ "/"
            ++ intToString y).
    apply trimEnd_app_kept.
    + pose proof (month_two_digits m Hm) as Hlen.
      destruct (padStart 2 (Parse.natToString (m + 1))); [discriminate Hlen|].
      rewrite append_cons. discriminate.
    + apply trimEnd_no_white. rewrite all_app.
      rewrite all_padStart.
      * change ("/" ++ intToString y) with (String "/" (intToString y)).
        cbn [Str.all]. rewrite all_intToString. reflexivity.
      * apply (all_impl Str.isDigit); [|apply all_digits_NilZero].
        intros x Hx. rewrite (digit_not_white x Hx). reflexivity.
Qed.

(* ================================================================== *)
(** ** Properties of the theme selection of the trend chart *)
(* ================================================================== *)

Lemma toggleTheme_keeps (theme : string) (prev : list string) :
  prev <> [] -> List.NoDup prev ->
  TrendChart.toggleTheme theme prev <> []
  /\ List.NoDup (TrendChart.toggleTheme theme prev)
  /\ forall t, In t (TrendChart.toggleTheme theme prev) ->
               In t prev \/ t = theme.
Proof.
  intros Hne Hnd. unfold TrendChart.toggleTheme.
  destruct (bool_decide (theme ∈ prev)) eqn:E.
  - destruct (List.length prev =? 1)%nat eqn:El; [tauto|].
    apply Nat.eqb_neq in El. apply bool_decide_eq_true in E.
    apply list_elem_of_In in E. split; [|split].
    + destruct prev as [|a [|b r]]; [contradiction | simpl in El; lia|].
      apply NoDup_cons_iff in Hnd as [Ha _].
      destruct (String.eqb a theme) eqn:Ea.
      * apply String.eqb_eq in Ea. subst a. intros Hf.
        assert (Hb : In b (List.filter (fun t => negb (String.eqb t theme))
                             (theme :: b :: r))).
        { apply filter_In. split; [right; left; reflexivity|].
          apply negb_true_iff, String.eqb_neq. intros ->.
          apply Ha. left. reflexivity. }
        rewrite Hf in Hb. exact Hb.
      * cbn [List.filter]. rewrite Ea. discriminate.
    + apply List.NoDup_filter, Hnd.
    + intros t Ht. apply filter_In in Ht. tauto.
  - apply bool_decide_eq_false in E. split; [|split].
    + destruct prev; discriminate.
    + apply List.NoDup_app; [exact Hnd | |].
      * apply List.NoDup_cons; [intros [] | apply List.NoDup_nil].
      * intros x Hx [<-|[]]. apply E, list_elem_of_In, Hx.
    + intros t Ht. apply in_app_or in Ht as [Ht|[<-|[]]]; tauto.
Qed.

(** Whatever the user clicks, the selection of the chart is never empty
    and holds no theme twice, and every selected theme is a theme of the
    chart or one that was clicked. *)
Theorem selection_never_empty (clicks : list TrendChart.click) :
  TrendChart.selectedThemes clicks <> []
  /\ List.NoDup (TrendChart.selectedThemes clicks)
  /\ forall t, In t (TrendChart.selectedThemes clicks) ->
               In t TrendChart.themeKeys \/ In (TrendChart.Toggle t) clicks.
Proof.
  unfold TrendChart.selectedThemes.
  assert (H0 : TrendChart.themeKeys <> []
               /\ List.NoDup TrendChart.themeKeys
               /\ forall t, In t TrendChart.themeKeys ->
                            In t TrendChart.themeKeys \/ False).
  { split; [discriminate|]. split; [|tauto].
    unfold TrendChart.themeKeys.
    repeat (apply List.NoDup_cons;
            [cbn [In]; intros H; repeat (destruct H as [H|H]; [discriminate H|]); exact H|]).
    apply List.NoDup_nil. }
  assert (G : forall cs sel (P : string -> Prop),
    sel <> [] /\ List.NoDup sel
    /\ (forall t, In t sel -> In t TrendChart.themeKeys \/ P t) ->
    fold_left TrendChart.afterClick cs sel <> []
    /\ List.NoDup (fold_left TrendChart.afterClick cs sel)
    /\ forall t, In t (fold_left TrendChart.afterClick cs sel) ->
         In t TrendChart.themeKeys \/ P t \/ In (TrendChart.Toggle t) cs).
  { induction cs as [|c cs IH]; intros sel P [Hne [Hnd Hin]]; cbn [fold_left].
    - split; [exact Hne|]. split; [exact Hnd|].
      intros t Ht. destruct (Hin t Ht); tauto.
    - destruct (IH (TrendChart.afterClick sel c)
                   (fun t => P t \/ TrendChart.Toggle t = c)) as [H1 [H2 H3]].
      + destruct c as [theme|]; cbn [TrendChart.afterClick].
        * destruct (toggleTheme_keeps theme sel Hne Hnd) as [K1 [K2 K3]].
          split; [exact K1|]. split; [exact K2|].
          intros t Ht. destruct (K3 t Ht) as [K| ->].
          -- destruct (Hin t K); tauto.
          -- right. right. reflexivity.
        * destruct H0 as [K1 [K2 _]]. split; [exact K1|]. split; [exact K2|].
          intros t Ht. left. exact Ht.
      + split; [exact H1|]. split; [exact H2|].
        intros t Ht. destruct (H3 t Ht) as [K|[[K|K]|K]].
        * tauto.
        * tauto.
        * right. right. left. symmetry. exact K.
        * right. right. right. exact K. }
  destruct (G clicks TrendChart.themeKeys (fun _ => False) H0) as [H1 [H2 H3]].
  split; [exact H1|]. split; [exact H2|].
  intros t Ht. destruct (H3 t Ht) as [K|[[]|K]]; tauto.
Qed.

(* ================================================================== *)
(** ** Properties of the pages of the company list *)
(* ================================================================== *)

Lemma take_add {A : Type} (a b : nat) (l : list A) :
  take (a + b) l = (take a l ++ take b (drop a l))%list.
Proof.
  revert l. induction a as [|a IH]; intros l; [reflexivity|].
  destruct l as [|x r]; simpl.
  - destruct b; reflexivity.
  - rewrite IH. reflexivity.
Qed.

Lemma take_all {A : Type} (n : nat) (l : list A) :
  (List.length l <= n)%nat -> take n l = l.
Proof.
  revert l. induction n as [|n IH]; intros [|x r] H; simpl in *;
    try reflexivity; [lia|].
  rewrite IH by lia. reflexivity.
Qed.

Lemma drop_all {A : Type} (n : nat) (l : list A) :
  (List.length l <= n)%nat -> drop n l = [].
Proof.
  revert l. induction n as [|n IH]; intros [|x r] H; simpl in *;
    try reflexivity; [lia|].
  apply IH. lia.
Qed.

Lemma length_drop_nat {A : Type} (n : nat) (l : list A) :
  List.length (drop n l) = (List.length l - n)%nat.
Proof.
  revert l. induction n as [|n IH]; intros [|x r]; simpl; try reflexivity; try lia.
  apply IH.
Qed.

Lemma length_take_nat {A : Type} (n : nat) (l : list A) :
  List.length (take n l) = Nat.min n (List.length l).
Proof.
  revert l. induction n as [|n IH]; intros [|x r]; simpl; try reflexivity.
  rewrite IH. reflexivity.
Qed.

(** The pages, counted from 0, put one after the other. *)
Lemma chunks_concat {A : Type} (k n : nat) (l : list A) :
  concat (List.map (fun p => take k (drop (p * k) l)) (seq 0 n))
  = take (n * k) l.
Proof.
  induction n as [|n IH]; [reflexivity|].
  rewrite seq_S, map_app, concat_app, IH. cbn [List.map concat Nat.add].
  rewrite app_nil_r. replace (S n * k)%nat with (n * k + k)%nat by lia.
  symmetry. apply take_add.
Qed.

(** [slice] between two bounds that are not negative. *)
Lemma slice_from (A : Type) (l : list A) (a b : Z) :
  0 <= a -> 0 <= b ->
  CompanyList.slice l a (a + b) = take (Z.to_nat b) (drop (Z.to_nat a) l).
Proof.
  intros Ha Hb. unfold CompanyList.slice.
  destruct (Z.ltb_spec a 0); [lia|].
  destruct (Z.ltb_spec (a + b) 0); [lia|].
  destruct (Z_le_gt_dec (Z.of_nat (List.length l)) a) as [Hge|Hlt].
  - rewrite !drop_all by lia. destruct (Z.to_nat _), (Z.to_nat b); reflexivity.
  - replace (Z.to_nat (Z.min a (Z.of_nat (List.length l)))) with (Z.to_nat a)
      by lia.
    destruct (Z_le_gt_dec (a + b) (Z.of_nat (List.length l))).
    + f_equal. lia.
    + rewrite !take_all; [reflexivity | |]; rewrite length_drop_nat; lia.
Qed.

(** The page count for a positive number of rows per page. *)
Lemma totalPages_rows (len : nat) (itemsPerPage : Z) :
  0 < itemsPerPage ->
  exists n : nat,
    CompanyList.totalPages len itemsPerPage = Num.ofNat n
    /\ (Z.of_nat n - 1) * itemsPerPage < Z.of_nat len
    /\ Z.of_nat len <= Z.of_nat n * itemsPerPage.
Proof.
  intros Hpos. unfold CompanyList.totalPages.
  destruct (Z.eqb_spec itemsPerPage (-1)); [lia|].
  unfold Num.ofNat, Num.ofZ. rewrite div_fin.
  2: { unfold Qeq. simpl. lia. }
  cbn [CompanyList.ceil].
  set (z := Qceiling (inject_Z (Z.of_nat len) / inject_Z itemsPerPage)).
  assert (Hz : z = - ((- Z.of_nat len) / itemsPerPage)).
  { subst z. destruct itemsPerPage as [|p|p]; try lia.
    rewrite (Qceiling_comp _ (Z.of_nat len # p)) by (symmetry; apply Qmake_Qdiv).
    unfold Qceiling. reflexivity. }
  pose proof (Z.div_mod (- Z.of_nat len) itemsPerPage ltac:(lia)) as Hdm.
  pose proof (Z.mod_pos_bound (- Z.of_nat len) itemsPerPage Hpos) as Hr.
  assert (Hz0 : 0 <= z) by nia.
  exists (Z.to_nat z). rewrite Z2Nat.id by exact Hz0.
  split; [reflexivity|]. nia.
Qed.

(** With a positive number of rows per page, the pages from 1 to the
    page count, one after the other, are the whole list: every company is
    on exactly one page, no page of that range is empty, none holds more
    rows than chosen, and a page after the last is empty. *)
Theorem pages_partition (A : Type) (companies : list A) (itemsPerPage : Z) :
  0 < itemsPerPage ->
  exists n : nat,
    CompanyList.totalPages (List.length companies) itemsPerPage = Num.ofNat n
    /\ concat
         (List.map
            (fun p => CompanyList.paginatedCompanies companies (Z.of_nat p)
                        itemsPerPage)
            (seq 1 n))
       = companies
    /\ (forall p, (1 <= p <= n)%nat ->
          let page :=
            CompanyList.paginatedCompanies companies (Z.of_nat p) itemsPerPage in
          page <> [] /\ Z.of_nat (List.length page) <= itemsPerPage)
    /\ (forall p, (n < p)%nat ->
          CompanyList.paginatedCompanies companies (Z.of_nat p) itemsPerPage
          = []).
Proof.
  intros Hpos.
  destruct (totalPages_rows (List.length companies) itemsPerPage Hpos)
    as [n [Hn [Hlow Hhigh]]].
  exists n. split; [exact Hn|].
  set (k := Z.to_nat itemsPerPage).
  assert (Hpage : forall p, (1 <= p)%nat ->
            CompanyList.paginatedCompanies companies (Z.of_nat p) itemsPerPage
            = take k (drop ((p - 1) * k) companies)).
  { intros p Hp. unfold CompanyList.paginatedCompanies.
    destruct (Z.eqb_spec itemsPerPage (-1)); [lia|]. cbv zeta.
    rewrite slice_from by nia. subst k. f_equal. f_equal. nia. }
  split; [|split].
  - rewrite <- seq_shift, map_map.
    rewrite (map_ext _ (fun p => take k (drop (p * k) companies))).
    + rewrite chunks_concat. apply take_all. subst k. nia.
    + intros p. rewrite Hpage by lia. f_equal. f_equal. lia.
  - intros p Hp. cbv zeta. rewrite Hpage by lia. split.
    + assert (Hlen : (0 < List.length (take k (drop ((p - 1) * k) companies)))%nat).
      { rewrite length_take_nat, length_drop_nat. subst k. nia. }
      destruct (take k (drop ((p - 1) * k) companies));
        [simpl in Hlen; lia | discriminate].
    + rewrite length_take_nat. subst k. lia.
  - intros p Hp. rewrite Hpage by lia.
    rewrite drop_all; [destruct k; reflexivity|]. subst k. nia.
Qed.

(** Choosing all rows gives one page, the whole list, whatever the
    current page. *)
Lemma all_rows_one_page (A : Type) (companies : list A) (currentPage : Z) :
  CompanyList.totalPages (List.length companies) (-1) = Fin 1
  /\ CompanyList.paginatedCompanies companies currentPage (-1) = companies.
Proof. split; reflexivity. Qed.

(** Choosing the rows per page keeps the current page.  When page [p]
    exists with [a] rows per page, and the list has no more than
    [(p - 1) * b] companies, then choosing [a] rows, going to page [p]
    and choosing [b] rows leaves the pager on page [p], which is now
    after the last page: the page shown is empty although the list is
    not. *)
Theorem rows_change_keeps_page (A : Type) (companies : list A) (a b p : Z) :
  0 < a -> 0 < b -> 1 <= p ->
  (p - 1) * a < Z.of_nat (List.length companies) ->
  Z.of_nat (List.length companies) <= (p - 1) * b ->
  let n := List.length companies in
  let pager :=
    fold_left (CompanyList.handle n)
      [CompanyList.SetItemsPerPage a; CompanyList.PageChange p;
       CompanyList.SetItemsPerPage b]
      CompanyList.initialPager in
  CompanyList.currentPage pager = p
  /\ Num.ltb (CompanyList.totalPages n (CompanyList.itemsPerPage pager))
             (Num.ofZ p) = true
  /\ CompanyList.shown companies pager = []
  /\ companies <> [].
Proof.
  intros Ha Hb Hp Hlow Hhigh. cbv zeta.
  destruct (totalPages_rows (List.length companies) a Ha)
    as [na [Hna [Hlowa Hhigha]]].
  destruct (totalPages_rows (List.length companies) b Hb)
    as [nb [Hnb [Hlowb Hhighb]]].
  assert (Hpa : p <= Z.of_nat na) by nia.
  assert (Hpb : Z.of_nat nb < p) by nia.
  cbn [fold_left].
  assert (Hstep : CompanyList.handle (List.length companies)
                    (CompanyList.handle (List.length companies)
                       CompanyList.initialPager
                       (CompanyList.SetItemsPerPage a))
                    (CompanyList.PageChange p)
                  = {| CompanyList.currentPage := p;
                       CompanyList.itemsPerPage := a |}).
  { unfold CompanyList.handle, CompanyList.initialPager.
    cbn [CompanyList.itemsPerPage CompanyList.currentPage]. rewrite Hna.
    unfold Num.ofNat, Num.ofZ, numLe, Num.ltb.
    replace (1 <=? p) with true by (symmetry; apply Z.leb_le; exact Hp).
    replace (Qle_bool (inject_Z p) (inject_Z (Z.of_nat na))) with true.
    - reflexivity.
    - symmetry. apply Qle_bool_iff. rewrite <- Zle_Qle. exact Hpa. }
  rewrite Hstep.
  cbn [CompanyList.handle CompanyList.currentPage CompanyList.itemsPerPage].
  split; [reflexivity|]. split; [|split].
  - rewrite Hnb. unfold Num.ofNat, Num.ofZ, Num.ltb.
    apply negb_true_iff. destruct (Qle_bool _ _) eqn:E; [|reflexivity].
    apply Qle_bool_iff in E. rewrite <- Zle_Qle in E. lia.
  - unfold CompanyList.shown.
    cbn [CompanyList.currentPage CompanyList.itemsPerPage].
    unfold CompanyList.paginatedCompanies.
    destruct (Z.eqb_spec b (-1)); [lia|]. cbv zeta.
    rewrite slice_from by nia.
    rewrite drop_all; [destruct (Z.to_nat b); reflexivity|]. nia.
  - destruct companies; [simpl in Hlow; nia | discriminate].
Qed.

(* ================================================================== *)
(** ** Properties of the first pass over a record *)
(* ================================================================== *)




(* ================================================================== *)
(** ** Properties of the median score of the dashboard *)
(* ================================================================== *)

Lemma In_take_lookup {A : Type} (k : nat) (l : list A) (x : A) :
  In x (take k l) -> exists i, (i < k)%nat /\ l !! i = Some x.
Proof.
  revert l. induction k as [|k IH]; intros [|y r] H; simpl in H;
    try contradiction.
  destruct H as [<-|H].
  - exists 0%nat. split; [lia | reflexivity].
  - destruct (IH r H) as [i [Hi Hx]]. exists (S i). split; [lia | exact Hx].
Qed.

Lemma count_ge_take {A : Type} (p : A -> bool) (k : nat) (l : list A) :
  (k <= List.length l)%nat ->
  (forall x, In x (take k l) -> p x = true) ->
  (k <= List.length (List.filter p l))%nat.
Proof.
  intros Hk Hp. rewrite <- (firstn_skipn k l), List.filter_app, length_app.
  rewrite filter_all by (apply List.Forall_forall; exact Hp).
  rewrite length_take_nat. lia.
Qed.

Lemma count_ge_drop {A : Type} (p : A -> bool) (k : nat) (l : list A) :
  (forall x, In x (drop k l) -> p x = true) ->
  (List.length l - k <= List.length (List.filter p l))%nat.
Proof.
  intros Hp. rewrite <- (firstn_skipn k l) at 2.
  rewrite List.filter_app, length_app.
  rewrite (filter_all p (drop k l)) by (apply List.Forall_forall; exact Hp).
  rewrite length_drop_nat. lia.
Qed.

Lemma length_filter_perm {A : Type} (p : A -> bool) (l l' : list A) :
  Permutation l l' ->
  List.length (List.filter p l) = List.length (List.filter p l').
Proof.
  induction 1 as [|x l l' _ IH|x y l|l l' l'' _ IH1 _ IH2]; simpl.
  - reflexivity.
  - destruct (p x); simpl; congruence.
  - destruct (p x), (p y); reflexivity.
  - congruence.
Qed.

Lemma length_filter_map {A B : Type} (f : A -> B) (p : B -> bool)
    (l : list A) :
  List.length (List.filter p (List.map f l))
  = List.length (List.filter (fun x => p (f x)) l).
Proof.
  induction l as [|x r IH]; simpl; [reflexivity|].
  destruct (p (f x)); simpl; congruence.
Qed.

(** The scores of the dashboard, in ascending order. *)
Lemma ascending_scores (xs : list num) :
  List.Forall (fun x => Num.isFinite x = true) xs ->
  StronglySorted finiteLe (Js.sort (fun a b => (a - b)%num) xs).
Proof.
  intros Hfin.
  apply (sort_sorted_on _ (fun x => Num.isFinite x = true)); [| | |exact Hfin].
  - intros x y z. unfold finiteLe. destruct x, y, z; try tauto. lra.
  - intros x y Dx Dy. unfold Js.after, finiteLe.
    destruct x, y; try discriminate. simpl. intros H%negb_true_iff.
    assert (Hn : ~ (q + - q0 <= 0)%Q) by (rewrite <- Qle_bool_iff; congruence).
    lra.
  - intros x y Dx Dy. unfold Js.after, finiteLe.
    destruct x, y; try discriminate. simpl.
    intros H%negb_false_iff%Qle_bool_iff. lra.
Qed.

Lemma finiteLe_numLe (x y : num) : finiteLe x y -> numLe x y = true.
Proof.
  destruct x, y; simpl; try tauto. intros H.
  unfold numLe, Num.ltb. rewrite negb_involutive. apply Qle_bool_iff, H.
Qed.

Lemma finiteLe_refl (x : num) : Num.isFinite x = true -> finiteLe x x.
Proof. destruct x; try discriminate. simpl. lra. Qed.

Lemma finiteLe_trans (x y z : num) : finiteLe x y -> finiteLe y z -> finiteLe x z.
Proof. destruct x, y, z; simpl; try tauto. lra. Qed.

(** In an ascending list, what stands before a position is at most what
    stands there, and what stands from it on is at least that. *)
Lemma ascending_around (s : list num) (k : nat) (v : num) :
  StronglySorted finiteLe s -> s !! k = Some v -> Num.isFinite v = true ->
  (forall x, In x (take (S k) s) -> finiteLe x v)
  /\ (forall x, In x (drop k s) -> finiteLe v x).
Proof.
  intros Hs Hk Hv. split; intros x Hx.
  - apply In_take_lookup in Hx as [i [Hi Hx]].
    destruct (Nat.eq_dec i k) as [->|Hne].
    + assert (x = v) by congruence. subst x. apply finiteLe_refl, Hv.
    + apply (StronglySorted_lookup _ _ Hs i k x v); [lia | exact Hx | exact Hk].
  - apply In_drop_lookup in Hx as [i [Hi Hx]].
    destruct (Nat.eq_dec i k) as [->|Hne].
    + assert (x = v) by congruence. subst x. apply finiteLe_refl, Hv.
    + apply (StronglySorted_lookup _ _ Hs k i v x); [lia | exact Hk | exact Hx].
Qed.

(** When every comprehensive score is a finite number and there is at
    least one company, the median of the dashboard is a finite number
    that splits the companies: at least half of them score no more than
    it, and at least half score no less. *)
Theorem median_splits (companies : list ScoredCompany) :
  companies <> [] ->
  (forall c, In c companies ->
             Num.isFinite (comprehensive (scores c)) = true) ->
  exists m,
    Dashboard.medianScore companies = Some (Fin m)
    /\ (List.length companies
        <= 2 * Dashboard.countScores (fun x => numLe x (Fin m)) companies)%nat
    /\ (List.length companies
        <= 2 * Dashboard.countScores (fun x => numLe (Fin m) x) companies)%nat.
Proof.
  intros Hne Hfin.
  set (xs := List.map (fun c => comprehensive (scores c)) companies).
  set (s := Js.sort (fun a b => (a - b)%num) xs).
  assert (Hxs : List.Forall (fun x => Num.isFinite x = true) xs).
  { subst xs. apply List.Forall_forall. intros x Hx.
    apply in_map_iff in Hx as [c [<- Hc]]. apply Hfin, Hc. }
  assert (Hperm : Permutation s xs) by apply sort_perm.
  assert (Hsfin : forall x, In x s -> Num.isFinite x = true).
  { intros x Hx. rewrite List.Forall_forall in Hxs. apply Hxs.
    apply (Permutation_in _ Hperm), Hx. }
  assert (Hsorted : StronglySorted finiteLe s) by apply ascending_scores, Hxs.
  assert (Hlen : List.length s = List.length companies).
  { rewrite (Permutation_length Hperm). subst xs. apply length_map. }
  assert (Hcount : forall p,
            Dashboard.countScores p companies = List.length (List.filter p s)).
  { intros p. unfold Dashboard.countScores.
    rewrite (length_filter_perm p s xs Hperm). subst xs.
    symmetry. apply length_filter_map. }
  assert (Hpos : (0 < List.length s)%nat).
  { rewrite Hlen. destruct companies; [contradiction | simpl; lia]. }
  assert (Hat : forall i, (i < List.length s)%nat ->
            exists q, s !! i = Some (Fin q)).
  { intros i Hi. destruct (lookup_lt_is_Some_2 s i Hi) as [x Hx].
    destruct (isFinite_fin x) as [q ->]; [|exists q; exact Hx].
    apply Hsfin. apply list_elem_of_In. eapply list_elem_of_lookup_2, Hx. }
  unfold Dashboard.medianScore. destruct companies as [|c0 cs]; [contradiction|].
  fold xs. fold s. cbv zeta.
  set (mid := (List.length s / 2)%nat).
  pose proof (Nat.div_mod_eq (List.length s) 2) as Hdm.
  pose proof (Nat.mod_upper_bound (List.length s) 2 ltac:(lia)) as Hmod.
  fold mid in Hdm.
  destruct (List.length s mod 2 =? 0)%nat eqn:Eparity; cbn [negb].
  - apply Nat.eqb_eq in Eparity.
    destruct (Hat (mid - 1)%nat ltac:(lia)) as [a Ha].
    destruct (Hat mid ltac:(lia)) as [b Hb].
    rewrite Ha, Hb. cbn [Num.add]. rewrite div_fin by lra.
    exists ((a + b) / 2)%Q. split; [reflexivity|].
    assert (Hab : (a <= b)%Q).
    { apply (StronglySorted_lookup _ _ Hsorted (mid - 1) mid (Fin a) (Fin b));
        [lia | exact Ha | exact Hb]. }
    assert (Hlow : (a <= (a + b) / 2)%Q) by (apply Qle_shift_div_l; lra).
    assert (Hhigh : ((a + b) / 2 <= b)%Q) by (apply Qle_shift_div_r; lra).
    destruct (ascending_around s (mid - 1) (Fin a) Hsorted Ha eq_refl)
      as [Hbefore _].
    destruct (ascending_around s mid (Fin b) Hsorted Hb eq_refl)
      as [_ Hafter].
    rewrite !Hcount, <- Hlen. split.
    + assert (mid <= List.length
                       (List.filter (fun x => numLe x (Fin ((a + b) / 2))) s))%nat;
        [|lia].
      apply count_ge_take; [lia|].
      intros x Hx. apply finiteLe_numLe.
      apply (finiteLe_trans x (Fin a)); [|exact Hlow].
      apply Hbefore. replace (S (mid - 1)) with mid by lia. exact Hx.
    + assert (List.length s - mid
              <= List.length
                   (List.filter (fun x => numLe (Fin ((a + b) / 2)) x) s))%nat;
        [|lia].
      apply count_ge_drop.
      intros x Hx. apply finiteLe_numLe.
      apply (finiteLe_trans _ (Fin b)); [exact Hhigh|].
      apply Hafter, Hx.
  - apply Nat.eqb_neq in Eparity.
    destruct (Hat mid ltac:(lia)) as [b Hb].
    exists b. split; [exact Hb|].
    destruct (ascending_around s mid (Fin b) Hsorted Hb eq_refl)
      as [Hbefore Hafter].
    rewrite !Hcount, <- Hlen. split.
    + assert (S mid <= List.length
                         (List.filter (fun x => numLe x (Fin b)) s))%nat;
        [|lia].
      apply count_ge_take; [lia|].
      intros x Hx. apply finiteLe_numLe, Hbefore, Hx.
    + assert (List.length s - mid
              <= List.length (List.filter (fun x => numLe (Fin b) x) s))%nat;
        [|lia].
      apply count_ge_drop.
      intros x Hx. apply finiteLe_numLe, Hafter, Hx.
Qed.

(* ================================================================== *)
(** ** The parser and carriage returns *)
(* ================================================================== *)

Lemma trimEnd_app_white (s : string) (w : ascii) :
  Str.isWhite w = true -> Str.trimEnd (s ++ Str.str1 w) = Str.trimEnd s.
Proof.
  intros Hw. induction s as [|c r IH].
  - rewrite append_empty. cbn [Str.str1 Str.trimEnd]. rewrite Hw. reflexivity.
  - rewrite append_cons. cbn [Str.trimEnd]. rewrite IH. reflexivity.
Qed.

Lemma trim_app_white (s : string) (w : ascii) :
  Str.isWhite w = true -> Str.trim (s ++ Str.str1 w) = Str.trim s.
Proof.
  intros Hw. unfold Str.trim. induction s as [|c r IH].
  - rewrite append_empty. cbn [Str.str1 Str.trimStart]. rewrite Hw. reflexivity.
  - rewrite append_cons. cbn [Str.trimStart].
    destruct (Str.isWhite c); [exact IH|].
    rewrite <- append_cons. apply trimEnd_app_white, Hw.
Qed.

Lemma cell_app_white (s : string) (w : ascii) :
  Str.isWhite w = true -> Csv.cell (s ++ Str.str1 w) = Csv.cell s.
Proof. intros Hw. unfold Csv.cell. rewrite trim_app_white by exact Hw. reflexivity. Qed.

Lemma parseRow_carriageReturn (l : string) :
  Csv.parseRow (l ++ Str.str1 carriageReturn) = Csv.parseRow l.
Proof.
  unfold Csv.parseRow. rewrite scan_app.
  destruct (Csv.scan l ([], false, EmptyString)) as [[row q] cur].
  cbn [Csv.scan Csv.scanChar Str.str1].
  change (Ascii.eqb carriageReturn Str.dquote) with false.
  change (Ascii.eqb carriageReturn Str.comma) with false.
  cbn [andb]. rewrite cell_app_white by reflexivity. reflexivity.
Qed.

Lemma split_snoc_char (sep w : ascii) (l : string) :
  Ascii.eqb w sep = false ->
  exists init final,
    Str.split sep l = (init ++ [final])%list
    /\ Str.split sep (l ++ Str.str1 w) = (init ++ [(final ++ Str.str1 w)%string])%list.
Proof.
  intros Hw. induction l as [|c r IH].
  - exists [], EmptyString. split; [reflexivity|].
    rewrite append_empty. cbn [Str.str1 Str.split]. rewrite Hw. reflexivity.
  - destruct IH as [init [final [E E']]].
    rewrite append_cons. cbn [Str.split]. rewrite E, E'.
    destruct (Ascii.eqb c sep).
    + exists (EmptyString :: init), final. split; reflexivity.
    + destruct init as [|i rest]; cbn [app].
      * exists [], (String c final). split; reflexivity.
      * exists (String c i :: rest), final. split; reflexivity.
Qed.

Lemma parseHeaders_carriageReturn (l : string) :
  Csv.parseHeaders (l ++ Str.str1 carriageReturn) = Csv.parseHeaders l.
Proof.
  unfold Csv.parseHeaders.
  destruct (split_snoc_char Str.comma carriageReturn l eq_refl)
    as [init [final [-> ->]]].
  rewrite !map_app. cbn [List.map].
  rewrite trim_app_white by reflexivity. reflexivity.
Qed.

Lemma oneLine_carriageReturn (l : string) :
  oneLine l = true -> oneLine (l ++ Str.str1 carriageReturn) = true.
Proof.
  intros H. unfold oneLine in *. rewrite all_app, H. reflexivity.
Qed.

Lemma sameLines_oneLine (lines lines' : list string) :
  List.Forall (fun l => oneLine l = true) lines ->
  Forall2 sameLine lines lines' ->
  List.Forall (fun l => oneLine l = true) lines'.
Proof.
  intros Hone Hsame. induction Hsame as [|l l' ls ls' H _ IH]; [constructor|].
  pose proof (List.Forall_inv Hone) as Hl.
  constructor.
  - destruct H as [->| ->]; [exact Hl | apply oneLine_carriageReturn, Hl].
  - apply IH, (List.Forall_inv_tail Hone).
Qed.

Lemma sameLines_split (lines lines' : list string) :
  List.Forall (fun l => oneLine l = true) lines ->
  Forall2 sameLine lines lines' ->
  Forall2 sameLine
    (Str.split Str.newline (Str.join (Str.str1 Str.newline) lines))
    (Str.split Str.newline (Str.join (Str.str1 Str.newline) lines')).
Proof.
  intros Hone Hsame.
  pose proof (sameLines_oneLine lines lines' Hone Hsame) as Hone'.
  destruct Hsame as [|l l' ls ls' H Hrest].
  - repeat constructor.
  - rewrite !split_join_lines;
      [constructor; assumption | discriminate | exact Hone'
      | discriminate | exact Hone].
Qed.

Lemma sameLine_filter (ls ls' : list string) :
  Forall2 sameLine ls ls' ->
  Forall2 sameLine
    (List.filter (fun l => negb (Str.isEmpty (Str.trim l))) ls)
    (List.filter (fun l => negb (Str.isEmpty (Str.trim l))) ls').
Proof.
  induction 1 as [|l l' ls ls' H _ IH]; [constructor|].
  cbn [List.filter].
  assert (Ht : Str.trim l' = Str.trim l).
  { destruct H as [->| ->]; [reflexivity|]. apply trim_app_white. reflexivity. }
  rewrite Ht. destruct (negb (Str.isEmpty (Str.trim l))); [|exact IH].
  constructor; assumption.
Qed.

Lemma sameLine_rows (ls ls' : list string) :
  Forall2 sameLine ls ls' ->
  List.map Csv.parseRow ls' = List.map Csv.parseRow ls.
Proof.
  induction 1 as [|l l' ls ls' H _ IH]; [reflexivity|].
  cbn [List.map]. rewrite IH. f_equal.
  destruct H as [->| ->]; [reflexivity | apply parseRow_carriageReturn].
Qed.

(** A carriage return at the end of a line changes nothing: a text with
    the line ends of Windows, on all or on some of its lines, gives the
    same records as the text without them. *)
Theorem carriage_returns_ignored (lines lines' : list string) :
  List.Forall (fun l => oneLine l = true) lines ->
  Forall2 sameLine lines lines' ->
  Csv.parseCSV (Str.join (Str.str1 Str.newline) lines')
  = Csv.parseCSV (Str.join (Str.str1 Str.newline) lines).
Proof.
  intros Hone Hsame. unfold Csv.parseCSV, Csv.nonBlankLines.
  pose proof (sameLine_filter _ _ (sameLines_split lines lines' Hone Hsame))
    as Hkept.
  destruct Hkept as [|first first' rest rest' Hfirst Hrest]; [reflexivity|].
  destruct Hrest as [|l l' ls ls' Hl Hls]; [reflexivity|].
  rewrite !parseLine_fold.
  rewrite (sameLine_rows (l :: ls) (l' :: ls')) by (constructor; assumption).
  destruct Hfirst as [->| ->]; [reflexivity|].
  rewrite parseHeaders_carriageReturn. reflexivity.
Qed.

(* ================================================================== *)
(** ** Loading several files *)
(* ================================================================== *)

Lemma length_scoreAll (rawData : list RawCompanyData) :
  List.length (scoreAll rawData) = List.length rawData.
Proof.
  unfold scoreAll, Js.mapi. rewrite length_mapi_from. apply length_map.
Qed.

Lemma company_of_record (fullYearOf : string -> option Z) (currentYear : Z)
    (exponentForm : Q -> string) (rawData : list RawCompanyData)
    (r : RawCompanyData) :
  In r rawData ->
  exists c,
    In c (companies (processData fullYearOf currentYear exponentForm rawData))
    /\ raw (source c) = r.
Proof.
  intros Hr. apply list_elem_of_In, list_elem_of_lookup in Hr as [i Hi].
  exists (scoreCompany (batchBounds (List.map normalizeRecord rawData))
            (normalizeRecord r) i).
  split; [|reflexivity].
  cbn [companies processData]. apply In_sort.
  apply list_elem_of_In, list_elem_of_lookup. exists i.
  unfold scoreAll, Js.mapi.
  rewrite lookup_mapi_from, lookup_map, Hi. reflexivity.
Qed.

(** Loading several files gives one company for each kept row of each
    file, whatever the headers of the files are, and every record read
    from a file is the record of a company of the result. *)
Theorem loaded_files_merge (fullYearOf : string -> option Z)
    (currentYear : Z) (exponentForm : Q -> string)
    (filesContent : list string) :
  let result :=
    handleDataLoaded fullYearOf currentYear exponentForm filesContent in
  List.length (companies result)
  = List.length (flat_map keptRows filesContent)
  /\ forall file r,
       In file filesContent -> In r (Csv.parseCSV file) ->
       exists c, In c (companies result) /\ raw (source c) = r.
Proof.
  cbv zeta. unfold handleDataLoaded. split.
  - cbn [companies processData].
    rewrite (Permutation_length (sort_perm _ _)), length_scoreAll.
    induction filesContent as [|f fs IH]; [reflexivity|].
    cbn [flat_map]. rewrite !length_app, IH, parseCSV_rows, length_map.
    reflexivity.
  - intros file r Hfile Hr. apply company_of_record.
    apply in_flat_map. exists file. split; assumption.
Qed.

(* ================================================================== *)
(** ** The further properties on samples *)
(* ================================================================== *)



(** [parseEmployeeCount_bare] on a text that is not a number. *)
Lemma parseEmployeeCount_bare_witness :
  (forall r, Some "unknown" = Some r ->
             Str.includes "+" r = false /\ Str.includes "-" r = false)
  /\ (forall r, Some "unknown" = Some r -> (String.length r <= 255)%nat)
  /\ parseEmployeeCount (Some "unknown") <> NaN
  /\ Num.ltb (parseEmployeeCount (Some "unknown")) (Fin 0) = false
  /\ nonNegative (parseEmployeeCount (Some "unknown")) = true.
Proof.
  assert (H : forall r, Some "unknown" = Some r ->
                Str.includes "+" r = false /\ Str.includes "-" r = false).
  { intros r Hr. injection Hr as <-. split; reflexivity. }
  assert (L : forall r, Some "unknown" = Some r ->
                (String.length r <= 255)%nat).
  { intros r Hr. injection Hr as <-. simpl. lia. }
  split; [exact H|]. split; [exact L|].
  destruct (parseEmployeeCount_bare (Some "unknown") H) as [H1 [H2 H3]].
  split; [exact H1|]. split; [exact H2 | exact (H3 L)].
Defined.

(** [normalize_in_unit_interval] half way between the bounds. *)
Lemma normalize_in_unit_interval_witness :
  withinMagnitude (Fin 0) = true /\ withinMagnitude (Fin 10) = true
  /\ (0 <= 5)%Q /\ (5 <= 10)%Q
  /\ exists q,
       normalize (Fin 5) (Fin 0) (Fin 10) = Fin q
       /\ (0 <= q)%Q /\ (q <= 1)%Q
       /\ (10 == 0 -> q == 0)%Q
       /\ (5 == 0 -> q == 0)%Q
       /\ (0 < 10 -> 5 == 10 -> q == 1)%Q
       /\ forall v', (5 <= v')%Q -> (v' <= 10)%Q ->
             exists q', normalize (Fin v') (Fin 0) (Fin 10) = Fin q'
                        /\ (q <= q')%Q.
Proof.
  assert (B1 : withinMagnitude (Fin 0) = true) by (vm_compute; reflexivity).
  assert (B2 : withinMagnitude (Fin 10) = true) by (vm_compute; reflexivity).
  assert (H1 : (0 <= 5)%Q) by (unfold Qle; simpl; lia).
  assert (H2 : (5 <= 10)%Q) by (unfold Qle; simpl; lia).
  split; [exact B1|]. split; [exact B2|].
  split; [exact H1|]. split; [exact H2|].
  exact (normalize_in_unit_interval 5 0 10 B1 B2 H1 H2).
Defined.

(** The records of the sample batch read as finite numbers of bounded
    magnitude. *)
Lemma sample_batch_boundedFields :
  forall x, In x (List.map normalizeRecord sample_batch) ->
            boundedFields x = true.
Proof.
  intros x [<-|[<-|[]]]; vm_compute; reflexivity.
Defined.

Lemma sample_first_in_batch :
  In (normalizeRecord sample_first) (List.map normalizeRecord sample_batch).
Proof. left. reflexivity. Defined.

(** [batch_normalization_finite] on the sample batch. *)
Lemma batch_normalization_finite_witness :
  (forall x, In x (List.map normalizeRecord sample_batch) ->
             boundedFields x = true)
  /\ In (normalizeRecord sample_first) (List.map normalizeRecord sample_batch)
  /\ let b := batchBounds (List.map normalizeRecord sample_batch) in
     let c := normalizeRecord sample_first in
     Num.between 0 1 (normalize (_fundAmt c) (minFund b) (maxFund b))
     /\ Num.between 0 1 (normalize (_rank c) (minRank b) (maxRank b))
     /\ atMost 1 (normalize (_articles c) (Fin 0) (maxArticles b))
     /\ atMost 1 (normalize (_rounds c) (Fin 0) (maxRounds b)).
Proof.
  split; [exact sample_batch_boundedFields|].
  split; [exact sample_first_in_batch|].
  exact (batch_normalization_finite (List.map normalizeRecord sample_batch)
           (normalizeRecord sample_first)
           sample_batch_boundedFields sample_first_in_batch).
Defined.

(** [investor_count_is_deals] on the sample investor. *)
Lemma investor_count_is_deals_witness :
  In sample_investor (investors (sample_processData sample_batch))
  /\ let deals := backed (name sample_investor) (scoreAll sample_batch) in
     count sample_investor = List.length deals
     /\ (1 <= count sample_investor)%nat
     /\ topThemes sample_investor = sortedThemes (talliesOf deals).
Proof.
  split; [exact sample_investor_in_result|].
  exact (investor_count_is_deals sample_fullYearOf sample_currentYear
           sample_exponentForm sample_batch sample_investor
           sample_investor_in_result).
Defined.

(** [investor_portfolio] on the sample investor. *)
Lemma investor_portfolio_witness :
  In sample_investor (investors (sample_processData sample_batch))
  /\ let deals := backed (name sample_investor) (scoreAll sample_batch) in
     List.NoDup (List.map item_name (portfolio sample_investor))
     /\ (forall nm,
           In nm (List.map item_name (portfolio sample_investor))
           <-> exists c, In c deals /\ field c "Organization Name" = nm)
     /\ (forall item, In item (portfolio sample_investor) ->
           exists l1 c l2,
             deals = (l1 ++ c :: l2)%list
             /\ field c "Organization Name" = item_name item
             /\ activeThemes (themes c) = item_themes item
             /\ forall c', In c' l2 ->
                           field c' "Organization Name" <> item_name item).
Proof.
  split; [exact sample_investor_in_result|].
  exact (investor_portfolio sample_fullYearOf sample_currentYear
           sample_exponentForm sample_batch sample_investor
           sample_investor_in_result).
Defined.

(** The comprehensive scores of the sample batch are finite. *)
Lemma sample_scores_finite :
  forall c, In c (scoreAll sample_batch) ->
            Num.isFinite (comprehensive (scores c)) = true.
Proof.
  intros c Hc. vm_compute in Hc.
  destruct Hc as [<-|[<-|[]]]; vm_compute; reflexivity.
Defined.

(** [companies_sorted_by_score] on the sample batch. *)
Lemma companies_sorted_by_score_witness :
  (forall c, In c (scoreAll sample_batch) ->
             Num.isFinite (comprehensive (scores c)) = true)
  /\ StronglySorted
       (fun a b =>
          finiteLe (comprehensive (scores b)) (comprehensive (scores a)))
       (companies (sample_processData sample_batch)).
Proof.
  split; [exact sample_scores_finite|].
  exact (companies_sorted_by_score sample_fullYearOf sample_currentYear
           sample_exponentForm sample_batch sample_scores_finite).
Defined.

Lemma sample_record_parsed : In sample_record (Csv.parseCSV sample_text).
Proof. vm_compute. left. reflexivity. Defined.

(** [parseCSV_record_shape] on a text of one data line. *)
Lemma parseCSV_record_shape_witness :
  In sample_record (Csv.parseCSV sample_text)
  /\ (forall k, is_Some (sample_record !! k)
                <-> In k (headerCells sample_text) /\ k <> Csv.protoKey)
  /\ (forall k v, sample_record !! k = Some v -> cleanCell v)
  /\ exists row,
       In row (keptRows sample_text)
       /\ forall i h v,
            headerCells sample_text !! i = Some h -> row !! i = Some v ->
            (forall j, (i < j)%nat -> headerCells sample_text !! j <> Some h) ->
            h <> Csv.protoKey ->
            sample_record !! h = Some v.
Proof.
  split; [exact sample_record_parsed|].
  exact (parseCSV_record_shape sample_text sample_record sample_record_parsed).
Defined.

(** [parseRow_quoted_fields] on two fields, one with a comma. *)
Lemma parseRow_quoted_fields_witness :
  sample_fields <> []
  /\ Csv.parseRow (Str.join "," (List.map quoted sample_fields))
     = List.map (fun s => Str.trim (withoutQuotes s)) sample_fields.
Proof.
  assert (H : sample_fields <> []) by discriminate.
  split; [exact H|].
  exact (parseRow_quoted_fields sample_fields H).
Defined.

(** [export_then_parse_records] on the companies of the sample batch. *)
Lemma export_then_parse_records_witness :
  (forall q, plain (sample_exponentForm q) = true)
  /\ (forall c, In c (companies (sample_processData sample_batch)) ->
                exportable c = true)
  /\ exists text,
       exportCompaniesToCSV sample_exponentForm
         (companies (sample_processData sample_batch)) = Some text
       /\ Csv.parseCSV text
          = Js.mapi
              (fun c i =>
                 Csv.mkObject headers (readBack sample_exponentForm c i))
              (companies (sample_processData sample_batch))
       /\ forall i c organizationName,
            companies (sample_processData sample_batch) !! i = Some c ->
            field c "Organization Name" = Some organizationName ->
            exists r,
              Csv.parseCSV text !! i = Some r
              /\ r !! "Rank" = Some (Parse.natToString (i + 1))
              /\ r !! "Organization Name"
                 = Some (Str.trim (withoutQuotes organizationName))
              /\ r !! "Website"
                 = Some (Csv.cell
                           (Js.orElse (field c "Organization Name URL")
                              EmptyString)).
Proof.
  split; [exact sample_exponentForm_plain|].
  split; [exact sample_companies_exportable|].
  exact (export_then_parse_records sample_exponentForm
           (companies (sample_processData sample_batch))
           sample_exponentForm_plain sample_companies_exportable).
Defined.

(** [themes_from_either_description] on the sample company. *)
Lemma themes_from_either_description_witness :
  In sample_company (companies (sample_processData sample_batch))
  /\ In ai themeFlags
  /\ In "Description" descriptionKeys
  /\ ai (classify
           (Str.toLowerCase
              (Js.orElse (field sample_company "Description") EmptyString)))
     = true
  /\ ai (themes sample_company) = true.
Proof.
  assert (H1 : In ai themeFlags) by (left; reflexivity).
  assert (H2 : In "Description" descriptionKeys) by (left; reflexivity).
  assert (H3 : ai (classify
                     (Str.toLowerCase
                        (Js.orElse (field sample_company "Description")
                           EmptyString))) = true)
    by (vm_compute; reflexivity).
  split; [exact sample_company_in_result|].
  split; [exact H1|]. split; [exact H2|]. split; [exact H3|].
  exact (themes_from_either_description sample_fullYearOf sample_currentYear
           sample_exponentForm sample_batch sample_company
           sample_company_in_result ai "Description" H1 H2 H3).
Defined.

Lemma sample_dubai_in_result :
  In sample_dubai_company (companies (sample_processData [sample_dubai])).
Proof. vm_compute. left. reflexivity. Defined.

(** [ai_needs_no_word_start] on a description that ends in Dubai. *)
Lemma ai_needs_no_word_start_witness :
  In sample_dubai_company (companies (sample_processData [sample_dubai]))
  /\ field sample_dubai_company "Description" = Some ("Hotels in Dub" ++ "ai")
  /\ Str.toLowerCase "ai" = "ai"
  /\ ai (themes sample_dubai_company) = true.
Proof.
  assert (H1 : field sample_dubai_company "Description"
               = Some ("Hotels in Dub" ++ "ai")) by reflexivity.
  assert (H2 : Str.toLowerCase "ai" = "ai") by reflexivity.
  split; [exact sample_dubai_in_result|].
  split; [exact H1|]. split; [exact H2|].
  exact (ai_needs_no_word_start sample_fullYearOf sample_currentYear
           sample_exponentForm [sample_dubai] sample_dubai_company
           "Hotels in Dub" "ai" sample_dubai_in_result H1 H2).
Defined.

(** [inactive_operations_capped] on the closed record of the sample
    batch. *)
Lemma inactive_operations_capped_witness :
  countsActive (normalizeRecord sample_second) = false
  /\ Num.ltb (Fin 60) (opsScore (normalizeRecord sample_second)) = false.
Proof.
  assert (H : countsActive (normalizeRecord sample_second) = false)
    by (vm_compute; reflexivity).
  split; [exact H|].
  exact (inactive_operations_capped (normalizeRecord sample_second) H).
Defined.

(** [active_operations_floor] on the first record of the sample batch. *)
Lemma active_operations_floor_witness :
  countsActive (normalizeRecord sample_first) = true
  /\ nonNegative
       (parseEmployeeCount
          (raw (normalizeRecord sample_first) !! "Number of Employees"))
     = true
  /\ Num.ltb (opsScore (normalizeRecord sample_first)) (Fin 40) = false.
Proof.
  assert (H1 : countsActive (normalizeRecord sample_first) = true)
    by (vm_compute; reflexivity).
  assert (H2 : nonNegative
                 (parseEmployeeCount
                    (raw (normalizeRecord sample_first)
                       !! "Number of Employees")) = true)
    by (vm_compute; reflexivity).
  split; [exact H1|]. split; [exact H2|].
  exact (active_operations_floor (normalizeRecord sample_first) H1 H2).
Defined.

(** The date reader of the samples gives a month of the year. *)
Lemma sample_monthYearOf_month :
  forall s m y, sample_monthYearOf s = Some (m, y) -> (m < 12)%nat.
Proof.
  intros s m y. unfold sample_monthYearOf.
  destruct (Parse.parseInt (substring 0 4 s)); try discriminate.
  destruct (Parse.parseInt (substring 5 2 s)) as [| | |q0]; try discriminate.
  destruct ((1 <=? Qfloor q0) && (Qfloor q0 <=? 12)) eqn:E; [|discriminate].
  apply andb_true_iff in E as [E1 E2].
  apply Z.leb_le in E1, E2. intros H. injection H as <- _. lia.
Defined.

(** [closed_label] on a closed company that names an acquirer. *)
Lemma closed_label_witness :
  (forall s m y, sample_monthYearOf s = Some (m, y) -> (m < 12)%nat)
  /\ isClosed sample_closed = true
  /\ exists st,
       acquisitionStatus sample_monthYearOf sample_closed = Some st
       /\ isAcquiredOrClosed st = true
       /\ match closingDate sample_monthYearOf sample_closed with
          | None => label st = "Closed"
          | Some (m, y) =>
              exists month,
                String.length month = 2%nat
                /\ Parse.parseInt month = Fin (inject_Z (Z.of_nat m + 1))
                /\ label st = "Closed " ++ month ++ "/" ++ intToString y
          end.
Proof.
  assert (H : isClosed sample_closed = true) by (vm_compute; reflexivity).
  split; [exact sample_monthYearOf_month|]. split; [exact H|].
  exact (closed_label sample_monthYearOf sample_closed
           sample_monthYearOf_month H).
Defined.

(** [pages_partition] on a list of 45 entries, 20 to the page. *)
Lemma pages_partition_witness :
  0 < 20
  /\ exists n : nat,
       CompanyList.totalPages (List.length sample_entries) 20 = Num.ofNat n
       /\ concat
            (List.map
               (fun p => CompanyList.paginatedCompanies sample_entries
                           (Z.of_nat p) 20)
               (seq 1 n))
          = sample_entries
       /\ (forall p, (1 <= p <= n)%nat ->
             let page :=
               CompanyList.paginatedCompanies sample_entries (Z.of_nat p) 20 in
             page <> [] /\ Z.of_nat (List.length page) <= 20)
       /\ (forall p, (n < p)%nat ->
             CompanyList.paginatedCompanies sample_entries (Z.of_nat p) 20
             = []).
Proof.
  assert (H : 0 < 20) by lia.
  split; [exact H|].
  exact (pages_partition nat sample_entries 20 H).
Defined.

(** [rows_change_keeps_page] on a list of 45 entries: page 2 of 20 rows,
    then 50 rows. *)
Lemma rows_change_keeps_page_witness :
  0 < 20 /\ 0 < 50 /\ 1 <= 2
  /\ (2 - 1) * 20 < Z.of_nat (List.length sample_entries)
  /\ Z.of_nat (List.length sample_entries) <= (2 - 1) * 50
  /\ let n := List.length sample_entries in
     let pager :=
       fold_left (CompanyList.handle n)
         [CompanyList.SetItemsPerPage 20; CompanyList.PageChange 2;
          CompanyList.SetItemsPerPage 50]
         CompanyList.initialPager in
     CompanyList.currentPage pager = 2
     /\ Num.ltb (CompanyList.totalPages n (CompanyList.itemsPerPage pager))
                (Num.ofZ 2) = true
     /\ CompanyList.shown sample_entries pager = []
     /\ sample_entries <> [].
Proof.
  assert (H1 : 0 < 20) by lia.
  assert (H2 : 0 < 50) by lia.
  assert (H3 : 1 <= 2) by lia.
  assert (H4 : (2 - 1) * 20 < Z.of_nat (List.length sample_entries))
    by (vm_compute; reflexivity).
  assert (H5 : Z.of_nat (List.length sample_entries) <= (2 - 1) * 50)
    by (vm_compute; discriminate).
  split; [exact H1|]. split; [exact H2|]. split; [exact H3|].
  split; [exact H4|]. split; [exact H5|].
  exact (rows_change_keeps_page nat sample_entries 20 50 2 H1 H2 H3 H4 H5).
Defined.


Lemma sample_scored_not_empty : scoreAll sample_batch <> [].
Proof. intros H. vm_compute in H. discriminate H. Defined.

(** [median_splits] on the scored records of the sample batch. *)
Lemma median_splits_witness :
  scoreAll sample_batch <> []
  /\ (forall c, In c (scoreAll sample_batch) ->
                Num.isFinite (comprehensive (scores c)) = true)
  /\ exists m,
       Dashboard.medianScore (scoreAll sample_batch) = Some (Fin m)
       /\ (List.length (scoreAll sample_batch)
           <= 2 * Dashboard.countScores (fun x => numLe x (Fin m))
                    (scoreAll sample_batch))%nat
       /\ (List.length (scoreAll sample_batch)
           <= 2 * Dashboard.countScores (fun x => numLe (Fin m) x)
                    (scoreAll sample_batch))%nat.
Proof.
  split; [exact sample_scored_not_empty|].
  split; [exact sample_scores_finite|].
  exact (median_splits (scoreAll sample_batch) sample_scored_not_empty
           sample_scores_finite).
Defined.

Lemma sample_lines_oneLine :
  List.Forall (fun l => oneLine l = true) sample_lines.
Proof. repeat constructor. Defined.

Lemma sample_lines_same : Forall2 sameLine sample_lines sample_lines_cr.
Proof.
  constructor; [right; reflexivity|].
  constructor; [left; reflexivity | constructor].
Defined.

(** [carriage_returns_ignored] on two lines, the first with a carriage
    return. *)
Lemma carriage_returns_ignored_witness :
  List.Forall (fun l => oneLine l = true) sample_lines
  /\ Forall2 sameLine sample_lines sample_lines_cr
  /\ Csv.parseCSV (Str.join (Str.str1 Str.newline) sample_lines_cr)
     = Csv.parseCSV (Str.join (Str.str1 Str.newline) sample_lines).
Proof.
  split; [exact sample_lines_oneLine|].
  split; [exact sample_lines_same|].
  exact (carriage_returns_ignored sample_lines sample_lines_cr
           sample_lines_oneLine sample_lines_same).
Defined.
